(** * csv-updater: a shallow embedding of the CSV processing core

    The development follows the JavaScript sources:

    - [app/utils/csvProcessor]      parsing front end, format detection,
                                    row validation, grouping, batching,
                                    value validation and formatting;
    - [app/routes/api.process-csv]  the synchronous executor ([action],
                                    [processMetafields],
                                    [processProductProperties]);
    - [app/utils/csvBackgroundProcessor]
                                    the background executor: its
                                    property update path and the job it
                                    runs;
    - [app/utils/jobQueue]          the in-memory job queue.

    Conventions.  A JavaScript string is a [string] of bytes (its UTF-8
    encoding); white space is that of [trim] and [\s], inside and
    outside ASCII; lower-casing is exact on the ASCII letters of its
    result.  A plain
    object is an association list in insertion order.  Built-ins whose
    behaviour lives outside the repository (papaparse, [JSON], [URL],
    [Date], the remote GraphQL client) are fields of a [Platform] or an
    [Admin] record.  What a call throws is a [Thrown]: an [Error] with
    its message, or an object without one. *)

From Stdlib Require Import String Ascii List Arith NArith Lia Bool PeanoNat.
From Stdlib Require Import DecimalString Decimal.
Import ListNotations.
Open Scope string_scope.
Open Scope list_scope.
Open Scope nat_scope.

Set Implicit Arguments.

(* ================================================================== *)
(** * JavaScript string primitives *)
(* ================================================================== *)

Module JS.

Definition code (c : ascii) : nat := nat_of_ascii c.

Definition between (lo hi : nat) (c : ascii) : bool :=
  (lo <=? code c) && (code c <=? hi).

Definition is_digit : ascii -> bool := between 48 57.
Definition is_lower : ascii -> bool := between 97 122.
Definition is_upper : ascii -> bool := between 65 90.

Definition is_char (a c : ascii) : bool := Ascii.eqb a c.

(** White space removed by [String.prototype.trim] and matched by [\s],
    ASCII range: TAB, LF, VT, FF, CR, SPACE. *)
Definition is_space (c : ascii) : bool :=
  between 9 13 c || (code c =? 32).

(** The white space outside ASCII, in the UTF-8 bytes of the strings:
    U+00A0 is two bytes; U+1680, U+2000 to U+200A, U+2028, U+2029,
    U+202F, U+205F, U+3000 and U+FEFF are three. *)
Definition is_nbsp (a b : ascii) : bool :=
  (code a =? 194) && (code b =? 160).

Definition is_wide_space (a b c : ascii) : bool :=
  ((code a =? 225) && (code b =? 154) && (code c =? 128))
  || ((code a =? 226) && (code b =? 128)
      && (between 128 138 c || between 168 169 c || (code c =? 175)))
  || ((code a =? 226) && (code b =? 129) && (code c =? 159))
  || ((code a =? 227) && (code b =? 128) && (code c =? 128))
  || ((code a =? 239) && (code b =? 187) && (code c =? 191)).

Definition lower_char (c : ascii) : ascii :=
  if is_upper c then ascii_of_nat (code c + 32) else c.

(** The two characters outside ASCII whose lower case holds an ASCII
    letter, in UTF-8: U+0130 becomes [i] and U+0307, U+212A becomes
    [k]. *)
Definition is_dotted_I (a b : ascii) : bool :=
  (code a =? 196) && (code b =? 176).

Definition is_kelvin (a b c : ascii) : bool :=
  (code a =? 226) && (code b =? 132) && (code c =? 170).

(** [toLowerCase], as every use in the sources reads it: the ASCII
    letters of the result are those of the real one, in the same
    places.  The other characters outside ASCII are kept as they are;
    their lower case lies outside ASCII as well, and the sources only
    compare lowered text with ASCII names. *)
Fixpoint toLowerCase (s : string) : string :=
  match s with
  | EmptyString => EmptyString
  | String a s1 =>
      match s1 with
      | EmptyString => String (lower_char a) EmptyString
      | String b s2 =>
          if is_dotted_I a b
          then String "i" (String (ascii_of_nat 204)
                             (String (ascii_of_nat 135) (toLowerCase s2)))
          else
            match s2 with
            | EmptyString => String (lower_char a) (toLowerCase s1)
            | String c s3 =>
                if is_kelvin a b c
                then String "k" (toLowerCase s3)
                else String (lower_char a) (toLowerCase s1)
            end
      end
  end.

Fixpoint trimStart (s : string) : string :=
  match s with
  | EmptyString => EmptyString
  | String a s1 =>
      if is_space a then trimStart s1
      else
        match s1 with
        | EmptyString => s
        | String b s2 =>
            if is_nbsp a b then trimStart s2
            else
              match s2 with
              | EmptyString => s
              | String c s3 =>
                  if is_wide_space a b c then trimStart s3 else s
              end
        end
  end.

(** The text up to its trailing white space: a character is kept as
    long as something other than white space follows or starts at
    it. *)
Fixpoint trimEnd (s : string) : string :=
  match s with
  | EmptyString => EmptyString
  | String c s' =>
      match trimStart s with
      | EmptyString => EmptyString
      | String _ _ => String c (trimEnd s')
      end
  end.

Definition trim (s : string) : string := trimEnd (trimStart s).

(** Whether a white-space character outside ASCII starts the text, and
    whether one occurs in it. *)
Definition starts_wide (s : string) : bool :=
  match s with
  | String a (String b rest) =>
      is_nbsp a b
      || match rest with
         | String c _ => is_wide_space a b c
         | EmptyString => false
         end
  | _ => false
  end.

Fixpoint has_wide_space (s : string) : bool :=
  match s with
  | EmptyString => false
  | String _ s' => starts_wide s || has_wide_space s'
  end.

Definition startsWith (s p : string) : bool := String.prefix p s.

(** [s.includes(sub)] *)
Fixpoint includes (s sub : string) : bool :=
  String.prefix sub s ||
  match s with
  | EmptyString => false
  | String _ s' => includes s' sub
  end.

(** [s.split(sep)] for a one-character separator.  The result is never
    empty: [''.split(',')] is [['']]. *)
Fixpoint split (sep : ascii) (s : string) : list string :=
  match s with
  | EmptyString => [EmptyString]
  | String c s' =>
      if Ascii.eqb c sep then EmptyString :: split sep s'
      else match split sep s' with
           | [] => [String c EmptyString]
           | w :: ws => String c w :: ws
           end
  end.

(** [xs.join(sep)] *)
Definition join (sep : string) (xs : list string) : string :=
  String.concat sep xs.

(** [s.replace(/pat/g, rep)] for a literal, non-empty pattern: matches
    are found left to right and do not overlap.  [skip] counts the
    characters of the current match still to be dropped. *)
Fixpoint replace_go (pat rep : string) (skip : nat) (s : string) : string :=
  match s with
  | EmptyString => EmptyString
  | String c s' =>
      match skip with
      | S k => replace_go pat rep k s'
      | O =>
          if String.prefix pat s
          then rep ++ replace_go pat rep (String.length pat - 1) s'
          else String c (replace_go pat rep 0 s')
      end
  end.

Definition replaceAll (pat rep s : string) : string :=
  replace_go pat rep 0 s.

(** [(s.match(/c/g) || []).length] *)
Fixpoint count_char (a : ascii) (s : string) : nat :=
  match s with
  | EmptyString => 0
  | String c s' => (if Ascii.eqb c a then 1 else 0) + count_char a s'
  end.

(** [String(n)] for a non-negative integer. *)
Definition of_nat (n : nat) : string :=
  NilZero.string_of_uint (Nat.to_uint n).

(** [xs.includes(x)] on an array of strings. *)
Definition mem (x : string) (xs : list string) : bool :=
  existsb (String.eqb x) xs.

(** JavaScript truthiness of a string-or-undefined property. *)
Definition truthy (v : option string) : bool :=
  match v with
  | Some (String _ _) => true
  | _ => false
  end.

(** [a || b] on string-or-undefined operands. *)
Definition or_else (a b : option string) : option string :=
  if truthy a then a else b.

(** [a || ''] *)
Definition or_empty (a : option string) : string :=
  match a with
  | Some (String c s) => String c s
  | _ => EmptyString
  end.

(** [arr.slice(i, j)] *)
Definition slice {A} (i j : nat) (xs : list A) : list A :=
  firstn (j - i) (skipn i xs).

End JS.

(* ================================================================== *)
(** * Regular expressions (the anchored literals of the sources) *)
(* ================================================================== *)

Module Regex.

Inductive regex : Type :=
| Void
| Eps
| Class (p : ascii -> bool)
| Cat (r1 r2 : regex)
| Alt (r1 r2 : regex)
| Star (r : regex).

Definition Plus (r : regex) : regex := Cat r (Star r).
Definition Opt (r : regex) : regex := Alt r Eps.
Definition Chr (a : ascii) : regex := Class (JS.is_char a).

Fixpoint Times (n : nat) (r : regex) : regex :=
  match n with
  | O => Eps
  | S k => Cat r (Times k r)
  end.

(** [r{0,n}] *)
Fixpoint UpTo (n : nat) (r : regex) : regex :=
  match n with
  | O => Eps
  | S k => Opt (Cat r (UpTo k r))
  end.

Fixpoint nullable (r : regex) : bool :=
  match r with
  | Void => false
  | Eps => true
  | Class _ => false
  | Cat r1 r2 => nullable r1 && nullable r2
  | Alt r1 r2 => nullable r1 || nullable r2
  | Star _ => true
  end.

Fixpoint deriv (c : ascii) (r : regex) : regex :=
  match r with
  | Void => Void
  | Eps => Void
  | Class p => if p c then Eps else Void
  | Cat r1 r2 =>
      if nullable r1
      then Alt (Cat (deriv c r1) r2) (deriv c r2)
      else Cat (deriv c r1) r2
  | Alt r1 r2 => Alt (deriv c r1) (deriv c r2)
  | Star r1 => Cat (deriv c r1) (Star r1)
  end.

(** [/^r$/.test(s)] *)
Fixpoint test (r : regex) (s : string) : bool :=
  match s with
  | EmptyString => nullable r
  | String c s' => test (deriv c r) s'
  end.

Inductive Matches : regex -> string -> Prop :=
| MEps : Matches Eps EmptyString
| MClass : forall p c, p c = true -> Matches (Class p) (String c EmptyString)
| MCat : forall r1 r2 s1 s2,
    Matches r1 s1 -> Matches r2 s2 -> Matches (Cat r1 r2) (s1 ++ s2)
| MAltL : forall r1 r2 s, Matches r1 s -> Matches (Alt r1 r2) s
| MAltR : forall r1 r2 s, Matches r2 s -> Matches (Alt r1 r2) s
| MStar0 : forall r, Matches (Star r) EmptyString
| MStarS : forall r s1 s2,
    Matches r s1 -> Matches (Star r) s2 -> Matches (Star r) (s1 ++ s2).

End Regex.

(* ================================================================== *)
(** * Results of fallible code, plain objects, platform built-ins *)
(* ================================================================== *)

(** A call either returns or throws; [E] is what it throws. *)
Inductive Result (E A : Type) : Type :=
| Returns (a : A)
| Throws (error : E).

Arguments Returns {E A} a.
Arguments Throws {E A} error.

(** The functions of the CSV utility throw an [Error] carrying a
    [message]. *)
Abbreviation Outcome := (Result string).

Definition bind {E A B} (m : Result E A) (k : A -> Result E B)
  : Result E B :=
  match m with
  | Returns a => k a
  | Throws e => Throws e
  end.

Definition returned {E A} (m : Result E A) : bool :=
  match m with
  | Returns _ => true
  | Throws _ => false
  end.

(** Characters and byte strings that cannot be typed as plain literals. *)
Definition nl : ascii := ascii_of_nat 10.
Definition cr : ascii := ascii_of_nat 13.
Definition dquote : ascii := ascii_of_nat 34.

Definition chr (c : ascii) : string := String c EmptyString.

Fixpoint bytes (codes : list nat) : string :=
  match codes with
  | [] => EmptyString
  | n :: ns => String (ascii_of_nat n) (bytes ns)
  end.

(** ** Plain objects

    Own properties in insertion order.  [Object.keys] lists the array
    indices first, in ascending numeric order, then the other keys in
    insertion order. *)
Module Obj.

Definition t (V : Type) : Type := list (string * V).

Fixpoint get {V} (o : t V) (k : string) : option V :=
  match o with
  | [] => None
  | (k', v) :: o' => if String.eqb k' k then Some v else get o' k
  end.

Fixpoint set {V} (o : t V) (k : string) (v : V) : t V :=
  match o with
  | [] => [(k, v)]
  | (k', v') :: o' =>
      if String.eqb k' k then (k', v) :: o' else (k', v') :: set o' k v
  end.

Fixpoint digits_value (acc : N) (s : string) : option N :=
  match s with
  | EmptyString => Some acc
  | String c s' =>
      if JS.is_digit c
      then digits_value (10 * acc + N.of_nat (JS.code c - 48))%N s'
      else None
  end.

(** The canonical numeric strings up to [2^32 - 2]. *)
Definition array_index (k : string) : option N :=
  match k with
  | EmptyString => None
  | String c rest =>
      if (String.length k <=? 10)
         && (negb (Ascii.eqb c "0") || (String.length k =? 1))
      then match digits_value 0%N k with
           | Some n => if (n <=? 4294967294)%N then Some n else None
           | None => None
           end
      else None
  end.

Fixpoint insert_index (n : N) (k : string) (ks : list (N * string))
  : list (N * string) :=
  match ks with
  | [] => [(n, k)]
  | (m, k') :: ks' =>
      if (n <=? m)%N then (n, k) :: ks else (m, k') :: insert_index n k ks'
  end.

Fixpoint index_keys (ks : list string) : list (N * string) :=
  match ks with
  | [] => []
  | k :: ks' =>
      match array_index k with
      | Some n => insert_index n k (index_keys ks')
      | None => index_keys ks'
      end
  end.

Definition is_index (k : string) : bool :=
  match array_index k with Some _ => true | None => false end.

Definition keys {V} (o : t V) : list string :=
  let ks := map fst o in
  map snd (index_keys ks) ++ filter (fun k => negb (is_index k)) ks.

(** Names every plain object inherits from [Object.prototype]; reading
    one of them on [{}] yields a function or object, never [undefined]. *)
Definition prototype_names : list string :=
  [ "constructor"; "__proto__"; "hasOwnProperty"; "isPrototypeOf";
    "propertyIsEnumerable"; "toLocaleString"; "toString"; "valueOf";
    "__defineGetter__"; "__defineSetter__"; "__lookupGetter__";
    "__lookupSetter__" ].

Definition inherited (k : string) : bool := JS.mem k prototype_names.

End Obj.

(** A parsed row: column name to cell text. *)
Definition RawRow : Type := Obj.t string.

(** ** papaparse *)

Record PapaError : Type := mkPapaError {
  pe_message : option string;
  pe_row : option nat;
  pe_code : option string
}.

Record PapaResult : Type := mkPapaResult {
  papa_data : list RawRow;
  papa_errors : list PapaError
}.

Inductive PapaConfig : Type := PapaStandard | PapaFallback.

(** ** Built-ins of the host *)

Record Platform : Type := mkPlatform {
  JSValue : Type;
  JSON_parse : string -> Outcome JSValue;
  JSON_stringify : JSValue -> string;
  (** [new URL(s)] returns normally *)
  URL_new : string -> bool;
  (** [isNaN(Date.parse(s))] *)
  Date_parse_isNaN : string -> bool;
  (** [parseInt(s, 10).toString()] *)
  parseInt_toString : string -> string;
  (** [parseFloat(s).toString()] *)
  parseFloat_toString : string -> string;
  (** [Papa.parse(text, config)] *)
  Papa_parse : PapaConfig -> string -> Outcome PapaResult
}.

(** [JSON.stringify] on a string and on an array of strings
    (QuoteJSONString): quote, backslash and the C0 controls are
    escaped, every other byte is copied. *)
Definition hex_digit (n : nat) : ascii :=
  if n <? 10 then ascii_of_nat (48 + n) else ascii_of_nat (87 + n).

Definition json_escape_char (c : ascii) : string :=
  let n := JS.code c in
  if n =? 34 then String "\" (chr dquote)
  else if n =? 92 then "\\"
  else if n =? 8 then "\b"
  else if n =? 9 then "\t"
  else if n =? 10 then "\n"
  else if n =? 12 then "\f"
  else if n =? 13 then "\r"
  else if n <? 32
       then "\u00" ++ String (hex_digit (n / 16)) (chr (hex_digit (n mod 16)))
  else chr c.

Fixpoint json_escape (s : string) : string :=
  match s with
  | EmptyString => EmptyString
  | String c s' => json_escape_char c ++ json_escape s'
  end.

Definition JSON_stringify_string (s : string) : string :=
  String dquote (json_escape s ++ chr dquote).

Definition JSON_stringify_strings (xs : list string) : string :=
  "[" ++ JS.join "," (map JSON_stringify_string xs) ++ "]".

(* ================================================================== *)
(** * app/utils/csvProcessor *)
(* ================================================================== *)

Module CsvProcessor.

Import Regex.

(** ** Regular expression literals *)

Definition digit : regex := Class JS.is_digit.

Definition one_of (cs : string) (c : ascii) : bool := JS.includes cs (chr c).

(** [[a-z0-9_.\-()&]] *)
Definition handle_char (c : ascii) : bool :=
  JS.is_lower c || JS.is_digit c || one_of "_.-()&" c.

(** [[a-zA-Z0-9_-]] *)
Definition name_char (c : ascii) : bool :=
  JS.is_lower c || JS.is_upper c || JS.is_digit c || one_of "_-" c.

(** [[a-zA-Z0-9-]] *)
Definition chem_char (c : ascii) : bool :=
  JS.is_lower c || JS.is_upper c || JS.is_digit c || one_of "-" c.

(** [[A-Fa-f0-9]] *)
Definition hex_char (c : ascii) : bool :=
  JS.between 65 70 c || JS.between 97 102 c || JS.is_digit c.

(** [/^\d+$/] *)
Definition re_digits : regex := Plus digit.
(** [/^[a-z0-9_.\-()&]+$/] *)
Definition re_handle : regex := Plus (Class handle_char).
(** [/^[a-zA-Z0-9_-]+$/] *)
Definition re_name : regex := Plus (Class name_char).
(** [/^[a-zA-Z0-9-]+$/] *)
Definition re_chem : regex := Plus (Class chem_char).
(** [\s]: one white-space character, of one, two or three bytes. *)
Definition byte (n : nat) : regex := Class (fun c => JS.code c =? n).

Definition white_space : regex :=
  Alt (Class JS.is_space)
 (Alt (Cat (byte 194) (byte 160))
 (Alt (Cat (byte 225) (Cat (byte 154) (byte 128)))
 (Alt (Cat (byte 226)
           (Cat (byte 128)
                (Class (fun c => JS.between 128 138 c
                                 || JS.between 168 169 c
                                 || (JS.code c =? 175)))))
 (Alt (Cat (byte 226) (Cat (byte 129) (byte 159)))
 (Alt (Cat (byte 227) (Cat (byte 128) (byte 128)))
      (Cat (byte 239) (Cat (byte 187) (byte 191)))))))).

(** [/^[A-Z][a-z]+(\s[A-Z][a-z]+)*$/] *)
Definition re_vendor : regex :=
  let word := Cat (Class JS.is_upper) (Plus (Class JS.is_lower)) in
  Cat word (Star (Cat white_space word)).
(** [/^-?\d+$/] *)
Definition re_integer : regex := Cat (Opt (Chr "-")) (Plus digit).
(** [/^-?\d*\.?\d+$/] *)
Definition re_decimal : regex :=
  Cat (Opt (Chr "-")) (Cat (Star digit) (Cat (Opt (Chr ".")) (Plus digit))).
(** [/^#([A-Fa-f0-9]{6}|[A-Fa-f0-9]{3})$/] *)
Definition re_color : regex :=
  Cat (Chr "#") (Alt (Times 6 (Class hex_char)) (Times 3 (Class hex_char))).

(** ** fixMultilineCSV *)

Record MultilineState : Type := mkMultiline {
  fixedLines : list string;
  currentLine : string;
  inQuotedField : bool;
  quoteCount : nat
}.

Definition nonempty (s : string) : bool :=
  match s with EmptyString => false | String _ _ => true end.

Definition fixMultiline_step (st : MultilineState) (line : string)
  : MultilineState :=
  let quotes := JS.count_char dquote line in
  let quoteCount := quoteCount st + quotes in
  if inQuotedField st || Nat.odd quoteCount then
    let currentLine :=
      if nonempty (currentLine st)
      then (currentLine st ++ " " ++ line)%string
      else line in
    if Nat.even quoteCount
    then mkMultiline (fixedLines st ++ [currentLine]) EmptyString false 0
    else mkMultiline (fixedLines st) currentLine true quoteCount
  else mkMultiline (fixedLines st ++ [line]) (currentLine st)
                   (inQuotedField st) 0.

Definition fixMultilineCSV (csvText : string) : string :=
  let lines := JS.split nl csvText in
  let st := fold_left fixMultiline_step lines
                      (mkMultiline [] EmptyString false 0) in
  let fixedLines :=
    if nonempty (currentLine st)
    then fixedLines st ++ [currentLine st]
    else fixedLines st in
  JS.join (chr nl) fixedLines.

(** ** preprocessCSVForComponents *)

(** The character loop that splits a line on the commas outside
    quotes; the quotes stay in the fields. *)
Fixpoint split_fields (line : string) (currentField : string)
         (inQuotes : bool) : list string :=
  match line with
  | EmptyString => [currentField]
  | String c rest =>
      if Ascii.eqb c dquote
      then split_fields rest (currentField ++ chr c)%string (negb inQuotes)
      else if Ascii.eqb c "," && negb inQuotes
      then currentField :: split_fields rest EmptyString inQuotes
      else split_fields rest (currentField ++ chr c)%string inQuotes
  end.

(** The continuation loop over the remaining fields: returns the
    reconstructed component and the number of fields merged. *)
Fixpoint merge_fields (remainingFields : list string)
         (reconstructedComponent : string) (fieldsToMerge : nat)
  : string * nat :=
  match remainingFields with
  | [] => (reconstructedComponent, fieldsToMerge)
  | f :: rest =>
      let nextField := JS.trim f in
      if test re_digits nextField
      then merge_fields rest (reconstructedComponent ++ "," ++ nextField)%string
                        (S fieldsToMerge)
      else if test re_chem nextField && (1 <? String.length nextField)
      then ((reconstructedComponent ++ "," ++ nextField)%string,
            S fieldsToMerge)
      else if test re_vendor nextField
      then (reconstructedComponent, fieldsToMerge)
      else (reconstructedComponent, fieldsToMerge)
  end.

Fixpoint findIndex {A} (p : A -> bool) (xs : list A) : option nat :=
  match xs with
  | [] => None
  | x :: xs' =>
      if p x then Some 0
      else match findIndex p xs' with
           | Some i => Some (S i)
           | None => None
           end
  end.

Definition preprocess_line (componentColumnIndex : nat) (line : string)
  : string :=
  if negb (nonempty (JS.trim line)) then line
  else
    let fields := split_fields line EmptyString false in
    match nth_error fields componentColumnIndex with
    | Some field =>
        let componentValue := JS.trim field in
        if test re_digits componentValue
           && (String.length componentValue <? 3)
        then
          let remainingFields :=
            JS.slice (componentColumnIndex + 1) (length fields) fields in
          let '(reconstructedComponent, fieldsToMerge) :=
            merge_fields remainingFields componentValue 0 in
          if 0 <? fieldsToMerge
          then
            let newFields :=
              JS.slice 0 componentColumnIndex fields
              ++ [String dquote (reconstructedComponent ++ chr dquote)]
              ++ JS.slice (componentColumnIndex + 1 + fieldsToMerge)
                          (length fields) fields in
            JS.join "," newFields
          else line
        else line
    | None => line
    end.

Definition preprocessCSVForComponents (csvText : string) : string :=
  match JS.split nl csvText with
  | [] => csvText
  | headerLine :: rows =>
      let headers :=
        map (fun h => JS.replaceAll (chr dquote) EmptyString (JS.trim h))
            (JS.split "," headerLine) in
      match findIndex
              (fun header => JS.includes (JS.toLowerCase header) "component")
              headers with
      | None => csvText
      | Some componentColumnIndex =>
          JS.join (chr nl)
                  (headerLine :: map (preprocess_line componentColumnIndex) rows)
      end
  end.

(** ** fixEncodingIssues *)

Definition mu_g : string := bytes [206; 188; 103].            (* U+03BC g *)
Definition replacement_g : string := bytes [239; 191; 189; 103]. (* U+FFFD g *)
Definition A_circumflex : string := bytes [195; 130].          (* U+00C2 *)
Definition a_euro : string := bytes [195; 162; 226; 130; 172]. (* U+00E2 U+20AC *)
Definition a_euro_tm : string := (a_euro ++ bytes [226; 132; 162])%string.
Definition a_euro_oe : string := (a_euro ++ bytes [197; 147])%string.
Definition a_euro_quote : string := (a_euro ++ chr dquote)%string.
Definition en_dash : string := bytes [226; 128; 147].
Definition em_dash : string := bytes [226; 128; 148].

Definition fixEncodingIssues (text : string) : string :=
  if negb (nonempty text) then text
  else
    let t1 := JS.replaceAll "?g" mu_g text in
    let t2 := JS.replaceAll replacement_g mu_g t1 in
    let t3 := JS.replaceAll A_circumflex EmptyString t2 in
    let t4 := JS.replaceAll a_euro_tm "'" t3 in
    let t5 := JS.replaceAll a_euro_oe (chr dquote) t4 in
    let t6 := JS.replaceAll a_euro (chr dquote) t5 in
    let t7 := JS.replaceAll a_euro_quote en_dash t6 in
    JS.replaceAll a_euro_quote em_dash t7.

(** ** detectCSVFormat *)

Inductive Format : Type := products | metafields | unknown.

Definition productHeaders : list string := ["handle"; "title"].
Definition metafieldHeaders : list string :=
  ["handle"; "namespace"; "key"; "value"].

Definition detectCSVFormat (data : list RawRow) : Format :=
  match data with
  | [] => unknown
  | row0 :: _ =>
      let headers := map JS.toLowerCase (Obj.keys row0) in
      let hasProductHeaders :=
        forallb (fun header => existsb (fun h => JS.includes h header) headers)
                productHeaders in
      let hasMetafieldHeaders :=
        forallb (fun header => JS.mem header headers) metafieldHeaders in
      if hasProductHeaders then products
      else if hasMetafieldHeaders then metafields
      else unknown
  end.

(** ** Validated records *)

Record ProductRecord : Type := mkProduct {
  p_handle : string;
  p_title : string;
  p_bodyHtml : string;
  p_vendor : string;
  p_productType : string;
  p_tags : string;
  p_published : option bool;
  p_components : string;
  p_shippingInfo : string;
  p_unitPacks : string;
  p_coa : string;
  p_sds : string;
  p_storageConditions : string;
  p_volume : string;
  p_matrix : string;
  p_casNumber : string;
  p_catalogNumber : string;
  p_dotHazardous : string;
  p_expirationMonths : string
}.

Record MetafieldRecord : Type := mkMetafieldRecord {
  m_handle : string;
  m_namespace : string;
  m_key : string;
  m_value : string;
  m_type : string
}.

Inductive Validated : Type :=
| ValidProducts (data : list ProductRecord)
| ValidMetafields (data : list MetafieldRecord).

Definition format_of (v : Validated) : Format :=
  match v with
  | ValidProducts _ => products
  | ValidMetafields _ => metafields
  end.

Definition row_label (index : nat) : string :=
  ("Row " ++ JS.of_nat (index + 1))%string.

Definition validation_failed (errors : list string) : string :=
  ("CSV validation failed:" ++ chr nl ++ JS.join (chr nl) errors)%string.

(** [xs.forEach((x, index) => ...)] threading the arrays the callback
    pushes to. *)
Fixpoint forEach_indexed {A St} (f : St -> A -> nat -> St) (xs : list A)
         (index : nat) (st : St) : St :=
  match xs with
  | [] => st
  | x :: xs' => forEach_indexed f xs' (S index) (f st x index)
  end.

(** ** validateProductCSVData *)

Definition expiration_of (row : RawRow) : option string :=
  JS.or_else
    (JS.or_else
       (Obj.get row "expiration months (product.metafields.custom.expiration_months)")
       (Obj.get row "expirationMonths"))
    (Obj.get row "expiration months").

Definition productRowErrors (row : RawRow) (index : nat) : list string :=
  let handle := JS.or_else (Obj.get row "Handle") (Obj.get row "handle") in
  (if negb (JS.truthy (Obj.get row "Handle"))
      && negb (JS.truthy (Obj.get row "handle"))
   then [(row_label index ++ ": Missing required field 'Handle'")%string]
   else [])
  ++ (if JS.truthy handle
         && negb (test re_handle (JS.trim (JS.or_empty handle)))
      then [(row_label index
             ++ ": Invalid handle format. Handle contains unsupported characters.")%string]
      else [])
  ++ (if JS.truthy (Obj.get row "Published")
         && negb (JS.mem (JS.toLowerCase (JS.or_empty (Obj.get row "Published")))
                         ["true"; "false"; "1"; "0"; "TRUE"; "FALSE"])
      then [(row_label index
             ++ ": Published field must be true/false or 1/0")%string]
      else [])
  ++ (if JS.truthy (expiration_of row)
         && negb (test re_digits (JS.trim (JS.or_empty (expiration_of row))))
      then [(row_label index
             ++ ": Expiration months must be a positive integer")%string]
      else []).

(** [row[a] || row[b] || row[c] || ''] *)
Definition first_of (row : RawRow) (names : list string) : string :=
  JS.or_empty
    (fold_left (fun acc name => JS.or_else acc (Obj.get row name)) names None).

Definition validatedProductRow (row : RawRow) : ProductRecord :=
  let handle := JS.or_else (Obj.get row "Handle") (Obj.get row "handle") in
  {| p_handle := if JS.truthy handle then JS.trim (JS.or_empty handle)
                 else EmptyString;
     p_title := fixEncodingIssues (first_of row ["Title"]);
     p_bodyHtml := fixEncodingIssues (first_of row ["Body (HTML)"; "bodyHtml"]);
     p_vendor := fixEncodingIssues (first_of row ["Vendor"]);
     p_productType := fixEncodingIssues (first_of row ["Type"]);
     p_tags := fixEncodingIssues (first_of row ["Tags"]);
     p_published :=
       if JS.truthy (Obj.get row "Published")
       then Some (JS.mem (JS.or_empty (Obj.get row "Published"))
                         ["true"; "1"; "TRUE"])
       else None;
     p_components := fixEncodingIssues (first_of row
       ["Components (product.metafields.custom.components)"; "components"]);
     p_shippingInfo := fixEncodingIssues (first_of row
       ["Shipping Info (product.metafields.custom.shipping_info)";
        "shippingInfo"; "Shipping Info"]);
     p_unitPacks := fixEncodingIssues (first_of row
       ["Unit/Packs (product.metafields.custom.unit_packs)";
        "unitPacks"; "Unit/Packs"]);
     p_coa := fixEncodingIssues (first_of row
       ["COA (product.metafields.custom.coa)"; "coa"; "COA"]);
     p_sds := fixEncodingIssues (first_of row
       ["SDS (product.metafields.custom.sds)"; "sds"; "SDS"]);
     p_storageConditions := fixEncodingIssues (first_of row
       ["Storage Conditions (product.metafields.custom.storage_conditions)";
        "storageConditions"; "Storage Conditions"]);
     p_volume := fixEncodingIssues (first_of row
       ["Volume (product.metafields.custom.volume)"; "volume"; "Volume"]);
     p_matrix := fixEncodingIssues (first_of row
       ["Matrix (product.metafields.custom.matrix)"; "matrix"; "Matrix"]);
     p_casNumber := fixEncodingIssues (first_of row
       ["CAS Number (product.metafields.custom.cas_number)";
        "casNumber"; "CAS Number"; "cas_number"]);
     p_catalogNumber := fixEncodingIssues (first_of row
       ["Catalog Number (product.metafields.custom.catalog_number)";
        "catalogNumber"; "Catalog Number"; "catalog_number"]);
     p_dotHazardous := fixEncodingIssues (first_of row
       ["DOT Hazardous (product.metafields.custom.dot_hazardous)";
        "dotHazardous"; "DOT Hazardous"; "dot_hazardous"]);
     p_expirationMonths := JS.or_empty (expiration_of row) |}.

Definition validateProduct_step
           (st : list ProductRecord * list string) (row : RawRow) (index : nat)
  : list ProductRecord * list string :=
  let '(validatedRows, errors) := st in
  let rowErrors := productRowErrors row index in
  if 0 <? length rowErrors
  then (validatedRows, errors ++ rowErrors)
  else (validatedRows ++ [validatedProductRow row], errors).

Definition validateProductCSVData (data : list RawRow) : Outcome Validated :=
  let '(validatedRows, errors) :=
    forEach_indexed validateProduct_step data 0 ([], []) in
  if 0 <? length errors
  then Throws (validation_failed errors)
  else Returns (ValidProducts validatedRows).

(** ** validateMetafieldCSVData *)

Definition requiredFields : list string :=
  ["handle"; "namespace"; "key"; "value"].

Definition validTypes : list string :=
  [ "single_line_text_field"; "multi_line_text_field"; "number_integer";
    "number_decimal"; "date"; "date_time"; "boolean"; "color"; "weight";
    "volume"; "dimension"; "rating"; "json"; "money"; "file_reference";
    "page_reference"; "product_reference"; "variant_reference";
    "collection_reference"; "url" ].

(** [!row[field] || row[field].trim() === ''] *)
Definition blank (v : option string) : bool :=
  negb (JS.truthy v) || negb (nonempty (JS.trim (JS.or_empty v))).

Definition metafield_type (row : RawRow) : string :=
  if JS.truthy (Obj.get row "type")
  then JS.trim (JS.or_empty (Obj.get row "type"))
  else "single_line_text_field".

Definition metafieldRowErrors (row : RawRow) (index : nat) : list string :=
  let type := metafield_type row in
  flat_map (fun field =>
              if blank (Obj.get row field)
              then [(row_label index ++ ": Missing required field '"
                     ++ field ++ "'")%string]
              else [])
           requiredFields
  ++ (if JS.truthy (Obj.get row "handle")
         && negb (test re_handle (JS.trim (JS.or_empty (Obj.get row "handle"))))
      then [(row_label index
             ++ ": Invalid handle format. Handle contains unsupported characters.")%string]
      else [])
  ++ (if negb (JS.mem type validTypes)
      then [(row_label index ++ ": Invalid metafield type '" ++ type
             ++ "'. Valid types: " ++ JS.join ", " validTypes)%string]
      else [])
  ++ (if JS.truthy (Obj.get row "namespace")
         && negb (test re_name (JS.trim (JS.or_empty (Obj.get row "namespace"))))
      then [(row_label index
             ++ ": Invalid namespace format. Use letters, numbers, underscores, and hyphens only.")%string]
      else [])
  ++ (if JS.truthy (Obj.get row "key")
         && negb (test re_name (JS.trim (JS.or_empty (Obj.get row "key"))))
      then [(row_label index
             ++ ": Invalid key format. Use letters, numbers, underscores, and hyphens only.")%string]
      else []).

Definition validatedMetafieldRow (row : RawRow) : MetafieldRecord :=
  {| m_handle := JS.trim (JS.or_empty (Obj.get row "handle"));
     m_namespace := JS.trim (JS.or_empty (Obj.get row "namespace"));
     m_key := JS.trim (JS.or_empty (Obj.get row "key"));
     m_value := fixEncodingIssues (JS.trim (JS.or_empty (Obj.get row "value")));
     m_type := metafield_type row |}.

Definition validateMetafield_step
           (st : list MetafieldRecord * list string) (row : RawRow)
           (index : nat)
  : list MetafieldRecord * list string :=
  let '(validatedRows, errors) := st in
  let rowErrors := metafieldRowErrors row index in
  if 0 <? length rowErrors
  then (validatedRows, errors ++ rowErrors)
  else (validatedRows ++ [validatedMetafieldRow row], errors).

Definition validateMetafieldCSVData (data : list RawRow) : Outcome Validated :=
  let '(validatedRows, errors) :=
    forEach_indexed validateMetafield_step data 0 ([], []) in
  if 0 <? length errors
  then Throws (validation_failed errors)
  else Returns (ValidMetafields validatedRows).

(** ** validateCSVData *)

Definition validateCSVData (data : list RawRow) (preview : bool)
  : Outcome Validated :=
  match detectCSVFormat data with
  | unknown =>
      Throws "Unknown CSV format. Expected either product properties or metafields format."
  | products => validateProductCSVData data
  | metafields => validateMetafieldCSVData data
  end.

(** ** parseCSV *)

Definition maxPreviewRows : nat := 25.

(** Line-ending normalisation, trimming and the two repair passes. *)
Definition cleanCSV (fileText : string) : string :=
  let csvText :=
    JS.trim (JS.replaceAll (chr cr) (chr nl)
               (JS.replaceAll (String cr (chr nl)) (chr nl) fileText)) in
  preprocessCSVForComponents (fixMultilineCSV csvText).

(** The preview cut: header line plus [maxPreviewRows] lines. *)
Definition limitPreview (isPreview : bool) (csvText : string) : string :=
  if isPreview then
    let lines := JS.split nl csvText in
    if maxPreviewRows + 1 <? length lines
    then JS.join (chr nl) (JS.slice 0 (maxPreviewRows + 1) lines)
    else csvText
  else csvText.

Definition papaErrorMessage (error : PapaError) : string :=
  let message :=
    if JS.truthy (pe_message error) then JS.or_empty (pe_message error)
    else "Unknown parsing error" in
  let message :=
    match pe_row error with
    | Some row => ("Row " ++ JS.of_nat (row + 1) ++ ": " ++ message)%string
    | None => message
    end in
  if JS.truthy (pe_code error)
  then (message ++ " (Code: " ++ JS.or_empty (pe_code error) ++ ")")%string
  else message.

Record ParsedCSV : Type := mkParsed {
  csv_data : Validated;
  csv_errors : list PapaError
}.

Definition parseCSV (js : Platform) (fileText : string) (preview : bool)
  : Outcome ParsedCSV :=
  let isPreview := preview in
  let csvText := limitPreview isPreview (cleanCSV fileText) in
  let attempt :=
    bind (match Papa_parse js PapaStandard csvText with
          | Returns results => Returns results
          | Throws _ => Papa_parse js PapaFallback csvText
          end)
         (fun results =>
            if 0 <? length (papa_errors results)
            then Throws ("CSV parsing errors: "
                         ++ JS.join ", " (map papaErrorMessage
                                              (papa_errors results)))%string
            else
              bind (validateCSVData (papa_data results) isPreview)
                   (fun validatedData =>
                      Returns (mkParsed validatedData (papa_errors results))))
  in
  match attempt with
  | Returns r => Returns r
  | Throws message => Throws ("Failed to parse CSV: " ++ message)%string
  end.

(** ** Grouping *)

Record Metafield : Type := mkMetafield {
  mf_namespace : string;
  mf_key : string;
  mf_value : string;
  mf_type : string
}.

Inductive Grouped : Type :=
| GroupedProducts (grouped : Obj.t ProductRecord)
| GroupedMetafields (grouped : Obj.t (list Metafield)).

(** [grouped[handle]] on an object literal also sees the inherited
    properties: for such a handle the array is never created and the
    [push] call fails. *)
Definition groupMetafield_step (acc : Outcome (Obj.t (list Metafield)))
           (metafield : MetafieldRecord) : Outcome (Obj.t (list Metafield)) :=
  bind acc (fun grouped =>
    let entry := mkMetafield (m_namespace metafield) (m_key metafield)
                             (m_value metafield) (m_type metafield) in
    match Obj.get grouped (m_handle metafield) with
    | Some fields =>
        Returns (Obj.set grouped (m_handle metafield) (fields ++ [entry]))
    | None =>
        if Obj.inherited (m_handle metafield)
        then Throws "grouped[metafield.handle].push is not a function"
        else Returns (Obj.set grouped (m_handle metafield) [entry])
    end).

Definition groupMetafieldsByHandle (metafields : list MetafieldRecord)
  : Outcome (Obj.t (list Metafield)) :=
  fold_left groupMetafield_step metafields (Returns []).

(** Assigning to [__proto__] replaces the prototype and adds no own
    property. *)
Definition groupProductsByHandle (products : list ProductRecord)
  : Obj.t ProductRecord :=
  fold_left (fun grouped product =>
               if String.eqb (p_handle product) "__proto__" then grouped
               else Obj.set grouped (p_handle product) product)
            products [].

Definition groupDataByHandle (data : Validated) : Outcome Grouped :=
  match data with
  | ValidMetafields rows =>
      bind (groupMetafieldsByHandle rows)
           (fun grouped => Returns (GroupedMetafields grouped))
  | ValidProducts rows => Returns (GroupedProducts (groupProductsByHandle rows))
  end.

Definition grouped_keys (g : Grouped) : list string :=
  match g with
  | GroupedProducts grouped => Obj.keys grouped
  | GroupedMetafields grouped => Obj.keys grouped
  end.

(** ** createBatches

    [for (let i = 0; i < items.length; i += batchSize)].  The loop does
    not terminate for [batchSize = 0] on a non-empty array: [None]. *)
Fixpoint createBatches_loop {A} (fuel : nat) (items : list A)
         (batchSize i : nat) (batches : list (list A))
  : option (list (list A)) :=
  if i <? length items then
    match fuel with
    | O => None
    | S fuel' =>
        createBatches_loop fuel' items batchSize (i + batchSize)
                           (batches ++ [JS.slice i (i + batchSize) items])
    end
  else Some batches.

Definition createBatches {A} (items : list A) (batchSize : nat)
  : option (list (list A)) :=
  createBatches_loop (length items) items batchSize 0 [].

(** [createBatches(items)]: the default batch size. *)
Definition createBatches_default {A} (items : list A)
  : option (list (list A)) :=
  createBatches items 5.

(** ** RATE_LIMIT_CONFIG, getOptimalBatchSize, calculateDelay *)

Record RateLimitConfig : Type := mkConfig {
  GRAPHQL_COST_LIMIT : nat;
  BATCH_SIZE : nat;
  INTER_BATCH_DELAY : nat;
  RETRY_DELAY : nat;
  MAX_RETRIES : nat;
  SMALL_DATASET : nat;
  MEDIUM_DATASET : nat;
  LARGE_DATASET : nat
}.

Definition RATE_LIMIT_CONFIG : RateLimitConfig :=
  {| GRAPHQL_COST_LIMIT := 1000;
     BATCH_SIZE := 5;
     INTER_BATCH_DELAY := 50;
     RETRY_DELAY := 1000;
     MAX_RETRIES := 3;
     SMALL_DATASET := 10;
     MEDIUM_DATASET := 50;
     LARGE_DATASET := 100 |}.

Definition optimalBatchSize (config : RateLimitConfig) (totalItems : nat)
  : nat :=
  if totalItems <? SMALL_DATASET config then 3
  else if totalItems <? MEDIUM_DATASET config then 2
  else if totalItems <? LARGE_DATASET config then 2
  else 1.

Definition getOptimalBatchSize (totalItems : nat) : nat :=
  optimalBatchSize RATE_LIMIT_CONFIG totalItems.

Definition calculateDelay (batchIndex totalBatches batchSize : nat) : nat :=
  INTER_BATCH_DELAY RATE_LIMIT_CONFIG.

(** ** validateMetafieldValue *)

Definition validateMetafieldValue (js : Platform) (value type : string)
  : bool :=
  if String.eqb type "number_integer" then test re_integer value
  else if String.eqb type "number_decimal" then test re_decimal value
  else if String.eqb type "boolean"
       then JS.mem (JS.toLowerCase value) ["true"; "false"; "1"; "0"]
  else if String.eqb type "date" then negb (Date_parse_isNaN js value)
  else if String.eqb type "date_time" then negb (Date_parse_isNaN js value)
  else if String.eqb type "color" then test re_color value
  else if String.eqb type "url" then URL_new js value
  else if String.eqb type "json" then returned (JSON_parse js value)
  else true.

(** ** formatMetafieldValue *)

Definition formatMetafieldValue (js : Platform) (value type : string)
  : Outcome string :=
  let cleanValue := fixEncodingIssues value in
  if String.eqb type "boolean"
  then Returns (if JS.mem (JS.toLowerCase cleanValue) ["true"; "1"]
                then "true" else "false")
  else if String.eqb type "json"
  then bind (JSON_parse js cleanValue)
            (fun parsed => Returns (JSON_stringify js parsed))
  else if String.eqb type "number_integer"
  then Returns (parseInt_toString js cleanValue)
  else if String.eqb type "number_decimal"
  then Returns (parseFloat_toString js cleanValue)
  else if String.eqb type "url"
  then if negb (JS.startsWith cleanValue "http://")
          && negb (JS.startsWith cleanValue "https://")
       then Returns ("https://" ++ cleanValue)%string
       else Returns cleanValue
  else Returns cleanValue.

End CsvProcessor.

(* ================================================================== *)
(** * The remote store, the result summary and the effect monad *)
(* ================================================================== *)

Module Remote.

Import CsvProcessor.

(** A product as [GET_PRODUCT_BY_HANDLE] returns it; a missing tag
    list and an empty one are treated alike by every reader. *)
Record Product : Type := mkRemoteProduct {
  product_id : string;
  product_title : string;
  product_tags : list string
}.

Record MetafieldInput : Type := mkMetafieldInput {
  mi_ownerId : string;
  mi_namespace : string;
  mi_key : string;
  mi_value : string;
  mi_type : string
}.

(** The [input] of [UPDATE_PRODUCT_PROPERTIES]; [None] is an absent
    property. *)
Record UpdateInput : Type := mkUpdateInput {
  u_id : string;
  u_title : option string;
  u_descriptionHtml : option string;
  u_vendor : option string;
  u_productType : option string;
  u_tags : option (list string);
  u_status : option string;
  u_metafields : option (list Metafield)
}.

Definition present {A} (o : option A) : nat :=
  match o with Some _ => 1 | None => 0 end.

(** [Object.keys(updateInput).length] *)
Definition updateInput_keys (u : UpdateInput) : nat :=
  1 + present (u_title u) + present (u_descriptionHtml u)
  + present (u_vendor u) + present (u_productType u) + present (u_tags u)
  + present (u_status u) + present (u_metafields u).

Inductive Request : Type :=
| GET_PRODUCT_BY_HANDLE (handle : string)
| SET_METAFIELDS (metafields : list MetafieldInput)
| UPDATE_PRODUCT_PROPERTIES (input : UpdateInput).

(** What the executor does to the outside world, in order. *)
Inductive Event : Type :=
| Call (request : Request) (tries : nat)
| Sleep (ms : nat).

Definition is_mutation (e : Event) : bool :=
  match e with
  | Call (SET_METAFIELDS _) _ => true
  | Call (UPDATE_PRODUCT_PROPERTIES _) _ => true
  | _ => false
  end.

Definition is_lookup_of (handle : string) (e : Event) : bool :=
  match e with
  | Call (GET_PRODUCT_BY_HANDLE h) _ => String.eqb h handle
  | _ => false
  end.

Record ProductUpdatePayload : Type := mkProductUpdate {
  pu_userErrors : list string;
  pu_title : string
}.

(** What a rejected promise or a [throw] hands to a [catch], as far as
    the handlers read it: an object whose [message] is a string, as
    every [Error] is, or an object that has no [message]. *)
Inductive Thrown : Type :=
| Error (message : string)
| NoMessage.

(** [error.message] inside a template literal *)
Definition message_text (error : Thrown) : string :=
  match error with
  | Error message => message
  | NoMessage => "undefined"
  end.

(** [admin.graphql]: the answer may depend on everything done so far
    and on the [tries] the call allows the client; a rejected promise
    is [Throws]. *)
Record Admin : Type := mkAdmin {
  productByHandle :
    list Event -> string -> nat -> Result Thrown (option Product);
  metafieldsSet :
    list Event -> list MetafieldInput -> nat -> Result Thrown (list string);
  productUpdate :
    list Event -> UpdateInput -> nat -> Result Thrown ProductUpdatePayload
}.

Inductive JsVal : Type :=
| VNum (n : nat)
| VStr (s : string)
| VBool (b : bool).

Record ErrorEntry : Type := mkError {
  e_handle : string;
  e_error : string
}.

Record Results : Type := mkResults {
  processed : nat;
  errors : list ErrorEntry;
  success : list (Obj.t JsVal);
  total : nat;
  format : Format
}.

Record World : Type := mkWorld {
  results : Results;
  trace : list Event
}.

(** State and exceptions: the state survives a throw. *)
Definition M (A : Type) : Type := World -> Result Thrown A * World.

Definition ret {A} (a : A) : M A := fun w => (Returns a, w).

(** [throw new Error(message)], and the [TypeError]s of the engine *)
Definition throw {A} (message : string) : M A :=
  fun w => (Throws (Error message), w).

Definition bindM {A B} (m : M A) (k : A -> M B) : M B :=
  fun w =>
    match m w with
    | (Returns a, w') => k a w'
    | (Throws e, w') => (Throws e, w')
    end.

Definition try_catch {A} (m : M A) (handler : Thrown -> M A) : M A :=
  fun w =>
    match m w with
    | (Returns a, w') => (Returns a, w')
    | (Throws e, w') => handler e w'
    end.

Definition lift {A} (o : Outcome A) : M A :=
  fun w =>
    (match o with
     | Returns a => Returns a
     | Throws message => Throws (Error message)
     end, w).

Definition log (e : Event) : M unit :=
  fun w => (Returns tt, mkWorld (results w) (trace w ++ [e])).

Definition sleep (ms : nat) : M unit := log (Sleep ms).

Definition modify_results (f : Results -> Results) : M unit :=
  fun w => (Returns tt, mkWorld (f (results w)) (trace w)).

Definition push_error (handle error : string) : M unit :=
  modify_results (fun r =>
    mkResults (processed r) (errors r ++ [mkError handle error])
              (success r) (total r) (format r)).

Definition push_success (entry : Obj.t JsVal) : M unit :=
  modify_results (fun r =>
    mkResults (processed r) (errors r) (success r ++ [entry])
              (total r) (format r)).

Definition incr_processed : M unit :=
  modify_results (fun r =>
    mkResults (S (processed r)) (errors r) (success r) (total r) (format r)).

Definition graphql_product (admin : Admin) (handle : string) (tries : nat)
  : M (option Product) :=
  fun w =>
    let answer := productByHandle admin (trace w) handle tries in
    (answer,
     mkWorld (results w) (trace w ++ [Call (GET_PRODUCT_BY_HANDLE handle) tries])).

Definition graphql_metafieldsSet (admin : Admin)
           (metafields : list MetafieldInput) (tries : nat)
  : M (list string) :=
  fun w =>
    let answer := metafieldsSet admin (trace w) metafields tries in
    (answer,
     mkWorld (results w) (trace w ++ [Call (SET_METAFIELDS metafields) tries])).

Definition graphql_productUpdate (admin : Admin) (input : UpdateInput)
           (tries : nat) : M ProductUpdatePayload :=
  fun w =>
    let answer := productUpdate admin (trace w) input tries in
    (answer,
     mkWorld (results w)
             (trace w ++ [Call (UPDATE_PRODUCT_PROPERTIES input) tries])).

End Remote.

Declare Scope exec_scope.
Delimit Scope exec_scope with exec.
Notation "x <- m ;; k" := (Remote.bindM m (fun x => k))
  (at level 61, m at next level, right associativity) : exec_scope.
Notation "m ;;; k" := (Remote.bindM m (fun _ => k))
  (at level 61, right associativity) : exec_scope.

(* ================================================================== *)
(** * app/routes/api.process-csv: the synchronous executor *)
(* ================================================================== *)

Module Executor.

Import CsvProcessor Remote.
Local Open Scope exec_scope.

Definition csvImportTag : string := "product_csv_import".

Definition tries : nat := MAX_RETRIES RATE_LIMIT_CONFIG.

(** ** processMetafields *)

(** The [forEach] that sorts the group into [validationErrors] and
    [validMetafields]; [formatMetafieldValue] may throw. *)
Fixpoint check_metafields (js : Platform) (product : Product)
         (metafieldsToSet : list Metafield)
         (validationErrors : list string)
         (validMetafields : list MetafieldInput)
  : Outcome (list string * list MetafieldInput) :=
  match metafieldsToSet with
  | [] => Returns (validationErrors, validMetafields)
  | metafield :: rest =>
      if negb (validateMetafieldValue js (mf_value metafield)
                                      (mf_type metafield))
      then check_metafields js product rest
             (validationErrors
              ++ [("Invalid value '" ++ mf_value metafield ++ "' for type '"
                   ++ mf_type metafield ++ "'")%string])
             validMetafields
      else
        bind (formatMetafieldValue js (mf_value metafield) (mf_type metafield))
             (fun value =>
                check_metafields js product rest validationErrors
                  (validMetafields
                   ++ [mkMetafieldInput (product_id product)
                         (mf_namespace metafield) (mf_key metafield)
                         value (mf_type metafield)]))
  end.

Definition tag_only_input (product : Product) (updatedTags : list string)
  : UpdateInput :=
  mkUpdateInput (product_id product) None None None None
                (Some updatedTags) None None.

(** The best-effort tag-add after a successful metafield update; its
    failures are only logged. *)
Definition add_import_tag (admin : Admin) (product : Product) : M unit :=
  try_catch
    (let currentTags := product_tags product in
     if negb (JS.mem csvImportTag currentTags)
     then
       _ <- graphql_productUpdate admin
              (tag_only_input product (currentTags ++ [csvImportTag])) tries ;;
       ret tt
     else ret tt)
    (fun _ => ret tt).

Definition processMetafields (js : Platform) (admin : Admin)
           (product : Product) (metafieldsToSet : list Metafield)
           (handle : string) (dryRun : bool) : M unit :=
  checked <- lift (check_metafields js product metafieldsToSet [] []) ;;
  let '(validationErrors, validMetafields) := checked in
  if 0 <? length validationErrors
  then push_error handle
         ("Validation errors: " ++ JS.join ", " validationErrors)%string
  else if negb dryRun && (0 <? length validMetafields)
  then
    userErrors <- graphql_metafieldsSet admin validMetafields tries ;;
    if 0 <? length userErrors
    then push_error handle
           ("Metafield update errors: " ++ JS.join ", " userErrors)%string
    else
      add_import_tag admin product ;;;
      push_success
        [ ("handle", VStr handle);
          ("metafieldsUpdated", VNum (length validMetafields));
          ("productTitle", VStr (product_title product)) ]
  else
    push_success
      [ ("handle", VStr handle);
        ("metafieldsToUpdate", VNum (length validMetafields));
        ("productTitle", VStr (product_title product));
        ("dryRun", VBool true) ].

(** ** processProductProperties *)

Definition opt_if_nonempty (s : string) : option string :=
  if nonempty s then Some s else None.

(** [tagsArray] after the CSV tags were merged in. *)
Definition merge_tags (existing : list string) (csvTags : list string)
  : list string :=
  fold_left (fun tagsArray tag =>
               if negb (JS.mem tag tagsArray) then tagsArray ++ [tag]
               else tagsArray)
            csvTags existing.

Definition csv_tags (tags : string) : list string :=
  if nonempty tags
  then filter nonempty (map JS.trim (JS.split "," tags))
  else [].

Definition add_tag_if_absent (tag : string) (tagsArray : list string)
  : list string :=
  if negb (JS.mem tag tagsArray) then tagsArray ++ [tag] else tagsArray.

Definition componentsValue (js : Platform) (components : string) : string :=
  if JS.includes components ";"
  then JSON_stringify_strings
         (filter nonempty (map JS.trim (JS.split ";" components)))
  else if returned (JSON_parse js components)
  then components
  else JSON_stringify_strings [JS.trim components].

Definition custom (key value type : string) : Metafield :=
  mkMetafield "custom" key value type.

Definition text_field (key value : string) : list Metafield :=
  if nonempty value then [custom key value "single_line_text_field"] else [].

Definition link_field (key value : string) : list Metafield :=
  if nonempty value
  then
    let isUrl := JS.startsWith value "http://"
                 || JS.startsWith value "https://" in
    [custom key value (if isUrl then "url" else "single_line_text_field")]
  else [].

Definition metafields_of (js : Platform) (productData : ProductRecord)
  : list Metafield :=
  (if nonempty (p_components productData)
   then [custom "components" (componentsValue js (p_components productData))
                "json"]
   else [])
  ++ text_field "shipping_info" (p_shippingInfo productData)
  ++ text_field "unit_packs" (p_unitPacks productData)
  ++ link_field "coa" (p_coa productData)
  ++ link_field "sds" (p_sds productData)
  ++ text_field "storage_conditions" (p_storageConditions productData)
  ++ text_field "volume" (p_volume productData)
  ++ text_field "matrix" (p_matrix productData)
  ++ text_field "cas_number" (p_casNumber productData)
  ++ text_field "catalog_number" (p_catalogNumber productData)
  ++ text_field "dot_hazardous" (p_dotHazardous productData)
  ++ (if nonempty (p_expirationMonths productData)
      then [custom "expiration_months" (p_expirationMonths productData)
                   "number_integer"]
      else []).

Definition status_of (published : option bool) : option string :=
  match published with
  | Some true => Some "ACTIVE"
  | Some false => Some "DRAFT"
  | None => None
  end.

(** [updateInput] as it stands when the function reaches
    [if (!dryRun)]. *)
Definition buildUpdateInput (js : Platform) (product : Product)
           (productData : ProductRecord) : UpdateInput :=
  let tagsArray :=
    add_tag_if_absent csvImportTag
      (merge_tags (product_tags product) (csv_tags (p_tags productData))) in
  let metafields := metafields_of js productData in
  {| u_id := product_id product;
     u_title := opt_if_nonempty (p_title productData);
     u_descriptionHtml :=
       if nonempty (p_bodyHtml productData)
       then Some (p_bodyHtml productData) else None;
     u_vendor := opt_if_nonempty (p_vendor productData);
     u_productType := opt_if_nonempty (p_productType productData);
     u_tags := Some tagsArray;
     u_status := status_of (p_published productData);
     u_metafields :=
       if 0 <? length metafields then Some metafields else None |}.

Definition processProductProperties (js : Platform) (admin : Admin)
           (product : Product) (productData : ProductRecord)
           (handle : string) (dryRun : bool) : M unit :=
  let updateInput := buildUpdateInput js product productData in
  if negb dryRun
  then
    payload <- graphql_productUpdate admin updateInput tries ;;
    if 0 <? length (pu_userErrors payload)
    then push_error handle
           ("Product update errors: "
            ++ JS.join ", " (pu_userErrors payload))%string
    else
      push_success
        [ ("handle", VStr handle);
          ("fieldsUpdated", VNum (updateInput_keys updateInput - 1));
          ("productTitle", VStr (pu_title payload)) ]
  else
    push_success
      [ ("handle", VStr handle);
        ("fieldsToUpdate", VNum (updateInput_keys updateInput - 1));
        ("productTitle", VStr (product_title product));
        ("dryRun", VBool true) ].

(** ** The per-key operation of [action]: one element of
    [batch.map(async (handle) => ...)] *)

Definition is_rate_limit (message : string) : bool :=
  JS.includes message "429" || JS.includes message "rate limit".

Definition process_group (js : Platform) (admin : Admin) (product : Product)
           (groupedData : Grouped) (handle : string) (dryRun : bool)
  : M unit :=
  match groupedData with
  | GroupedMetafields grouped =>
      match Obj.get grouped handle with
      | Some metafieldsToSet =>
          processMetafields js admin product metafieldsToSet handle dryRun
      | None =>
          throw "Cannot read properties of undefined (reading 'forEach')"
      end
  | GroupedProducts grouped =>
      match Obj.get grouped handle with
      | Some productData =>
          processProductProperties js admin product productData handle dryRun
      | None =>
          throw "Cannot read properties of undefined (reading 'title')"
      end
  end.

Definition processHandle (js : Platform) (admin : Admin)
           (groupedData : Grouped) (dryRun : bool) (handle : string)
  : M unit :=
  try_catch
    (found <- graphql_product admin handle tries ;;
     match found with
     | None =>
         push_error handle
           ("Product with handle '" ++ handle ++ "' not found")%string
     | Some product =>
         process_group js admin product groupedData handle dryRun ;;;
         incr_processed
     end)
    (fun error =>
       match error with
       | Error message =>
           (if is_rate_limit message
            then sleep (RETRY_DELAY RATE_LIMIT_CONFIG)
            else ret tt) ;;;
           push_error handle ("Processing error: " ++ message)%string
       | NoMessage =>
           (* [error.message] is [undefined] and has no [includes]:
              the handler throws and the operation is rejected. *)
           throw "Cannot read properties of undefined (reading 'includes')"
       end).

(** ** The batch loop

    The operations of a batch are started together and awaited with
    [Promise.all]; each one catches the failures of its own calls.
    The model runs them to completion one after the other in batch
    order, which is every schedule for a batch of one key.  An
    operation whose handler throws is rejected; the others, already
    started, still run, and [Promise.all] is rejected with the first
    rejection. *)
Definition first_rejection (settled others : Result Thrown unit)
  : Result Thrown unit :=
  match settled with
  | Throws error => Throws error
  | Returns _ => others
  end.

Fixpoint runBatch (js : Platform) (admin : Admin) (groupedData : Grouped)
         (dryRun : bool) (batch : list string) : M unit :=
  match batch with
  | [] => ret tt
  | handle :: rest =>
      fun w =>
        let (settled, w1) :=
          processHandle js admin groupedData dryRun handle w in
        let (others, w2) := runBatch js admin groupedData dryRun rest w1 in
        (first_rejection settled others, w2)
  end.

(** [try { await Promise.all(batchPromises) } catch (batchError)] *)
Definition awaitBatch (js : Platform) (admin : Admin) (groupedData : Grouped)
           (dryRun : bool) (batch : list string) (batchIndex : nat)
  : M unit :=
  try_catch
    (runBatch js admin groupedData dryRun batch)
    (fun batchError =>
       push_error "batch_error"
         ("Batch " ++ JS.of_nat (batchIndex + 1) ++ " processing failed: "
          ++ message_text batchError)%string).

Fixpoint runBatches (js : Platform) (admin : Admin) (groupedData : Grouped)
         (dryRun : bool) (optimalBatchSize : nat)
         (batches : list (list string)) (batchIndex totalBatches : nat)
  : M unit :=
  match batches with
  | [] => ret tt
  | batch :: rest =>
      awaitBatch js admin groupedData dryRun batch batchIndex ;;;
      (if batchIndex <? totalBatches - 1
       then sleep (calculateDelay batchIndex totalBatches optimalBatchSize)
       else ret tt) ;;;
      runBatches js admin groupedData dryRun optimalBatchSize rest
                 (S batchIndex) totalBatches
  end.

(** ** action *)

Inductive Response : Type :=
| BadRequest (error : string)                       (* status 400 *)
| BackgroundStarted (totalProducts : nat) (estimatedMinutes : nat)
| Completed (results : Results) (dryRun : bool)
| ServerError (details : string).                   (* status 500 *)

(** [Math.ceil(n / 10)] *)
Definition ceil_div10 (n : nat) : nat := (n + 9) / 10.

(** The request handler on the uploaded file's text ([None]: no file)
    and the dry-run flag.  The outer [None] stands for a handler that
    never answers. *)
Definition action (js : Platform) (admin : Admin) (file : option string)
           (dryRun : bool) : option (Response * list Event) :=
  match file with
  | None => Some (BadRequest "No file provided", [])
  | Some fileText =>
      match parseCSV js fileText dryRun with
      | Throws message => Some (ServerError message, [])
      | Returns csvData =>
          if 0 <? length (csv_errors csvData)
          then Some (BadRequest "CSV parsing errors", [])
          else
            match groupDataByHandle (csv_data csvData) with
            | Throws message => Some (ServerError message, [])
            | Returns groupedData =>
                let handles := grouped_keys groupedData in
                if length handles =? 0
                then Some (BadRequest "No valid product handles found in CSV",
                           [])
                else if negb dryRun && (50 <? length handles)
                then Some (BackgroundStarted (length handles)
                                             (ceil_div10 (length handles)),
                           [])
                else
                  let results0 :=
                    mkResults 0 [] [] (length handles)
                              (format_of (csv_data csvData)) in
                  let optimalBatchSize :=
                    getOptimalBatchSize (length handles) in
                  match createBatches handles optimalBatchSize with
                  | None => None
                  | Some batches =>
                      match runBatches js admin groupedData dryRun
                                       optimalBatchSize batches 0
                                       (length batches)
                                       (mkWorld results0 []) with
                      | (Returns _, w) =>
                          Some (Completed (results w) dryRun, trace w)
                      | (Throws error, w) =>
                          Some (ServerError (message_text error), trace w)
                      end
                  end
            end
      end
  end.

End Executor.

(* ================================================================== *)
(** * app/utils/csvBackgroundProcessor: the property-update path *)
(* ================================================================== *)

Module Background.

Import CsvProcessor Remote.

(** [updateInput] as [processProductProperties] of the background
    processor has built it when it reaches [if (!dryRun)].  Tags and
    metafields are assembled by the same statements as in the
    synchronous executor. *)
Definition buildUpdateInput (js : Platform) (product : Product)
           (productData : ProductRecord) : UpdateInput :=
  let tagsArray :=
    Executor.add_tag_if_absent Executor.csvImportTag
      (Executor.merge_tags (product_tags product)
                           (Executor.csv_tags (p_tags productData))) in
  let metafields := Executor.metafields_of js productData in
  {| u_id := product_id product;
     u_title := Executor.opt_if_nonempty (p_title productData);
     u_descriptionHtml :=
       if nonempty (p_bodyHtml productData)
       then Some (p_title productData) else None;
     u_vendor := Executor.opt_if_nonempty (p_vendor productData);
     u_productType := Executor.opt_if_nonempty (p_productType productData);
     u_tags := Some tagsArray;
     u_status := Executor.status_of (p_published productData);
     u_metafields :=
       if 0 <? length metafields then Some metafields else None |}.

End Background.

(* ================================================================== *)
(** * A small host and remote store for running the model *)
(* ================================================================== *)

Module Examples.

Import Regex CsvProcessor Remote.

(** A line-oriented reader standing in for papaparse on quote-free
    text with as many cells in every line as there are columns: the
    first line names the columns, blank lines are skipped. *)
Definition lineReader (text : string) : PapaResult :=
  match JS.split nl text with
  | [] => mkPapaResult [] []
  | header :: lines =>
      let names := map JS.trim (JS.split "," header) in
      mkPapaResult
        (map (fun line => combine names (JS.split "," line))
             (filter (fun line => nonempty (JS.trim line)) lines))
        []
  end.

(** [http(s)://] followed by alphabetic labels and an optional path:
    a fragment of the absolute URLs. *)
Definition re_http_url : regex :=
  let label := Plus (Class JS.is_lower) in
  Cat (Chr "h") (Cat (Chr "t") (Cat (Chr "t") (Cat (Chr "p")
    (Cat (Opt (Chr "s")) (Cat (Chr ":") (Cat (Chr "/") (Cat (Chr "/")
      (Cat label
        (Cat (Star (Cat (Chr ".") label))
             (Opt (Cat (Chr "/") (Star (Class (fun _ => true)))))))))))))).

(** A JSON string literal without escapes. *)
Definition plain_json_char (c : ascii) : bool :=
  negb (JS.code c <? 32) && negb (JS.code c =? 34) && negb (JS.code c =? 92).

Definition re_json_string : regex :=
  Cat (Chr dquote) (Cat (Star (Class plain_json_char)) (Chr dquote)).

Definition parse_json_fragment (s : string) : Outcome string :=
  if test re_json_string s
     || JS.mem s ["null"; "true"; "false"]
  then Returns s
  else Throws "Unexpected token in JSON".

(** Canonical integers and decimals print as they are written. *)
Definition re_canonical_integer : regex :=
  Alt (Chr "0")
      (Cat (Opt (Chr "-")) (Cat (Class (JS.between 49 57)) (Star digit))).

Definition re_canonical_decimal : regex :=
  Cat (Alt (Chr "0")
           (Cat (Opt (Chr "-"))
                (Cat (Class (JS.between 49 57)) (Star digit))))
      (Opt (Cat (Chr ".") (Cat (UpTo 5 digit) (Class (JS.between 49 57))))).

(** Numbers short enough to be exact doubles. *)
Definition short (s : string) : bool := String.length s <=? 15.

(** [YYYY-MM-DD] with a month from 01 to 12 and a day from 01 to 28. *)
Definition re_iso_date : regex :=
  let month := Alt (Cat (Chr "0") (Class (JS.between 49 57)))
                   (Cat (Chr "1") (Class (JS.between 48 50))) in
  let day := Alt (Cat (Chr "0") (Class (JS.between 49 57)))
                 (Alt (Cat (Chr "1") digit)
                      (Cat (Chr "2") (Class (JS.between 48 56)))) in
  Cat (Times 4 digit) (Cat (Chr "-") (Cat month (Cat (Chr "-") day))).

(** Every built-in is defined on a fragment of its domain, where it
    answers as the real one does, and gives the failure answer elsewhere;
    the host only serves to run the model on inputs inside the
    fragments. *)
Definition host : Platform :=
  {| JSValue := string;
     JSON_parse := parse_json_fragment;
     JSON_stringify := fun v => v;
     URL_new := test re_http_url;
     Date_parse_isNaN := fun s => negb (test re_iso_date s);
     parseInt_toString :=
       fun s => if test re_canonical_integer s && short s then s else "NaN";
     parseFloat_toString :=
       fun s => if test re_canonical_decimal s && short s then s else "NaN";
     Papa_parse := fun _ text => Returns (lineReader text) |}.

(** A store holding one product per known handle; mutations succeed. *)
Definition store (catalog : list (string * Product)) : Admin :=
  {| productByHandle := fun _ handle _ => Returns (Obj.get catalog handle);
     metafieldsSet := fun _ _ _ => Returns [];
     productUpdate := fun _ _ _ => Returns (mkProductUpdate [] "updated") |}.

Definition red_board : Product :=
  mkRemoteProduct "gid://shopify/Product/1" "Red Board" ["winter"].

Definition catalog : list (string * Product) := [("red-board", red_board)].

(** A store whose lookups are rejected, whatever the [tries], with an
    object that has no [message]. *)
Definition rejecting_without_message : Admin :=
  {| productByHandle := fun _ _ _ => Throws NoMessage;
     metafieldsSet := fun _ _ _ => Returns [];
     productUpdate := fun _ _ _ => Returns (mkProductUpdate [] "updated") |}.

(** A store that stays rate-limited: every lookup is rejected,
    whatever the [tries]. *)
Definition rate_limited : Admin :=
  {| productByHandle :=
       fun _ _ _ => Throws (Error "HTTP 429 Too Many Requests");
     metafieldsSet := fun _ _ _ => Returns [];
     productUpdate := fun _ _ _ => Returns (mkProductUpdate [] "updated") |}.

(** Scenario A of the specification. *)
Definition scenario_A : string :=
  ("handle,namespace,key,value,type" ++ chr nl
   ++ "red-board,custom,color,red,single_line_text_field")%string.

Definition scenario_A_row : RawRow :=
  [ ("handle", "red-board"); ("namespace", "custom"); ("key", "color");
    ("value", "red"); ("type", "single_line_text_field") ].

Definition scenario_A_record : MetafieldRecord :=
  mkMetafieldRecord "red-board" "custom" "color" "red"
                    "single_line_text_field".

Definition scenario_A_grouped : Grouped :=
  GroupedMetafields
    [("red-board",
      [mkMetafield "custom" "color" "red" "single_line_text_field"])].

(** Tables with 25 numbered rows followed by [tail]. *)
Definition metafield_line (handle : string) : string :=
  (handle ++ ",custom,color,red,single_line_text_field")%string.

Definition numbered_lines (n : nat) : list string :=
  map (fun i => metafield_line ("board-" ++ JS.of_nat i)) (seq 1 n).

Definition long_table (tail : list string) : string :=
  JS.join (chr nl)
          ("handle,namespace,key,value,type" :: numbered_lines 25 ++ tail).

Definition long_table_a : string :=
  long_table [metafield_line "extra-a"; metafield_line "extra-b"].

Definition long_table_b : string :=
  long_table [metafield_line "BAD HANDLE"].

(** Tables of 30 data rows, each followed by a blank line; in the second
    the 14th data row has an invalid handle. *)
Definition spaced (rows : list string) : string :=
  JS.join (chr nl)
          ("handle,namespace,key,value,type"
           :: concat (map (fun row => [row; EmptyString]) rows)).

Definition spaced_table : string := spaced (numbered_lines 30).

Definition spaced_table_bad_14 : string :=
  spaced (firstn 13 (numbered_lines 30)
          ++ metafield_line "BAD HANDLE" :: skipn 14 (numbered_lines 30)).

(** A URL whose query holds a question mark, a stray U+00C2 and a g. *)
Definition mojibake_url : string :=
  ("http://a.b/?" ++ A_circumflex ++ "g")%string.

(** The first product row of the repository's test script. *)
Definition red_snowboard : ProductRecord :=
  {| p_handle := "red-snowboard";
     p_title := "Red Snowboard";
     p_bodyHtml := "<p>A red snowboard</p>";
     p_vendor := "Acme";
     p_productType := "Snowboard";
     p_tags := "winter,sports";
     p_published := Some true;
     p_components := "comp1,comp2";
     p_shippingInfo := EmptyString;
     p_unitPacks := EmptyString;
     p_coa := EmptyString;
     p_sds := EmptyString;
     p_storageConditions := EmptyString;
     p_volume := EmptyString;
     p_matrix := EmptyString;
     p_casNumber := EmptyString;
     p_catalogNumber := EmptyString;
     p_dotHazardous := EmptyString;
     p_expirationMonths := EmptyString |}.

End Examples.

(* ================================================================== *)
(** * Properties stated in the words of the specification *)
(* ================================================================== *)

Module Spec.

(** The ten decimal digits. *)
Definition decimal_digit (c : ascii) : Prop :=
  In c (list_ascii_of_string "0123456789").

Fixpoint each_char (P : ascii -> Prop) (s : string) : Prop :=
  match s with
  | EmptyString => True
  | String c s' => P c /\ each_char P s'
  end.

(** One or more digits. *)
Definition digit_string (s : string) : Prop :=
  s <> EmptyString /\ each_char decimal_digit s.

(** An optional leading minus followed by one or more digits. *)
Definition signed_digit_string (s : string) : Prop :=
  exists ds, digit_string ds /\ (s = ds \/ s = String "-" ds).

(** Every element except possibly the last satisfies [P]. *)
Fixpoint all_but_last {A} (P : A -> Prop) (xs : list A) : Prop :=
  match xs with
  | [] => True
  | x :: xs' =>
      match xs' with
      | [] => True
      | _ :: _ => P x /\ all_but_last P xs'
      end
  end.

(** The letters of [s] in lower case equal [name]. *)
Definition same_up_to_case (s name : string) : Prop :=
  JS.toLowerCase s = name.

(** Every canonical name is a header once the headers are lower-cased. *)
Definition has_names_up_to_case (row : RawRow) : Prop :=
  forall name, In name CsvProcessor.metafieldHeaders ->
    exists header, In header (Obj.keys row)
                   /\ same_up_to_case header name.

(** The product-properties test: some header contains [handle] and some
    header contains [title], letter case ignored. *)
Definition looks_like_products (row : RawRow) : Prop :=
  forall name, In name CsvProcessor.productHeaders ->
    exists header, In header (Obj.keys row)
                   /\ JS.includes (JS.toLowerCase header) name = true.

(** Batches that are non-empty, no longer than [batchSize], and full
    except possibly the last. *)
Definition well_formed {A} (batchSize : nat) (rest : list (list A)) : Prop :=
  Forall (fun batch => batch <> [] /\ length batch <= batchSize) rest
  /\ all_but_last (fun batch => length batch = batchSize) rest.

(** The messages of all rows, in row order; [index] is the position of
    the first row. *)
Fixpoint collect_errors {A} (rowErrors : A -> nat -> list string)
         (rows : list A) (index : nat) : list string :=
  match rows with
  | [] => []
  | row :: rows' =>
      rowErrors row index ++ collect_errors rowErrors rows' (S index)
  end.

(** The host's JSON built-ins round-trip: re-serialising a parsed value
    yields a text that parses again and re-serialises to itself. *)
Definition json_round_trip (js : Platform) : Prop :=
  forall (text : string) (parsed : JSValue js),
    JSON_parse js text = Returns parsed ->
    exists reparsed,
      JSON_parse js (JSON_stringify js parsed) = Returns reparsed
      /\ JSON_stringify js reparsed = JSON_stringify js parsed.

(** The records of the rows without a message. *)
Fixpoint collect_valid {A B} (rowErrors : A -> nat -> list string)
         (record : A -> B) (rows : list A) (index : nat) : list B :=
  match rows with
  | [] => []
  | row :: rows' =>
      (match rowErrors row index with
       | [] => [record row]
       | _ :: _ => []
       end) ++ collect_valid rowErrors record rows' (S index)
  end.

End Spec.

(* ================================================================== *)
(** * app/utils/jobQueue *)
(* ================================================================== *)

From Stdlib Require Import ZArith Permutation Sorted.

Module JobQueue.

Import CsvProcessor Remote.

(** [error.message || error]: an error whose message is empty is
    stored as the error value itself. *)
Inductive JobError : Type :=
| ErrorMessage (message : string)
| ErrorValue.

(** The [data] the request handler submits with a job. *)
Record JobData : Type := mkJobData {
  fileContent : string;
  data_dryRun : bool;
  data_format : Format;
  totalProducts : nat
}.

(** A job; times are milliseconds.  The last three properties do not
    exist on a new job: [Object.assign] adds them. *)
Record Job : Type := mkJob {
  job_id : nat;
  job_type : string;
  job_status : string;
  job_progress : nat;
  job_total : nat;
  job_processed : nat;
  job_errors : list ErrorEntry;
  job_success : list (Obj.t JsVal);
  job_data : JobData;
  createdAt : Z;
  startedAt : option Z;
  completedAt : option Z;
  job_error : option JobError;
  job_format : option Format;
  job_results : option Results;
  job_dryRun : option bool
}.

(** An object handed to [updateJob], as far as the properties of a job
    go; [None] is a key the object does not have.  [Object.assign]
    copies every key the object has, [id], [type], [data] and
    [createdAt] included. *)
Record Updates : Type := mkUpdates {
  up_status : option string;
  up_startedAt : option Z;
  up_completedAt : option Z;
  up_error : option JobError;
  up_progress : option nat;
  up_total : option nat;
  up_processed : option nat;
  up_errors : option (list ErrorEntry);
  up_success : option (list (Obj.t JsVal));
  up_format : option Format;
  up_results : option Results;
  up_dryRun : option bool;
  up_id : option nat;
  up_type : option string;
  up_data : option JobData;
  up_createdAt : option Z
}.

Definition no_updates : Updates :=
  mkUpdates None None None None None None None None None None None None
            None None None None.

Definition or_keep {A} (update : option A) (current : A) : A :=
  match update with Some v => v | None => current end.

Definition or_keep_opt {A} (update : option A) (current : option A)
  : option A :=
  match update with Some v => Some v | None => current end.

(** [Object.assign(job, updates)] *)
Definition assign (job : Job) (updates : Updates) : Job :=
  {| job_id := or_keep (up_id updates) (job_id job);
     job_type := or_keep (up_type updates) (job_type job);
     job_status := or_keep (up_status updates) (job_status job);
     job_progress := or_keep (up_progress updates) (job_progress job);
     job_total := or_keep (up_total updates) (job_total job);
     job_processed := or_keep (up_processed updates) (job_processed job);
     job_errors := or_keep (up_errors updates) (job_errors job);
     job_success := or_keep (up_success updates) (job_success job);
     job_data := or_keep (up_data updates) (job_data job);
     createdAt := or_keep (up_createdAt updates) (createdAt job);
     startedAt := or_keep_opt (up_startedAt updates) (startedAt job);
     completedAt := or_keep_opt (up_completedAt updates) (completedAt job);
     job_error := or_keep_opt (up_error updates) (job_error job);
     job_format := or_keep_opt (up_format updates) (job_format job);
     job_results := or_keep_opt (up_results updates) (job_results job);
     job_dryRun := or_keep_opt (up_dryRun updates) (job_dryRun job) |}.

(** [{ ...first, ...second }]: where both have a key, the later one
    wins. *)
Definition spread (first second : Updates) : Updates :=
  {| up_status := or_keep_opt (up_status second) (up_status first);
     up_startedAt := or_keep_opt (up_startedAt second) (up_startedAt first);
     up_completedAt :=
       or_keep_opt (up_completedAt second) (up_completedAt first);
     up_error := or_keep_opt (up_error second) (up_error first);
     up_progress := or_keep_opt (up_progress second) (up_progress first);
     up_total := or_keep_opt (up_total second) (up_total first);
     up_processed := or_keep_opt (up_processed second) (up_processed first);
     up_errors := or_keep_opt (up_errors second) (up_errors first);
     up_success := or_keep_opt (up_success second) (up_success first);
     up_format := or_keep_opt (up_format second) (up_format first);
     up_results := or_keep_opt (up_results second) (up_results first);
     up_dryRun := or_keep_opt (up_dryRun second) (up_dryRun first);
     up_id := or_keep_opt (up_id second) (up_id first);
     up_type := or_keep_opt (up_type second) (up_type first);
     up_data := or_keep_opt (up_data second) (up_data first);
     up_createdAt :=
       or_keep_opt (up_createdAt second) (up_createdAt first) |}.

(** The [Map] of jobs, in insertion order, and the id counter. *)
Record Queue : Type := mkQueue {
  jobs : list (nat * Job);
  currentJobId : nat
}.

(** [new JobQueue()] *)
Definition empty : Queue := mkQueue [] 0.

Fixpoint map_get (m : list (nat * Job)) (k : nat) : option Job :=
  match m with
  | [] => None
  | (k', v) :: m' => if k' =? k then Some v else map_get m' k
  end.

Fixpoint map_set (m : list (nat * Job)) (k : nat) (v : Job)
  : list (nat * Job) :=
  match m with
  | [] => [(k, v)]
  | (k', v') :: m' =>
      if k' =? k then (k', v) :: m' else (k', v') :: map_set m' k v
  end.

(** [createJob(type, data)] at time [now]: the new queue and the id. *)
Definition createJob (q : Queue) (now : Z) (type : string) (data : JobData)
  : Queue * nat :=
  let jobId := S (currentJobId q) in
  let job :=
    {| job_id := jobId;
       job_type := type;
       job_status := "pending";
       job_progress := 0;
       job_total := 0;
       job_processed := 0;
       job_errors := [];
       job_success := [];
       job_data := data;
       createdAt := now;
       startedAt := None;
       completedAt := None;
       job_error := None;
       job_format := None;
       job_results := None;
       job_dryRun := None |} in
  (mkQueue (map_set (jobs q) jobId job) jobId, jobId).

Definition getJob (q : Queue) (jobId : nat) : option Job :=
  map_get (jobs q) jobId.

(** [updateJob(jobId, updates)]: the new queue and the job returned
    ([None] for [undefined]). *)
Definition updateJob (q : Queue) (jobId : nat) (updates : Updates)
  : Queue * option Job :=
  match map_get (jobs q) jobId with
  | Some job =>
      let job' := assign job updates in
      (mkQueue (map_set (jobs q) jobId job') (currentJobId q), Some job')
  | None => (q, None)
  end.

(** [{ status: 'processing', startedAt: new Date() }] *)
Definition started (now : Z) : Updates :=
  mkUpdates (Some "processing") (Some now) None None
            None None None None None None None None None None None None.

Definition startJob (q : Queue) (now : Z) (jobId : nat)
  : Queue * option Job :=
  updateJob q jobId (started now).

(** [{ status: 'completed', completedAt: new Date(), ...results }] *)
Definition completed (now : Z) (results : Updates) : Updates :=
  spread (mkUpdates (Some "completed") None (Some now) None
                    None None None None None None None None
                    None None None None)
         results.

Definition completeJob (q : Queue) (now : Z) (jobId : nat)
           (results : Updates) : Queue * option Job :=
  updateJob q jobId (completed now results).

(** [error.message || error] *)
Definition error_of (error : Thrown) : JobError :=
  match error with
  | Error message =>
      if nonempty message then ErrorMessage message else ErrorValue
  | NoMessage => ErrorValue
  end.

(** [{ status: 'failed', completedAt: new Date(),
       error: error.message || error }] *)
Definition failed (now : Z) (error : Thrown) : Updates :=
  mkUpdates (Some "failed") None (Some now) (Some (error_of error))
            None None None None None None None None None None None None.

Definition failJob (q : Queue) (now : Z) (jobId : nat) (error : Thrown)
  : Queue * option Job :=
  updateJob q jobId (failed now error).

Definition updateProgress (q : Queue) (jobId : nat) (progress : Updates)
  : Queue * option Job :=
  updateJob q jobId progress.

Definition oneHour : Z := (60 * 60 * 1000)%Z.

(** [cleanup()] at time [now] *)
Definition cleanup (q : Queue) (now : Z) : Queue :=
  let oneHourAgo := (now - oneHour)%Z in
  mkQueue (filter (fun entry => negb (createdAt (snd entry) <? oneHourAgo)%Z)
                  (jobs q))
          (currentJobId q).

(** One call on the queue. *)
Inductive Op : Type :=
| OpCreate (now : Z) (type : string) (data : JobData)
| OpUpdate (jobId : nat) (updates : Updates)
| OpStart (now : Z) (jobId : nat)
| OpComplete (now : Z) (jobId : nat) (results : Updates)
| OpFail (now : Z) (jobId : nat) (error : Thrown)
| OpCleanup (now : Z).

Definition run (q : Queue) (op : Op) : Queue :=
  match op with
  | OpCreate now type data => fst (createJob q now type data)
  | OpUpdate jobId updates => fst (updateJob q jobId updates)
  | OpStart now jobId => fst (startJob q now jobId)
  | OpComplete now jobId results => fst (completeJob q now jobId results)
  | OpFail now jobId error => fst (failJob q now jobId error)
  | OpCleanup now => cleanup q now
  end.

(** The queue after a history of calls on a new queue. *)
Definition after (history : list Op) : Queue := fold_left run history empty.

End JobQueue.

(* ================================================================== *)
(** * app/utils/csvBackgroundProcessor: the job *)
(* ================================================================== *)

Module BackgroundProcessor.

Import CsvProcessor.

(** The requests of the background processor.  [SET_METAFIELDS] carries
    the entries of the group as they were grouped: the processor adds no
    owner id to them. *)
Inductive Request : Type :=
| GET_PRODUCT_BY_HANDLE (handle : string)
| SET_METAFIELDS (metafields : list Metafield)
| UPDATE_PRODUCT_PROPERTIES (input : Remote.UpdateInput).

Inductive Event : Type :=
| Call (request : Request) (tries : nat)
| Sleep (ms : nat).

Definition is_mutation (e : Event) : bool :=
  match e with
  | Call (SET_METAFIELDS _) _ => true
  | Call (UPDATE_PRODUCT_PROPERTIES _) _ => true
  | _ => false
  end.

Definition is_lookup (e : Event) : bool :=
  match e with
  | Call (GET_PRODUCT_BY_HANDLE _) _ => true
  | _ => false
  end.

Definition is_sleep (e : Event) : bool :=
  match e with
  | Sleep _ => true
  | _ => false
  end.

(** [admin.graphql] as the background processor calls it. *)
Record Admin : Type := mkAdmin {
  productByHandle :
    list Event -> string -> nat
    -> Result Remote.Thrown (option Remote.Product);
  metafieldsSet :
    list Event -> list Metafield -> nat
    -> Result Remote.Thrown (list string);
  productUpdate :
    list Event -> Remote.UpdateInput -> nat
    -> Result Remote.Thrown Remote.ProductUpdatePayload
}.

(** What the processor reads from the host besides the parser: the
    clock ([new Date()], in milliseconds, after the given events) and
    [Math.round((k / n) * 100)] in the host's floating-point
    arithmetic. *)
Record Host : Type := mkHost {
  Date_now : list Event -> Z;
  round_percent : nat -> nat -> nat
}.

(** The summary under construction, the remote calls made so far and
    the job queue.  The queue stores the [errors] and [success] arrays
    of the summary themselves; the model stores their contents at the
    time of the call, which is what the queue shows whenever the
    processor is not in the middle of a batch. *)
Record World : Type := mkWorld {
  results : Remote.Results;
  trace : list Event;
  queue : JobQueue.Queue
}.

Definition M (A : Type) : Type := World -> Result Remote.Thrown A * World.

Definition ret {A} (a : A) : M A := fun w => (Returns a, w).

Definition throw {A} (message : string) : M A :=
  fun w => (Throws (Remote.Error message), w).

Definition bindM {A B} (m : M A) (k : A -> M B) : M B :=
  fun w =>
    match m w with
    | (Returns a, w') => k a w'
    | (Throws e, w') => (Throws e, w')
    end.

Definition try_catch {A} (m : M A) (handler : Remote.Thrown -> M A) : M A :=
  fun w =>
    match m w with
    | (Returns a, w') => (Returns a, w')
    | (Throws e, w') => handler e w'
    end.

Definition log (e : Event) : M unit :=
  fun w => (Returns tt, mkWorld (results w) (trace w ++ [e]) (queue w)).

Definition sleep (ms : nat) : M unit := log (Sleep ms).

Definition modify_results (f : Remote.Results -> Remote.Results) : M unit :=
  fun w => (Returns tt, mkWorld (f (results w)) (trace w) (queue w)).

Definition push_error (handle error : string) : M unit :=
  modify_results (fun r =>
    Remote.mkResults (Remote.processed r)
                     (Remote.errors r ++ [Remote.mkError handle error])
                     (Remote.success r) (Remote.total r) (Remote.format r)).

Definition push_success (entry : Obj.t Remote.JsVal) : M unit :=
  modify_results (fun r =>
    Remote.mkResults (Remote.processed r) (Remote.errors r)
                     (Remote.success r ++ [entry])
                     (Remote.total r) (Remote.format r)).

Definition incr_processed : M unit :=
  modify_results (fun r =>
    Remote.mkResults (S (Remote.processed r)) (Remote.errors r)
                     (Remote.success r) (Remote.total r) (Remote.format r)).

Definition graphql_product (admin : Admin) (handle : string) (tries : nat)
  : M (option Remote.Product) :=
  fun w =>
    let answer := productByHandle admin (trace w) handle tries in
    (answer,
     mkWorld (results w)
             (trace w ++ [Call (GET_PRODUCT_BY_HANDLE handle) tries])
             (queue w)).

Definition graphql_metafieldsSet (admin : Admin)
           (metafields : list Metafield) (tries : nat) : M (list string) :=
  fun w =>
    let answer := metafieldsSet admin (trace w) metafields tries in
    (answer,
     mkWorld (results w)
             (trace w ++ [Call (SET_METAFIELDS metafields) tries])
             (queue w)).

Definition graphql_productUpdate (admin : Admin) (input : Remote.UpdateInput)
           (tries : nat) : M Remote.ProductUpdatePayload :=
  fun w =>
    let answer := productUpdate admin (trace w) input tries in
    (answer,
     mkWorld (results w)
             (trace w ++ [Call (UPDATE_PRODUCT_PROPERTIES input) tries])
             (queue w)).

Definition tries : nat := MAX_RETRIES RATE_LIMIT_CONFIG.

(** ** processMetafields *)

Definition processMetafields (admin : Admin) (product : Remote.Product)
           (metafieldsToSet : list Metafield) (handle : string)
           (dryRun : bool) : M unit :=
  if negb dryRun && (0 <? length metafieldsToSet)
  then
    bindM (graphql_metafieldsSet admin metafieldsToSet tries)
      (fun userErrors =>
         if 0 <? length userErrors
         then push_error handle
                ("Metafield update errors: "
                 ++ JS.join ", " userErrors)%string
         else
           push_success
             [ ("handle", Remote.VStr handle);
               ("metafieldsUpdated", Remote.VNum (length metafieldsToSet));
               ("productTitle",
                Remote.VStr (Remote.product_title product)) ])
  else ret tt.

(** ** processProductProperties *)

Definition processProductProperties (js : Platform) (admin : Admin)
           (product : Remote.Product) (productData : ProductRecord)
           (handle : string) (dryRun : bool) : M unit :=
  let updateInput := Background.buildUpdateInput js product productData in
  if negb dryRun
  then
    bindM (graphql_productUpdate admin updateInput tries)
      (fun payload =>
         if 0 <? length (Remote.pu_userErrors payload)
         then push_error handle
                ("Product update errors: "
                 ++ JS.join ", " (Remote.pu_userErrors payload))%string
         else
           push_success
             [ ("handle", Remote.VStr handle);
               ("productTitle", Remote.VStr (Remote.pu_title payload));
               ("updated", Remote.VBool true) ])
  else ret tt.

(** ** The per-key operation: one element of
    [batch.map(async (handle) => ...)] *)

Definition process_group (js : Platform) (admin : Admin)
           (product : Remote.Product) (groupedData : Grouped)
           (handle : string) (dryRun : bool) : M unit :=
  match groupedData with
  | GroupedMetafields grouped =>
      match Obj.get grouped handle with
      | Some metafieldsToSet =>
          processMetafields admin product metafieldsToSet handle dryRun
      | None =>
          if negb dryRun
          then throw "Cannot read properties of undefined (reading 'length')"
          else ret tt
      end
  | GroupedProducts grouped =>
      match Obj.get grouped handle with
      | Some productData =>
          processProductProperties js admin product productData handle dryRun
      | None =>
          throw "Cannot read properties of undefined (reading 'title')"
      end
  end.

Definition processHandle (js : Platform) (admin : Admin)
           (groupedData : Grouped) (dryRun : bool) (handle : string)
  : M unit :=
  try_catch
    (bindM (graphql_product admin handle tries)
       (fun found =>
          match found with
          | None =>
              push_error handle
                ("Product with handle '" ++ handle ++ "' not found")%string
          | Some product =>
              bindM (process_group js admin product groupedData handle dryRun)
                    (fun _ => incr_processed)
          end))
    (fun error =>
       push_error handle
         ("Processing error: " ++ Remote.message_text error)%string).

(** ** The batch loop

    As in the synchronous executor the operations of a batch are run to
    completion one after the other in batch order.  Here the handler of
    an operation cannot throw, so no operation is rejected. *)
Fixpoint runBatch (js : Platform) (admin : Admin) (groupedData : Grouped)
         (dryRun : bool) (batch : list string) : M unit :=
  match batch with
  | [] => ret tt
  | handle :: rest =>
      bindM (processHandle js admin groupedData dryRun handle)
            (fun _ => runBatch js admin groupedData dryRun rest)
  end.

(** [{ progress: progressPercent, processed: results.processed,
       errors: results.errors, success: results.success }] *)
Definition progress_of (progressPercent : nat) (r : Remote.Results)
  : JobQueue.Updates :=
  JobQueue.mkUpdates None None None None
                     (Some progressPercent) None
                     (Some (Remote.processed r)) (Some (Remote.errors r))
                     (Some (Remote.success r)) None None None
                     None None None None.

(** [{ total: handles.length, format }] *)
Definition total_of (n : nat) (format : Format) : JobQueue.Updates :=
  JobQueue.mkUpdates None None None None None (Some n) None None None
                     (Some format) None None None None None None.

(** [{ results, dryRun }] *)
Definition outcome_of (r : Remote.Results) (dryRun : bool)
  : JobQueue.Updates :=
  JobQueue.mkUpdates None None None None None None None None None None
                     (Some r) (Some dryRun) None None None None.

(** [jobQueue.updateProgress(jobId, { progress, processed, errors,
    success })] *)
Definition report_progress (jobId progressPercent : nat) : M unit :=
  fun w =>
    let r := results w in
    (Returns tt,
     mkWorld r (trace w)
       (fst (JobQueue.updateProgress (queue w) jobId
               (progress_of progressPercent r)))).

Fixpoint runBatches (js : Platform) (host : Host) (admin : Admin)
         (groupedData : Grouped) (dryRun : bool) (jobId : nat)
         (optimalBatchSize : nat) (batches : list (list string))
         (batchIndex totalBatches : nat) : M unit :=
  match batches with
  | [] => ret tt
  | batch :: rest =>
      bindM (runBatch js admin groupedData dryRun batch) (fun _ =>
      bindM (report_progress jobId
               (round_percent host (batchIndex + 1) totalBatches)) (fun _ =>
      bindM (if batchIndex <? totalBatches - 1
             then sleep (calculateDelay batchIndex totalBatches
                                        optimalBatchSize)
             else ret tt) (fun _ =>
      runBatches js host admin groupedData dryRun jobId optimalBatchSize rest
                 (S batchIndex) totalBatches)))
  end.

(** ** processCSVInBackground *)

(** [csvData.errors.join(', ')]: the errors are objects. *)
Definition parsing_errors (errors : list PapaError) : string :=
  ("CSV parsing errors: "
   ++ JS.join ", " (map (fun _ => "[object Object]") errors))%string.

(** The body of the outer [try] when nothing else touches the queue
    while the processor waits: the queue and the remote calls when it
    ends, and the error it threw, if any.  [None] stands for a body
    that never ends. *)
Definition job_body (js : Platform) (host : Host) (admin : Admin)
           (file : string) (dryRun : bool) (jobId : nat)
           (q : JobQueue.Queue)
  : option (Result Remote.Thrown unit * JobQueue.Queue * list Event) :=
  let q1 := fst (JobQueue.startJob q (Date_now host []) jobId) in
  match parseCSV js file false with
  | Throws message => Some (Throws (Remote.Error message), q1, [])
  | Returns csvData =>
      if 0 <? length (csv_errors csvData)
      then Some (Returns tt,
                 fst (JobQueue.failJob q1 (Date_now host []) jobId
                        (Remote.Error
                           (parsing_errors (csv_errors csvData)))),
                 [])
      else
        match groupDataByHandle (csv_data csvData) with
        | Throws message => Some (Throws (Remote.Error message), q1, [])
        | Returns groupedData =>
            let handles := grouped_keys groupedData in
            let format := format_of (csv_data csvData) in
            let q2 :=
              fst (JobQueue.updateProgress q1 jobId
                     (total_of (length handles) format)) in
            let results0 :=
              Remote.mkResults 0 [] [] (length handles) format in
            let optimalBatchSize := getOptimalBatchSize (length handles) in
            match createBatches handles optimalBatchSize with
            | None => None
            | Some batches =>
                match runBatches js host admin groupedData dryRun jobId
                                 optimalBatchSize batches 0 (length batches)
                                 (mkWorld results0 [] q2) with
                | (Returns _, w) =>
                    Some (Returns tt,
                          fst (JobQueue.completeJob (queue w)
                                 (Date_now host (trace w)) jobId
                                 (outcome_of (results w) dryRun)),
                          trace w)
                | (Throws error, w) =>
                    Some (Throws error, queue w, trace w)
                end
            end
        end
  end.

(** The queue after the processor has run on [q] with the queue to
    itself, and the remote calls it has made. *)
Definition processCSVInBackground (js : Platform) (host : Host)
           (admin : Admin) (file : string) (dryRun : bool) (jobId : nat)
           (q : JobQueue.Queue) : option (JobQueue.Queue * list Event) :=
  match job_body js host admin file dryRun jobId q with
  | None => None
  | Some (Returns _, q', events) => Some (q', events)
  | Some (Throws error, q', events) =>
      Some (fst (JobQueue.failJob q' (Date_now host events) jobId error),
            events)
  end.

(** ** The processor among the other users of the queue

    [jobQueue] is one object for the whole server.  While the
    processor is suspended at an [await], the timer of the queue module
    sweeps old jobs, requests create jobs, and other runs of the
    processor report on theirs.  [Others] gives the calls the others
    make on the queue during each wait of a run: while the file is
    parsed, while the batch with a given index is awaited, and during
    the pause after it.  The operations of a batch do not touch the
    queue, so the calls made while a batch is awaited are applied when
    the batch has settled. *)
Record Others : Type := mkOthers {
  during_parse : list JobQueue.Op;
  during_batch : nat -> list JobQueue.Op;
  during_pause : nat -> list JobQueue.Op
}.

Definition alone : Others := mkOthers [] (fun _ => []) (fun _ => []).

Definition meanwhile (calls : list JobQueue.Op) : M unit :=
  fun w =>
    (Returns tt,
     mkWorld (results w) (trace w) (fold_left JobQueue.run calls (queue w))).

Fixpoint runBatches_among (others : Others) (js : Platform) (host : Host)
         (admin : Admin) (groupedData : Grouped) (dryRun : bool)
         (jobId : nat) (optimalBatchSize : nat)
         (batches : list (list string)) (batchIndex totalBatches : nat)
  : M unit :=
  match batches with
  | [] => ret tt
  | batch :: rest =>
      bindM (runBatch js admin groupedData dryRun batch) (fun _ =>
      bindM (meanwhile (during_batch others batchIndex)) (fun _ =>
      bindM (report_progress jobId
               (round_percent host (batchIndex + 1) totalBatches)) (fun _ =>
      bindM (if batchIndex <? totalBatches - 1
             then
               bindM (sleep (calculateDelay batchIndex totalBatches
                                            optimalBatchSize)) (fun _ =>
               meanwhile (during_pause others batchIndex))
             else ret tt) (fun _ =>
      runBatches_among others js host admin groupedData dryRun jobId
                       optimalBatchSize rest (S batchIndex) totalBatches))))
  end.

Definition job_body_among (others : Others) (js : Platform) (host : Host)
           (admin : Admin) (file : string) (dryRun : bool) (jobId : nat)
           (q : JobQueue.Queue)
  : option (Result Remote.Thrown unit * JobQueue.Queue * list Event) :=
  let q1 :=
    fold_left JobQueue.run (during_parse others)
              (fst (JobQueue.startJob q (Date_now host []) jobId)) in
  match parseCSV js file false with
  | Throws message => Some (Throws (Remote.Error message), q1, [])
  | Returns csvData =>
      if 0 <? length (csv_errors csvData)
      then Some (Returns tt,
                 fst (JobQueue.failJob q1 (Date_now host []) jobId
                        (Remote.Error
                           (parsing_errors (csv_errors csvData)))),
                 [])
      else
        match groupDataByHandle (csv_data csvData) with
        | Throws message => Some (Throws (Remote.Error message), q1, [])
        | Returns groupedData =>
            let handles := grouped_keys groupedData in
            let format := format_of (csv_data csvData) in
            let q2 :=
              fst (JobQueue.updateProgress q1 jobId
                     (total_of (length handles) format)) in
            let results0 :=
              Remote.mkResults 0 [] [] (length handles) format in
            let optimalBatchSize := getOptimalBatchSize (length handles) in
            match createBatches handles optimalBatchSize with
            | None => None
            | Some batches =>
                match runBatches_among others js host admin groupedData
                                       dryRun jobId optimalBatchSize batches
                                       0 (length batches)
                                       (mkWorld results0 [] q2) with
                | (Returns _, w) =>
                    Some (Returns tt,
                          fst (JobQueue.completeJob (queue w)
                                 (Date_now host (trace w)) jobId
                                 (outcome_of (results w) dryRun)),
                          trace w)
                | (Throws error, w) =>
                    Some (Throws error, queue w, trace w)
                end
            end
        end
  end.

(** The queue after the processor has run on [q] among the others, and
    the remote calls it has made. *)
Definition processCSVInBackground_among (others : Others) (js : Platform)
           (host : Host) (admin : Admin) (file : string) (dryRun : bool)
           (jobId : nat) (q : JobQueue.Queue)
  : option (JobQueue.Queue * list Event) :=
  match job_body_among others js host admin file dryRun jobId q with
  | None => None
  | Some (Returns _, q', events) => Some (q', events)
  | Some (Throws error, q', events) =>
      Some (fst (JobQueue.failJob q' (Date_now host events) jobId error),
            events)
  end.

End BackgroundProcessor.

(* ================================================================== *)
(** * Notions used to state further properties *)
(* ================================================================== *)

Module Props.

Import CsvProcessor Remote.

(** The distinct elements in the order of their first occurrence. *)
Fixpoint first_seen (xs : list string) : list string :=
  match xs with
  | [] => []
  | x :: xs' =>
      x :: filter (fun y => negb (String.eqb y x)) (first_seen xs')
  end.

Definition field_of (record : MetafieldRecord) : Metafield :=
  mkMetafield (m_namespace record) (m_key record) (m_value record)
              (m_type record).

(** The field updates of the records with the given handle, in input
    order. *)
Definition fields_of (handle : string) (records : list MetafieldRecord)
  : list Metafield :=
  map field_of
      (filter (fun record => String.eqb (m_handle record) handle) records).

(** The last record with the given handle. *)
Definition last_with (handle : string) (records : list ProductRecord)
  : option ProductRecord :=
  last (map Some (filter (fun record => String.eqb (p_handle record) handle)
                         records))
       None.

(** [grouped] holds one group per distinct handle, in the order the
    handles are first seen, each with its field updates in input
    order. *)
Definition grouped_as (records : list MetafieldRecord)
           (grouped : Obj.t (list Metafield)) : Prop :=
  map fst grouped = first_seen (map m_handle records)
  /\ forall handle,
       Obj.get grouped handle
       = if JS.mem handle (map m_handle records)
         then Some (fields_of handle records)
         else None.

(** Entries of the result summary: one per settled key. *)
Definition outcomes (r : Results) : nat :=
  length (errors r) + length (success r).

(** The sum of the sizes of the batches. *)
Definition keys_in (batches : list (list string)) : nat :=
  length (concat batches).

(** How the operation of a key ends: with an error entry under the
    key, with a success entry under it, or rejected, with no entry. *)
Inductive Fate : Type := Failed | Succeeded | Rejected.

Definition fared (fate : Fate) (key : string * Fate) : bool :=
  match fate, snd key with
  | Failed, Failed | Succeeded, Succeeded | Rejected, Rejected => true
  | _, _ => false
  end.

(** The keys with the given fate, in their order. *)
Definition keys_that (fate : Fate) (keys : list (string * Fate))
  : list string :=
  map fst (filter (fared fate) keys).

(** The handles of the error entries a batch leaves: the keys that
    failed, in batch order, then the entry of the batch-level handler
    when an operation of the batch was rejected. *)
Definition batch_error_handles (batch : list (string * Fate))
  : list string :=
  keys_that Failed batch
  ++ (if existsb (fared Rejected) batch then ["batch_error"] else []).

(** [entry.handle] of a success entry *)
Definition success_handle (entry : Obj.t JsVal) : string :=
  match Obj.get entry "handle" with
  | Some (VStr handle) => handle
  | _ => EmptyString
  end.

(** A remote store none of whose rejections lacks a [message]. *)
Definition rejects_with_message (admin : Admin) : Prop :=
  (forall history handle tries,
      productByHandle admin history handle tries <> Throws NoMessage)
  /\ (forall history metafields tries,
         metafieldsSet admin history metafields tries <> Throws NoMessage)
  /\ (forall history input tries,
         productUpdate admin history input tries <> Throws NoMessage).

(** What a run of an executor step does to the world: it adds error
    entries under the handles [failed] and success entries under the
    handles [succeeded], counts [c] keys as processed, leaves the
    declared total and format alone, and only appends events to the
    trace, none of them a mutation when [quiet] is set. *)
Definition advances (quiet : bool) (failed succeeded : list string)
           (c : nat) (w w' : World) : Prop :=
  map e_handle (errors (results w'))
  = map e_handle (errors (results w)) ++ failed
  /\ map success_handle (success (results w'))
     = map success_handle (success (results w)) ++ succeeded
  /\ processed (results w') = processed (results w) + c
  /\ total (results w') = total (results w)
  /\ format (results w') = format (results w)
  /\ exists added,
       trace w' = trace w ++ added
       /\ (quiet = true -> existsb is_mutation added = false).

(** A step on behalf of [handle] that adds one entry under it when it
    returns and none when it throws, and counts nothing as processed;
    what it throws has a message when every rejection of the store has
    one. *)
Definition settles {A} (quiet : bool) (admin : Admin) (handle : string)
           (m : M A) : Prop :=
  forall w,
    match m w with
    | (Returns _, w') =>
        advances quiet [handle] [] 0 w w'
        \/ advances quiet [] [handle] 0 w w'
    | (Throws error, w') =>
        advances quiet [] [] 0 w w'
        /\ (rejects_with_message admin -> error <> NoMessage)
    end.

(** An optional minus, digits, and then either more digits or a dot
    followed by at least one digit. *)
Definition decimal_string (s : string) : Prop :=
  exists sign whole frac,
    (sign = EmptyString \/ sign = "-")
    /\ Spec.each_char Spec.decimal_digit whole
    /\ Spec.digit_string frac
    /\ (s = (sign ++ whole ++ frac)%string
        \/ s = (sign ++ whole ++ "." ++ frac)%string).

(** The progress report after a batch, and the report of the total. *)
Definition progress_update (progressPercent : nat) (r : Results)
  : JobQueue.Updates :=
  BackgroundProcessor.progress_of progressPercent r.

Definition total_update (n : nat) (f : Format) : JobQueue.Updates :=
  BackgroundProcessor.total_of n f.

(** A computation of the background processor that leaves the queue
    alone whatever the queue is, appends to the trace, settles at most
    [np] keys as processed and records at most [no] entries; in a dry
    run it makes no mutation and records no success; when it throws it
    has recorded nothing, and it does not throw when [safe] is set. *)
Definition bg_step (np no : nat) (dryRun safe : bool)
           (m : BackgroundProcessor.M unit) : Prop :=
  forall r t, exists o r' added,
    (forall q,
        m (BackgroundProcessor.mkWorld r t q)
        = (o, BackgroundProcessor.mkWorld r' (t ++ added) q))
    /\ total r' = total r /\ format r' = format r
    /\ processed r' <= processed r + np
    /\ outcomes r' <= outcomes r + no
    /\ (dryRun = true ->
        existsb BackgroundProcessor.is_mutation added = false
        /\ success r' = success r)
    /\ match o with
       | Returns _ => True
       | Throws _ => safe = false /\ r' = r
       end.

(** How the processor leaves a job it has failed, and one it has
    completed. *)
Definition failed_with (message : string) (before after : JobQueue.Job)
           (events : list BackgroundProcessor.Event) : Prop :=
  JobQueue.job_status after = "failed"
  /\ JobQueue.job_error after
     = Some (if CsvProcessor.nonempty message
             then JobQueue.ErrorMessage message else JobQueue.ErrorValue)
  /\ JobQueue.job_results after = JobQueue.job_results before
  /\ events = [].

Definition completed_with (host : BackgroundProcessor.Host)
           (f : Format) (keys : list string) (dryRun : bool)
           (before after : JobQueue.Job)
           (events : list BackgroundProcessor.Event) : Prop :=
  JobQueue.job_status after = "completed"
  /\ JobQueue.job_error after = JobQueue.job_error before
  /\ JobQueue.job_dryRun after = Some dryRun
  /\ JobQueue.job_format after = Some f
  /\ JobQueue.job_total after = length keys
  /\ exists r,
       JobQueue.job_results after = Some r
       /\ total r = length keys /\ format r = f
       /\ processed r <= total r
       /\ outcomes r <= total r
       /\ (dryRun = true ->
           existsb BackgroundProcessor.is_mutation events = false
           /\ success r = [])
       /\ (keys <> [] ->
           JobQueue.job_processed after = processed r
           /\ JobQueue.job_errors after = errors r
           /\ JobQueue.job_success after = success r
           /\ ((forall n, 0 < n ->
                           BackgroundProcessor.round_percent host n n = 100) ->
               JobQueue.job_progress after = 100)).

(** A host whose clock counts the remote calls and whose arithmetic is
    exact, and a store that knows the catalog of the examples and
    accepts every update. *)
Definition counting_host : BackgroundProcessor.Host :=
  {| BackgroundProcessor.Date_now := fun events => Z.of_nat (length events);
     BackgroundProcessor.round_percent :=
       fun k n => (200 * k + n) / (2 * n) |}.

Definition accepting_store : BackgroundProcessor.Admin :=
  {| BackgroundProcessor.productByHandle :=
       fun _ handle _ => Returns (Obj.get Examples.catalog handle);
     BackgroundProcessor.metafieldsSet := fun _ _ _ => Returns [];
     BackgroundProcessor.productUpdate :=
       fun _ _ _ => Returns (mkProductUpdate [] "updated") |}.

(** A call by another user of the queue, seen from the job [jobId]: it
    creates a job, sweeps, or addresses another job. *)
Definition foreign (jobId : nat) (op : JobQueue.Op) : Prop :=
  match op with
  | JobQueue.OpCreate _ _ _ => True
  | JobQueue.OpCleanup _ => True
  | JobQueue.OpUpdate id _ => id <> jobId
  | JobQueue.OpStart _ id => id <> jobId
  | JobQueue.OpComplete _ id _ => id <> jobId
  | JobQueue.OpFail _ id _ => id <> jobId
  end.

Definition others_leave (jobId : nat) (others : BackgroundProcessor.Others)
  : Prop :=
  Forall (foreign jobId) (BackgroundProcessor.during_parse others)
  /\ (forall i, Forall (foreign jobId)
                       (BackgroundProcessor.during_batch others i))
  /\ (forall i, Forall (foreign jobId)
                       (BackgroundProcessor.during_pause others i)).

(** The calls of the others while the processor runs [count] batches
    from [batchIndex] on, and during a whole run of [totalBatches]
    batches, in their order. *)
Definition calls_in_loop (others : BackgroundProcessor.Others)
           (batchIndex count totalBatches : nat) : list JobQueue.Op :=
  concat
    (map (fun i =>
            BackgroundProcessor.during_batch others i
            ++ (if i <? totalBatches - 1
                then BackgroundProcessor.during_pause others i
                else []))
         (seq batchIndex count)).

Definition calls_during (others : BackgroundProcessor.Others)
           (totalBatches : nat) : list JobQueue.Op :=
  BackgroundProcessor.during_parse others
  ++ calls_in_loop others 0 totalBatches totalBatches.

(** A sweep that removes a job created at [created]. *)
Definition sweeps_away (created : Z) (op : JobQueue.Op) : bool :=
  match op with
  | JobQueue.OpCleanup now => (created <? now - JobQueue.oneHour)%Z
  | _ => false
  end.

(** The number of batches the processor runs on a file: none when
    parsing or grouping throws. *)
Definition batches_run (js : Platform) (file : string) : nat :=
  match parseCSV js file false with
  | Returns csvData =>
      match groupDataByHandle (csv_data csvData) with
      | Returns groupedData =>
          let handles := grouped_keys groupedData in
          match createBatches handles
                              (getOptimalBatchSize (length handles)) with
          | Some batches => length batches
          | None => 0
          end
      | Throws _ => 0
      end
  | Throws _ => 0
  end.

(** A timer that sweeps once, at time [now], while the first batch is
    awaited. *)
Definition sweep_in_first_batch (now : Z) : BackgroundProcessor.Others :=
  BackgroundProcessor.mkOthers
    [] (fun i => if i =? 0 then [JobQueue.OpCleanup now] else [])
    (fun _ => []).

(** A queue holding one pending job, with id 1. *)
Definition one_job : JobQueue.Queue :=
  fst (JobQueue.createJob JobQueue.empty 0%Z "csv-processing"
         (JobQueue.mkJobData Examples.scenario_A false metafields 1)).

(** The input the synchronous executor sends for an entry of a
    group: owned by the product, with the formatted value. *)
Definition sent_as (js : Platform) (product : Product) (m : Metafield)
           (input : MetafieldInput) : Prop :=
  mi_ownerId input = product_id product
  /\ mi_namespace input = mf_namespace m
  /\ mi_key input = mf_key m
  /\ mi_type input = mf_type m
  /\ formatMetafieldValue js (mf_value m) (mf_type m)
     = Returns (mi_value input).

(** The double quotes in a group of lines. *)
Definition quotes (group : list string) : nat :=
  list_sum (map (JS.count_char dquote) group).

(** A group of lines whose quotes stay unbalanced up to and including
    its last line, and one whose quotes balance at its last line and
    not before. *)
Definition open_group (group : list string) : Prop :=
  group <> []
  /\ forall j, 0 < j <= length group ->
               Nat.odd (quotes (firstn j group)) = true.

Definition closed_group (group : list string) : Prop :=
  group <> []
  /\ Nat.even (quotes group) = true
  /\ forall j, 0 < j < length group ->
               Nat.odd (quotes (firstn j group)) = true.

(** The characters of [s] that satisfy [p], in order. *)
Fixpoint keep (p : ascii -> bool) (s : string) : string :=
  match s with
  | EmptyString => EmptyString
  | String c s' => if p c then String c (keep p s') else keep p s'
  end.

Definition is_data_char (c : ascii) : bool :=
  negb (JS.is_space c) && negb (Ascii.eqb c dquote).

(** The text without its white space and its double quotes. *)
Definition data_chars (s : string) : string := keep is_data_char s.

(** The handles that grouping turns into keys, in row order. *)
Definition handles_of (data : Validated) : list string :=
  match data with
  | ValidMetafields rows => map m_handle rows
  | ValidProducts rows =>
      filter (fun h => negb (String.eqb h "__proto__")) (map p_handle rows)
  end.

(** The keys that are canonical array indices, with their values. *)
Definition index_values (ks : list string) : list N :=
  map fst (Obj.index_keys ks).


Definition is_lookup (e : Event) : bool :=
  match e with
  | Call (GET_PRODUCT_BY_HANDLE _) _ => true
  | _ => false
  end.



(** What [preprocessCSVForComponents] makes of a line: the line itself,
    or the line with a run of consecutive fields, the component and the
    fields merged into it, replaced by one field holding their trimmed
    texts, joined by commas, between double quotes. *)
Definition kept_or_merged (line line' : string) : Prop :=
  line' = line
  \/ exists before field merged after,
       split_fields line EmptyString false
       = before ++ field :: merged ++ after
       /\ line'
          = JS.join ","
              (before
               ++ (chr dquote
                   ++ JS.join "," (map JS.trim (field :: merged))
                   ++ chr dquote)%string
               :: after).





(** Every byte is an ASCII character. *)
Definition ascii_only (s : string) : Prop :=
  Spec.each_char (fun c => JS.code c < 128) s.

(** A hexadecimal digit, in either case. *)
Definition hex_digit_char (c : ascii) : Prop :=
  In c (list_ascii_of_string "0123456789abcdefABCDEF").

(** The invariant of the job table: the keys are positive, not above
    the counter, and none occurs twice. *)
Definition queue_ok (q : JobQueue.Queue) : Prop :=
  Forall (fun entry => 1 <= fst entry <= JobQueue.currentJobId q)
         (JobQueue.jobs q)
  /\ NoDup (map fst (JobQueue.jobs q)).

(** Two queues with the same id counter and the same ids in the same
    order, whose jobs were created at the same times and are the same
    except for the job [jobId]. *)
Definition same_but (jobId : nat) (p e : JobQueue.Queue) : Prop :=
  JobQueue.currentJobId p = JobQueue.currentJobId e
  /\ Forall2 (fun x y =>
                fst x = fst y
                /\ JobQueue.createdAt (snd x) = JobQueue.createdAt (snd y)
                /\ (fst x <> jobId -> snd x = snd y))
             (JobQueue.jobs p) (JobQueue.jobs e).

(** [p], the queue among the others, tracks [a], the queue of the
    processor alone, and [e], the queue of the others alone: the job is
    gone from [p] if it was swept, and is otherwise what it is in [a];
    every other job is what it is in [e]. *)
Definition tracks (jobId : nat) (created : Z) (swept : bool)
           (a p e : JobQueue.Queue) : Prop :=
  queue_ok p
  /\ jobId <= JobQueue.currentJobId p
  /\ (exists job,
         JobQueue.getJob a jobId = Some job
         /\ JobQueue.createdAt job = created)
  /\ JobQueue.getJob p jobId
     = (if swept then None else JobQueue.getJob a jobId)
  /\ same_but jobId p e.

(** The entry [processMetafields] writes for a value that fails the
    validation of its declared type, and the fields of a group that
    fail it, in group order. *)
Definition invalid_value_message (metafield : Metafield) : string :=
  ("Invalid value '" ++ mf_value metafield ++ "' for type '"
   ++ mf_type metafield ++ "'")%string.

Definition invalid_values (js : Platform) (metafieldsToSet : list Metafield)
  : list Metafield :=
  filter (fun metafield =>
            negb (validateMetafieldValue js (mf_value metafield)
                                         (mf_type metafield)))
         metafieldsToSet.

(** A store whose product update always fails; lookups and metafield
    updates succeed. *)
Definition tag_update_fails : Admin :=
  {| productByHandle :=
       fun _ handle _ => Returns (Obj.get Examples.catalog handle);
     metafieldsSet := fun _ _ _ => Returns [];
     productUpdate := fun _ _ _ => Throws (Error "tag update failed") |}.

End Props.

(* ================================================================== *)
(** * Facts about strings and the regular-expression matcher *)
(* ================================================================== *)

Section StringFacts.

Lemma append_empty_r (s : string) : (s ++ EmptyString)%string = s.
Proof.
  induction s as [|c s IH]; simpl; [reflexivity | now rewrite IH].
Qed.

Lemma append_assoc (a b c : string) :
  ((a ++ b) ++ c)%string = (a ++ (b ++ c))%string.
Proof.
  induction a as [|x a IH]; simpl; [reflexivity | now rewrite IH].
Qed.

Lemma append_eq_empty (a b : string) :
  (a ++ b)%string = EmptyString -> a = EmptyString /\ b = EmptyString.
Proof.
  destruct a; simpl; intros H; [now split | discriminate].
Qed.

Lemma append_eq_cons (a b : string) (c : ascii) (s : string) :
  (a ++ b)%string = String c s ->
  (a = EmptyString /\ b = String c s)
  \/ exists a', a = String c a' /\ s = (a' ++ b)%string.
Proof.
  destruct a as [|x a]; simpl; intros H.
  - now left.
  - right. injection H as -> <-. now exists a.
Qed.

End StringFacts.

Module RegexFacts.

Import Regex.

Lemma matches_empty_nullable (r : regex) (s : string) :
  Matches r s -> s = EmptyString -> nullable r = true.
Proof.
  induction 1 as [ | p c Hp | r1 r2 s1 s2 H1 IH1 H2 IH2
                   | r1 r2 s H IH | r1 r2 s H IH | r | r s1 s2 H1 IH1 H2 IH2 ];
    intros E; simpl; try reflexivity; try discriminate.
  - apply append_eq_empty in E as [E1 E2].
    now rewrite IH1, IH2.
  - now rewrite IH.
  - rewrite IH by assumption. apply orb_true_r.
Qed.

Lemma nullable_matches_empty (r : regex) :
  nullable r = true -> Matches r EmptyString.
Proof.
  induction r as [ | | p | r1 IH1 r2 IH2 | r1 IH1 r2 IH2 | r IH ];
    simpl; intros H; try discriminate.
  - constructor.
  - apply andb_true_iff in H as [Ha Hb].
    change EmptyString with (EmptyString ++ EmptyString)%string.
    constructor; auto.
  - apply orb_true_iff in H as [Ha | Hb].
    + apply MAltL; auto.
    + apply MAltR; auto.
  - constructor.
Qed.

Lemma deriv_sound (c : ascii) (r : regex) :
  forall s, Matches (deriv c r) s -> Matches r (String c s).
Proof.
  induction r as [ | | p | r1 IH1 r2 IH2 | r1 IH1 r2 IH2 | r IH ];
    simpl; intros s H.
  - inversion H.
  - inversion H.
  - destruct (p c) eqn:Hp; inversion H; subst. now constructor.
  - destruct (nullable r1) eqn:Hn.
    + inversion H as [ | | | ra rb sx Hl | ra rb sx Hr | | ]; subst.
      * inversion Hl as [ | | ra rb s1 s2 Ha Hb | | | | ]; subst.
        change (String c (s1 ++ s2)) with (String c s1 ++ s2)%string.
        constructor; auto.
      * change (String c s) with (EmptyString ++ String c s)%string.
        constructor; auto using nullable_matches_empty.
    + inversion H as [ | | ra rb s1 s2 Ha Hb | | | | ]; subst.
      change (String c (s1 ++ s2)) with (String c s1 ++ s2)%string.
      constructor; auto.
  - inversion H; subst; [apply MAltL | apply MAltR]; auto.
  - inversion H as [ | | ra rb s1 s2 Ha Hb | | | | ]; subst.
    change (String c (s1 ++ s2)) with (String c s1 ++ s2)%string.
    apply MStarS; auto.
Qed.

Lemma deriv_complete (c : ascii) (r : regex) (w : string) :
  Matches r w -> forall s, w = String c s -> Matches (deriv c r) s.
Proof.
  induction 1 as [ | p x Hp | r1 r2 s1 s2 H1 IH1 H2 IH2
                   | r1 r2 s0 H IH | r1 r2 s0 H IH | r
                   | r s1 s2 H1 IH1 H2 IH2 ];
    intros s E; simpl.
  - discriminate.
  - injection E as -> <-. rewrite Hp. constructor.
  - apply append_eq_cons in E as [[E1 E2] | [a' [E1 E2]]]; subst.
    + rewrite (matches_empty_nullable H1 eq_refl).
      apply MAltR. now apply IH2.
    + assert (Hc : Matches (Cat (deriv c r1) r2) (a' ++ s2)).
      { constructor; auto. }
      destruct (nullable r1); [now apply MAltL | exact Hc].
  - apply MAltL. now apply IH.
  - apply MAltR. now apply IH.
  - discriminate.
  - apply append_eq_cons in E as [[E1 E2] | [a' [E1 E2]]]; subst.
    + now apply IH2.
    + constructor; auto.
Qed.

Theorem test_spec (s : string) :
  forall r, test r s = true <-> Matches r s.
Proof.
  induction s as [|c s IH]; intros r; simpl.
  - split.
    + apply nullable_matches_empty.
    + intros H. now apply (matches_empty_nullable H).
  - rewrite IH. split.
    + apply deriv_sound.
    + intros H. now apply (deriv_complete H).
Qed.

(** [p*] matches exactly the strings made of [p] characters. *)
Lemma star_class_each (p : ascii -> bool) (r : regex) (s : string) :
  Matches r s -> r = Star (Class p) ->
  Spec.each_char (fun c => p c = true) s.
Proof.
  induction 1 as [ | | | | | r0 | r0 s1 s2 H1 IH1 H2 IH2 ];
    intros E; try discriminate.
  - exact I.
  - injection E as ->.
    inversion H1; subst. simpl. split; auto.
Qed.

Lemma each_star_class (p : ascii -> bool) (s : string) :
  Spec.each_char (fun c => p c = true) s -> Matches (Star (Class p)) s.
Proof.
  induction s as [|c s IH]; simpl.
  - constructor.
  - intros [Hc Hs].
    change (String c s) with (String c EmptyString ++ s)%string.
    apply MStarS; [now constructor | auto].
Qed.

Lemma plus_class_spec (p : ascii -> bool) (s : string) :
  Matches (Plus (Class p)) s <->
  s <> EmptyString /\ Spec.each_char (fun c => p c = true) s.
Proof.
  unfold Plus. split.
  - intros H. inversion H as [ | | r1 r2 s1 s2 Ha Hb | | | | ]; subst.
    inversion Ha; subst. simpl. split; [discriminate |].
    split; [assumption |].
    now apply (star_class_each Hb).
  - intros [Hne Hall]. destruct s as [|c s]; [congruence |].
    destruct Hall as [Hc Hs].
    change (String c s) with (String c EmptyString ++ s)%string.
    constructor; [now constructor | now apply each_star_class].
Qed.

Lemma opt_chr_spec (a : ascii) (s : string) :
  Matches (Opt (Chr a)) s <-> s = EmptyString \/ s = String a EmptyString.
Proof.
  unfold Opt, Chr. split.
  - intros H. inversion H as [ | | | r1 r2 s0 Hl | r1 r2 s0 Hr | | ]; subst.
    + inversion Hl as [ | p c Hp | | | | | ]; subst. right.
      unfold JS.is_char in Hp. apply Ascii.eqb_eq in Hp. now subst.
    + inversion Hr. now left.
  - intros [-> | ->].
    + apply MAltR. constructor.
    + apply MAltL. constructor. apply Ascii.eqb_refl.
Qed.

End RegexFacts.

(* ================================================================== *)
(** * Value validation *)
(* ================================================================== *)

Module ValueValidation.

Import Regex RegexFacts CsvProcessor.

Lemma is_digit_spec (c : ascii) :
  JS.is_digit c = true <-> Spec.decimal_digit c.
Proof.
  split.
  - destruct c as [[] [] [] [] [] [] [] []]; vm_compute; intros H;
      try discriminate H;
      repeat first [left; reflexivity | right].
  - unfold Spec.decimal_digit. simpl. intros H.
    repeat (destruct H as [<- | H]; [reflexivity |]). contradiction.
Qed.

Lemma each_char_iff (P Q : ascii -> Prop) (s : string) :
  (forall c, P c <-> Q c) -> Spec.each_char P s <-> Spec.each_char Q s.
Proof.
  intros HPQ. induction s as [|c s IH]; simpl; [tauto |].
  rewrite HPQ, IH. tauto.
Qed.

Lemma re_digits_spec (s : string) :
  test re_digits s = true <-> Spec.digit_string s.
Proof.
  unfold re_digits, digit, Spec.digit_string.
  rewrite test_spec, plus_class_spec.
  rewrite (each_char_iff (fun c => JS.is_digit c = true) Spec.decimal_digit s
             is_digit_spec).
  tauto.
Qed.

Lemma re_integer_spec (s : string) :
  test re_integer s = true <-> Spec.signed_digit_string s.
Proof.
  unfold Spec.signed_digit_string. rewrite test_spec. split.
  - intros H. unfold re_integer in H.
    inversion H as [ | | r1 r2 s1 s2 Hsign Hdigits | | | | ]; subst.
    apply opt_chr_spec in Hsign.
    apply test_spec in Hdigits. fold digit in Hdigits.
    change (Plus digit) with re_digits in Hdigits.
    apply re_digits_spec in Hdigits.
    exists s2. split; [assumption |].
    destruct Hsign as [-> | ->]; simpl; auto.
  - intros [ds [Hds Hs]].
    apply re_digits_spec, test_spec in Hds.
    unfold re_integer.
    destruct Hs as [-> | ->].
    + change ds with (EmptyString ++ ds)%string.
      constructor; [apply opt_chr_spec; now left | exact Hds].
    + change (String "-" ds) with (String "-" EmptyString ++ ds)%string.
      constructor; [apply opt_chr_spec; now right | exact Hds].
Qed.

(** C7.  Under the declared type [number_integer] a value is accepted
    exactly when it is an optional leading minus followed by one or more
    decimal digits; the value 12.3 is rejected as an integer and
    accepted as a decimal. *)
Theorem integer_validation_accepts_signed_digits :
  forall (js : Platform) (value : string),
    (validateMetafieldValue js value "number_integer" = true
     <-> Spec.signed_digit_string value)
    /\ validateMetafieldValue js "12.3" "number_integer" = false
    /\ validateMetafieldValue js "12.3" "number_decimal" = true.
Proof.
  intros js value. split; [| split].
  - unfold validateMetafieldValue. simpl. apply re_integer_spec.
  - reflexivity.
  - reflexivity.
Qed.

End ValueValidation.

(* ================================================================== *)
(** * Batch scheduling *)
(* ================================================================== *)

Module Batching.

Import CsvProcessor.

Section Loop.

Variable A : Type.
Variable items : list A.
Variable batchSize : nat.
Hypothesis batchSize_pos : 0 < batchSize.

Lemma slice_length (i : nat) :
  length (JS.slice i (i + batchSize) items)
  = Nat.min batchSize (length items - i).
Proof.
  unfold JS.slice.
  replace (i + batchSize - i) with batchSize by lia.
  now rewrite length_firstn, length_skipn.
Qed.

Lemma slice_then_rest (i : nat) :
  JS.slice i (i + batchSize) items ++ skipn (i + batchSize) items
  = skipn i items.
Proof.
  unfold JS.slice.
  replace (i + batchSize - i) with batchSize by lia.
  rewrite Nat.add_comm, <- skipn_skipn.
  apply firstn_skipn.
Qed.

Lemma loop_spec (fuel : nat) :
  forall (i : nat) (batches : list (list A)),
    length items - i <= fuel ->
    exists rest,
      createBatches_loop fuel items batchSize i batches
      = Some (batches ++ rest)
      /\ concat rest = skipn i items
      /\ Spec.well_formed batchSize rest.
Proof.
  induction fuel as [|fuel IH]; intros i batches Hfuel.
  - exists []. simpl.
    destruct (i <? length items) eqn:Hi.
    + apply Nat.ltb_lt in Hi. lia.
    + apply Nat.ltb_ge in Hi.
      rewrite app_nil_r, skipn_all2 by lia.
      repeat split; constructor.
  - simpl. destruct (i <? length items) eqn:Hi.
    + apply Nat.ltb_lt in Hi.
      destruct (IH (i + batchSize)
                   (batches ++ [JS.slice i (i + batchSize) items]))
        as [rest [Hrun [Hcat [Hall Hfull]]]]; [lia |].
      exists (JS.slice i (i + batchSize) items :: rest).
      split; [| split; [| split]].
      * rewrite Hrun, <- app_assoc. reflexivity.
      * simpl. rewrite Hcat. apply slice_then_rest.
      * constructor; [| exact Hall].
        split.
        -- intros E. apply (f_equal (@length A)) in E.
           rewrite slice_length in E. simpl in E. lia.
        -- rewrite slice_length. lia.
      * simpl. destruct rest as [|batch rest']; [exact I |].
        split; [| exact Hfull].
        rewrite slice_length.
        assert (Hmore : i + batchSize < length items).
        { destruct (Nat.lt_ge_cases (i + batchSize) (length items))
            as [Hlt | Hge]; [exact Hlt |].
          rewrite skipn_all2 in Hcat by lia.
          inversion Hall as [| b bs [Hne _] _]; subst.
          simpl in Hcat. destruct batch; [congruence | discriminate]. }
        lia.
    + apply Nat.ltb_ge in Hi.
      exists []. rewrite app_nil_r, skipn_all2 by lia.
      repeat split; constructor.
Qed.

End Loop.

Lemma concat_nonempty_nil {A} (batches : list (list A)) :
  Forall (fun batch => batch <> []) batches ->
  concat batches = [] -> batches = [].
Proof.
  intros Hall Hcat. destruct batches as [|b bs]; [reflexivity |].
  inversion Hall as [| x xs Hne _]; subst.
  simpl in Hcat. apply app_eq_nil in Hcat as [Hb _]. contradiction.
Qed.

(** C8.  For every list of keys and every positive batch size,
    [createBatches] returns, and its batches are consecutive slices of
    the input in input order: their concatenation is the input, every
    batch is non-empty, every batch but possibly the last has exactly
    the chosen size (the last has at most that size), and there is no
    batch exactly when the input is empty. *)
Theorem createBatches_partitions_in_order :
  forall (A : Type) (items : list A) (batchSize : nat),
    0 < batchSize ->
    exists batches,
      createBatches items batchSize = Some batches
      /\ concat batches = items
      /\ Forall (fun batch => batch <> []) batches
      /\ Spec.all_but_last (fun batch => length batch = batchSize) batches
      /\ Forall (fun batch => length batch <= batchSize) batches
      /\ (batches = [] <-> items = []).
Proof.
  intros A items batchSize Hpos.
  destruct (@loop_spec A items batchSize Hpos (length items) 0 [])
    as [rest [Hrun [Hcat [Hall Hfull]]]]; [lia |].
  simpl in Hrun, Hcat.
  exists rest. unfold createBatches.
  assert (Hne : Forall (fun batch : list A => batch <> []) rest).
  { eapply Forall_impl; [| exact Hall]. now intros b [Hb _]. }
  repeat split.
  - exact Hrun.
  - exact Hcat.
  - exact Hne.
  - exact Hfull.
  - eapply Forall_impl; [| exact Hall]. now intros b [_ Hb].
  - intros ->. now rewrite <- Hcat.
  - intros ->. now apply concat_nonempty_nil.
Qed.

Lemma createBatches_partitions_in_order_witness :
  0 < 3
  /\ exists batches,
      createBatches ["a"; "b"; "c"; "d"; "e"; "f"; "g"] 3 = Some batches
      /\ concat batches = ["a"; "b"; "c"; "d"; "e"; "f"; "g"]
      /\ Forall (fun batch => batch <> []) batches
      /\ Spec.all_but_last (fun batch => length batch = 3) batches
      /\ Forall (fun batch => length batch <= 3) batches
      /\ (batches = [] <-> ["a"; "b"; "c"; "d"; "e"; "f"; "g"] = []).
Proof.
  split; [lia |].
  apply (@createBatches_partitions_in_order
           string ["a"; "b"; "c"; "d"; "e"; "f"; "g"] 3).
  lia.
Defined.

Lemma optimalBatchSize_steps (config : RateLimitConfig) (totalItems : nat) :
  SMALL_DATASET config <= MEDIUM_DATASET config ->
  MEDIUM_DATASET config <= LARGE_DATASET config ->
  (totalItems < SMALL_DATASET config ->
   optimalBatchSize config totalItems = 3)
  /\ (SMALL_DATASET config <= totalItems < MEDIUM_DATASET config ->
      optimalBatchSize config totalItems = 2)
  /\ (MEDIUM_DATASET config <= totalItems < LARGE_DATASET config ->
      optimalBatchSize config totalItems = 2)
  /\ (LARGE_DATASET config <= totalItems ->
      optimalBatchSize config totalItems = 1).
Proof.
  intros Hsm Hml. unfold optimalBatchSize.
  destruct (totalItems <? SMALL_DATASET config) eqn:H1;
    destruct (totalItems <? MEDIUM_DATASET config) eqn:H2;
    destruct (totalItems <? LARGE_DATASET config) eqn:H3;
    rewrite ?Nat.ltb_lt, ?Nat.ltb_ge in *;
    repeat split; intros; try reflexivity; lia.
Qed.

(** C9.  The batch size is a step function of the key count whose
    steps are the configured thresholds: 3 below [SMALL_DATASET], 2 from
    [SMALL_DATASET] up to [MEDIUM_DATASET], 2 from [MEDIUM_DATASET] up to
    [LARGE_DATASET], and 1 from [LARGE_DATASET] on. *)
Theorem getOptimalBatchSize_step_function :
  forall totalItems : nat,
    (totalItems < SMALL_DATASET RATE_LIMIT_CONFIG ->
     getOptimalBatchSize totalItems = 3)
    /\ (SMALL_DATASET RATE_LIMIT_CONFIG <= totalItems
        < MEDIUM_DATASET RATE_LIMIT_CONFIG ->
        getOptimalBatchSize totalItems = 2)
    /\ (MEDIUM_DATASET RATE_LIMIT_CONFIG <= totalItems
        < LARGE_DATASET RATE_LIMIT_CONFIG ->
        getOptimalBatchSize totalItems = 2)
    /\ (LARGE_DATASET RATE_LIMIT_CONFIG <= totalItems ->
        getOptimalBatchSize totalItems = 1).
Proof.
  intros totalItems. unfold getOptimalBatchSize.
  apply optimalBatchSize_steps; simpl; lia.
Qed.

End Batching.

(* ================================================================== *)
(** * Format detection *)
(* ================================================================== *)

Module Detection.

Import CsvProcessor.

Lemma mem_lowered_iff (name : string) (keys : list string) :
  JS.mem name (map JS.toLowerCase keys) = true
  <-> exists header, In header keys /\ Spec.same_up_to_case header name.
Proof.
  unfold JS.mem, Spec.same_up_to_case. rewrite existsb_exists. split.
  - intros [x [Hin Heq]]. apply String.eqb_eq in Heq. subst x.
    apply in_map_iff in Hin as [header [Hlow Hin]].
    now exists header.
  - intros [header [Hin Hlow]]. exists name. split.
    + apply in_map_iff. now exists header.
    + apply String.eqb_refl.
Qed.

Lemma some_lowered_includes_iff (name : string) (keys : list string) :
  existsb (fun h => JS.includes h name) (map JS.toLowerCase keys) = true
  <-> exists header,
        In header keys /\ JS.includes (JS.toLowerCase header) name = true.
Proof.
  rewrite existsb_exists. split.
  - intros [x [Hin Hinc]].
    apply in_map_iff in Hin as [header [<- Hin]]. now exists header.
  - intros [header [Hin Hinc]]. exists (JS.toLowerCase header). split.
    + apply in_map_iff. now exists header.
    + exact Hinc.
Qed.

(** C2, as the code has it.  A table is classified as [metafields]
    exactly when it is not classified as [products] and each of the four
    canonical names [handle], [namespace], [key], [value] equals some
    header of the first row after lower-casing: the comparison ignores
    letter case. *)
Theorem metafields_detected_up_to_letter_case :
  forall (row : RawRow) (rest : list RawRow),
    detectCSVFormat (row :: rest) = metafields
    <-> Spec.has_names_up_to_case row /\ ~ Spec.looks_like_products row.
Proof.
  intros row rest. unfold detectCSVFormat.
  set (headers := map JS.toLowerCase (Obj.keys row)).
  destruct (forallb (fun header => existsb (fun h => JS.includes h header)
                                           headers) productHeaders) eqn:Hp.
  - split; [discriminate |].
    intros [_ Hnot]. exfalso. apply Hnot.
    intros name Hin. apply some_lowered_includes_iff.
    rewrite forallb_forall in Hp. now apply Hp.
  - assert (Hnot : ~ Spec.looks_like_products row).
    { intros Hlooks.
      assert (Hall : forallb (fun header =>
                existsb (fun h => JS.includes h header) headers)
                productHeaders = true).
      { apply forallb_forall. intros name Hin.
        apply some_lowered_includes_iff. now apply Hlooks. }
      congruence. }
    destruct (forallb (fun header => JS.mem header headers)
                      metafieldHeaders) eqn:Hm.
    + split; [intros _ | reflexivity].
      split; [| exact Hnot].
      intros name Hin. apply mem_lowered_iff.
      rewrite forallb_forall in Hm. now apply Hm.
    + split; [discriminate |].
      intros [Hnames _].
      assert (Hall : forallb (fun header => JS.mem header headers)
                             metafieldHeaders = true).
      { apply forallb_forall. intros name Hin.
        apply mem_lowered_iff. now apply Hnames. }
      congruence.
Qed.

(** A table whose headers spell the four names with capital initials is
    classified as [metafields], although none of the four canonical
    spellings is among its headers. *)
Lemma capitalised_headers_detected_as_metafields :
  let row : RawRow :=
    [ ("Handle", "red-board"); ("Namespace", "custom");
      ("Key", "color"); ("Value", "red") ] in
  detectCSVFormat [row] = metafields
  /\ (forall name, In name metafieldHeaders -> ~ In name (Obj.keys row)).
Proof.
  split.
  - reflexivity.
  - intros name Hname Hkey. simpl in Hname.
    vm_compute in Hkey.
    repeat (destruct Hname as [<- | Hname];
            [repeat (destruct Hkey as [Hkey | Hkey]; [discriminate Hkey |]);
             exact Hkey |]).
    exact Hname.
Qed.

End Detection.

(* ================================================================== *)
(** * Row validation: the all-or-nothing gate *)
(* ================================================================== *)

Module RowValidation.

Import CsvProcessor.

Section Gate.

Variables Row Rec : Type.
Variable rowErrors : Row -> nat -> list string.
Variable record : Row -> Rec.
Variable step : list Rec * list string -> Row -> nat
                -> list Rec * list string.

Hypothesis step_eq :
  forall validatedRows errors row index,
    step (validatedRows, errors) row index
    = if 0 <? length (rowErrors row index)
      then (validatedRows, errors ++ rowErrors row index)
      else (validatedRows ++ [record row], errors).

Lemma forEach_collects (rows : list Row) :
  forall index validatedRows errors,
    forEach_indexed step rows index (validatedRows, errors)
    = (validatedRows ++ Spec.collect_valid rowErrors record rows index,
       errors ++ Spec.collect_errors rowErrors rows index).
Proof.
  induction rows as [|row rows IH]; intros index validatedRows errors; simpl.
  - now rewrite !app_nil_r.
  - rewrite step_eq.
    destruct (rowErrors row index) as [|e es] eqn:Herr; simpl.
    + rewrite IH, <- app_assoc. reflexivity.
    + rewrite IH, <- app_assoc. reflexivity.
Qed.

Lemma collect_errors_nil_iff (rows : list Row) :
  forall index,
    Spec.collect_errors rowErrors rows index = []
    <-> forall k row, nth_error rows k = Some row ->
                      rowErrors row (index + k) = [].
Proof.
  induction rows as [|row rows IH]; intros index; simpl.
  - split; [| reflexivity]. intros _ k r Hk. destruct k; discriminate.
  - split.
    + intros H. apply app_eq_nil in H as [Hrow Hrest].
      intros [|k] r Hk; simpl in Hk.
      * injection Hk as <-. now rewrite Nat.add_0_r.
      * rewrite Nat.add_succ_r, <- Nat.add_succ_l.
        now apply (proj1 (IH (S index)) Hrest).
    + intros H.
      rewrite (proj2 (IH (S index))).
      * specialize (H 0 row eq_refl). rewrite Nat.add_0_r in H.
        now rewrite H.
      * intros k r Hk. rewrite Nat.add_succ_l, <- Nat.add_succ_r.
        now apply H.
Qed.

Lemma collect_valid_all (rows : list Row) :
  forall index,
    Spec.collect_errors rowErrors rows index = [] ->
    Spec.collect_valid rowErrors record rows index = map record rows.
Proof.
  induction rows as [|row rows IH]; intros index H; simpl in *.
  - reflexivity.
  - apply app_eq_nil in H as [Hrow Hrest].
    rewrite Hrow, IH by assumption. reflexivity.
Qed.


End Gate.






Lemma validateMetafieldCSVData_eq (data : list RawRow) :
  validateMetafieldCSVData data
  = match Spec.collect_errors metafieldRowErrors data 0 with
    | [] => Returns (ValidMetafields
                       (Spec.collect_valid metafieldRowErrors
                                           validatedMetafieldRow data 0))
    | e :: es => Throws (validation_failed (e :: es))
    end.
Proof.
  unfold validateMetafieldCSVData.
  rewrite (forEach_collects metafieldRowErrors validatedMetafieldRow
             validateMetafield_step); [| reflexivity].
  simpl. now destruct (Spec.collect_errors metafieldRowErrors data 0).
Qed.

Lemma validateProductCSVData_eq (data : list RawRow) :
  validateProductCSVData data
  = match Spec.collect_errors productRowErrors data 0 with
    | [] => Returns (ValidProducts
                       (Spec.collect_valid productRowErrors
                                           validatedProductRow data 0))
    | e :: es => Throws (validation_failed (e :: es))
    end.
Proof.
  unfold validateProductCSVData.
  rewrite (forEach_collects productRowErrors validatedProductRow
             validateProduct_step); [| reflexivity].
  simpl. now destruct (Spec.collect_errors productRowErrors data 0).
Qed.


(** A table rejected by [parseCSV] is answered with the failure; no
    group is formed and no remote call is made. *)
Lemma rejected_table_is_not_processed
      (js : Platform) (admin : Remote.Admin) (fileText message : string)
      (dryRun : bool) :
  parseCSV js fileText dryRun = Throws message ->
  Executor.action js admin (Some fileText) dryRun
  = Some (Executor.ServerError message, []).
Proof.
  intros Hthrow. unfold Executor.action. now rewrite Hthrow.
Qed.

End RowValidation.

(* ================================================================== *)
(** * The preview cut of parseCSV *)
(* ================================================================== *)

Module Preview.

Import CsvProcessor Remote.

Section Lines.

Variable sep : ascii.

Lemma split_not_nil (s : string) : JS.split sep s <> [].
Proof.
  destruct s as [|c s]; simpl; [discriminate |].
  destruct (Ascii.eqb c sep); [discriminate |].
  destruct (JS.split sep s); discriminate.
Qed.

Lemma split_pieces_free (s : string) :
  Forall (fun piece => JS.count_char sep piece = 0) (JS.split sep s).
Proof.
  induction s as [|c s IH]; simpl.
  - repeat constructor.
  - destruct (Ascii.eqb c sep) eqn:Hc.
    + constructor; [reflexivity | exact IH].
    + destruct (JS.split sep s) as [|w ws]; [repeat constructor; simpl |].
      * now rewrite Hc.
      * inversion IH as [| x xs Hw Hws]; subst.
        constructor; [simpl; now rewrite Hc | exact Hws].
Qed.

Lemma join_split (s : string) :
  JS.join (chr sep) (JS.split sep s) = s.
Proof.
  unfold JS.join. induction s as [|c s IH]; simpl; [reflexivity |].
  destruct (Ascii.eqb c sep) eqn:Hc.
  - apply Ascii.eqb_eq in Hc. subst c.
    pose proof (split_not_nil s) as Hne.
    destruct (JS.split sep s) as [|w ws]; [congruence |].
    simpl in *. now rewrite IH.
  - pose proof (split_not_nil s) as Hne.
    destruct (JS.split sep s) as [|w ws]; [congruence |].
    destruct ws as [|w' ws']; simpl in *.
    + now rewrite IH.
    + now rewrite <- IH.
Qed.

Lemma split_free (piece : string) :
  JS.count_char sep piece = 0 -> JS.split sep piece = [piece].
Proof.
  induction piece as [|c piece IH]; simpl; [reflexivity |].
  destruct (Ascii.eqb c sep); [discriminate |].
  intros H. now rewrite IH.
Qed.

Lemma split_free_then (piece rest : string) :
  JS.count_char sep piece = 0 ->
  JS.split sep (piece ++ String sep rest) = piece :: JS.split sep rest.
Proof.
  induction piece as [|c piece IH]; simpl.
  - now rewrite Ascii.eqb_refl.
  - destruct (Ascii.eqb c sep); [discriminate |].
    intros H. now rewrite IH.
Qed.

Lemma split_join (pieces : list string) :
  pieces <> [] ->
  Forall (fun piece => JS.count_char sep piece = 0) pieces ->
  JS.split sep (JS.join (chr sep) pieces) = pieces.
Proof.
  unfold JS.join.
  induction pieces as [|piece pieces IH]; intros Hne Hfree; [congruence |].
  inversion Hfree as [| x xs Hpiece Hrest]; subst.
  destruct pieces as [|next pieces'].
  - simpl. now apply split_free.
  - change (String.concat (chr sep) (piece :: next :: pieces'))
      with (piece ++ String sep (String.concat (chr sep) (next :: pieces')))%string.
    rewrite split_free_then by assumption.
    rewrite IH; [reflexivity | discriminate | assumption].
Qed.

End Lines.

Lemma Forall_firstn {A} (P : A -> Prop) (n : nat) (xs : list A) :
  Forall P xs -> Forall P (firstn n xs).
Proof.
  intros H. revert n. induction H as [|x xs Hx Hxs IH]; intros [|n]; simpl;
    constructor; auto.
Qed.

(** In preview mode the text handed to the parser is the header line
    and the next [maxPreviewRows] lines of the cleaned text, joined
    again. *)
Lemma limitPreview_firstn (csvText : string) :
  limitPreview true csvText
  = JS.join (chr nl) (firstn (maxPreviewRows + 1) (JS.split nl csvText)).
Proof.
  unfold limitPreview, JS.slice.
  destruct (maxPreviewRows + 1 <? length (JS.split nl csvText)) eqn:Hlen.
  - rewrite Nat.sub_0_r. reflexivity.
  - apply Nat.ltb_ge in Hlen.
    rewrite firstn_all2 by exact Hlen.
    now rewrite join_split.
Qed.

Lemma limitPreview_lines (csvText : string) :
  JS.split nl (limitPreview true csvText)
  = firstn (maxPreviewRows + 1) (JS.split nl csvText).
Proof.
  rewrite limitPreview_firstn. apply split_join.
  - pose proof (split_not_nil nl csvText) as Hne.
    destruct (JS.split nl csvText); [congruence | discriminate].
  - apply Forall_firstn, split_pieces_free.
Qed.

(** C6.  With the preview option, which [action] sets to the
    dry-run flag, the text handed to the parser consists of the header
    line and the next 25 lines of the cleaned input, blank lines
    included, and of nothing else; a dry run therefore answers alike on
    any two inputs whose cleaned texts agree on these 26 lines:
    whatever follows them is neither validated nor grouped nor
    counted. *)
Theorem preview_keeps_header_and_25_rows :
  forall (js : Platform) (admin : Admin) (fileText other : string),
    JS.split nl (limitPreview true (cleanCSV fileText))
    = firstn (1 + 25) (JS.split nl (cleanCSV fileText))
    /\ length (JS.split nl (limitPreview true (cleanCSV fileText))) <= 1 + 25
    /\ (firstn (1 + 25) (JS.split nl (cleanCSV fileText))
        = firstn (1 + 25) (JS.split nl (cleanCSV other)) ->
        parseCSV js fileText true = parseCSV js other true
        /\ Executor.action js admin (Some fileText) true
           = Executor.action js admin (Some other) true).
Proof.
  intros js admin fileText other. split; [| split].
  - apply limitPreview_lines.
  - rewrite limitPreview_lines, length_firstn. apply Nat.le_min_l.
  - intros Hsame.
    assert (Htext : limitPreview true (cleanCSV fileText)
                    = limitPreview true (cleanCSV other)).
    { rewrite !limitPreview_firstn. unfold maxPreviewRows.
      change (25 + 1) with (1 + 25). now rewrite Hsame. }
    assert (Hparse : parseCSV js fileText true = parseCSV js other true).
    { unfold parseCSV. now rewrite Htext. }
    split; [exact Hparse |].
    unfold Executor.action. now rewrite Hparse.
Qed.

(** The 26th data row of [long_table_b] has an invalid handle: a full
    run rejects the table, a dry run does not see the row and counts 25
    keys. *)
Lemma dry_run_does_not_see_row_26 :
  (exists message,
      Executor.action Examples.host (Examples.store Examples.catalog)
                      (Some Examples.long_table_b) false
      = Some (Executor.ServerError message, []))
  /\ (exists results trace,
         Executor.action Examples.host (Examples.store Examples.catalog)
                         (Some Examples.long_table_b) true
         = Some (Executor.Completed results true, trace)
         /\ total results = 25).
Proof.
  split.
  - eexists. vm_compute. reflexivity.
  - do 2 eexists. split; [vm_compute; reflexivity | reflexivity].
Qed.

(** C6 as stated fails on a table with blank lines between its rows.
    [spaced_table] has a header and 30 data rows, as a full parse
    shows; the preview keeps the header and 13 data rows, not 25, and
    the dry run counts 13 keys.  So the 14th data row is not validated:
    with an invalid handle in it a full run rejects the table, and the
    dry run answers as before. *)
Lemma preview_keeps_13_rows_of_a_spaced_table :
  (exists csvData records,
      parseCSV Examples.host Examples.spaced_table false = Returns csvData
      /\ csv_data csvData = ValidMetafields records
      /\ length records = 30)
  /\ (exists csvData records,
         parseCSV Examples.host Examples.spaced_table true = Returns csvData
         /\ csv_data csvData = ValidMetafields records
         /\ length records = 13)
  /\ (exists results trace,
         Executor.action Examples.host (Examples.store Examples.catalog)
                         (Some Examples.spaced_table) true
         = Some (Executor.Completed results true, trace)
         /\ total results = 13)
  /\ (exists message,
         Executor.action Examples.host (Examples.store Examples.catalog)
                         (Some Examples.spaced_table_bad_14) false
         = Some (Executor.ServerError message, []))
  /\ Executor.action Examples.host (Examples.store Examples.catalog)
                     (Some Examples.spaced_table_bad_14) true
     = Executor.action Examples.host (Examples.store Examples.catalog)
                       (Some Examples.spaced_table) true.
Proof.
  split; [do 2 eexists; split; [vm_compute; reflexivity |];
          split; reflexivity |].
  split; [do 2 eexists; split; [vm_compute; reflexivity |];
          split; reflexivity |].
  split; [do 2 eexists; split; [vm_compute; reflexivity | reflexivity] |].
  split; [eexists; vm_compute; reflexivity |].
  vm_compute. reflexivity.
Qed.

Lemma preview_keeps_header_and_25_rows_witness :
  Examples.long_table_a <> Examples.long_table_b
  /\ firstn (1 + 25) (JS.split nl (cleanCSV Examples.long_table_a))
     = firstn (1 + 25) (JS.split nl (cleanCSV Examples.long_table_b))
  /\ Executor.action Examples.host (Examples.store Examples.catalog)
                     (Some Examples.long_table_a) true
     = Executor.action Examples.host (Examples.store Examples.catalog)
                       (Some Examples.long_table_b) true.
Proof.
  split; [vm_compute; discriminate |].
  split; [vm_compute; reflexivity |].
  destruct (preview_keeps_header_and_25_rows
              Examples.host (Examples.store Examples.catalog)
              Examples.long_table_a Examples.long_table_b)
    as [_ [_ Hsame]].
  apply Hsame. vm_compute. reflexivity.
Defined.

End Preview.

(* ================================================================== *)
(** * Value formatting *)
(* ================================================================== *)

Module Formatting.

Import CsvProcessor.

Lemma format_boolean (js : Platform) (value : string) :
  formatMetafieldValue js value "boolean" = Returns "true"
  \/ formatMetafieldValue js value "boolean" = Returns "false".
Proof.
  unfold formatMetafieldValue. simpl.
  match goal with
  | |- context [if ?b then _ else _] => destruct b
  end; [now left | now right].
Qed.

Lemma format_url (js : Platform) (value : string) :
  formatMetafieldValue js value "url"
  = Returns (if negb (JS.startsWith (fixEncodingIssues value) "http://")
                && negb (JS.startsWith (fixEncodingIssues value) "https://")
             then "https://" ++ fixEncodingIssues value
             else fixEncodingIssues value)%string.
Proof.
  unfold formatMetafieldValue. simpl.
  match goal with
  | |- context [if ?b then _ else _] => destruct b
  end; reflexivity.
Qed.

Lemma format_json (js : Platform) (value : string) :
  formatMetafieldValue js value "json"
  = bind (JSON_parse js (fixEncodingIssues value))
         (fun parsed => Returns (JSON_stringify js parsed)).
Proof. reflexivity. Qed.

Lemma startsWith_https (rest : string) :
  JS.startsWith ("https://" ++ rest) "https://" = true.
Proof.
  unfold JS.startsWith. simpl. now destruct rest.
Qed.

(** C10, as the code has it.  On a host whose JSON built-ins
    round-trip: boolean formatting is idempotent on every value; URL and
    JSON formatting are idempotent on every value whose formatted text
    is left unchanged by the encoding repair; and the formatted JSON
    text is the re-serialisation of the parsed, repaired value. *)
Theorem formatting_idempotent_when_repair_is_stable :
  forall js : Platform,
    Spec.json_round_trip js ->
    (forall value, exists formatted,
        formatMetafieldValue js value "boolean" = Returns formatted
        /\ formatMetafieldValue js formatted "boolean" = Returns formatted)
    /\ (forall value, exists formatted,
           formatMetafieldValue js value "url" = Returns formatted
           /\ (fixEncodingIssues formatted = formatted ->
               formatMetafieldValue js formatted "url" = Returns formatted))
    /\ (forall value formatted,
           formatMetafieldValue js value "json" = Returns formatted ->
           (exists parsed,
               JSON_parse js (fixEncodingIssues value) = Returns parsed
               /\ formatted = JSON_stringify js parsed)
           /\ (fixEncodingIssues formatted = formatted ->
               formatMetafieldValue js formatted "json" = Returns formatted)).
Proof.
  intros js Hround. split; [| split].
  - intros value.
    destruct (format_boolean js value) as [H | H]; rewrite H;
      eexists; split; reflexivity.
  - intros value. rewrite format_url.
    set (clean := fixEncodingIssues value).
    destruct (JS.startsWith clean "http://") eqn:Hhttp; cbn [negb andb].
    + exists clean. split; [reflexivity |].
      intros Hstable. rewrite format_url, Hstable, Hhttp. reflexivity.
    + destruct (JS.startsWith clean "https://") eqn:Hhttps; cbn [negb andb].
      * exists clean. split; [reflexivity |].
        intros Hstable. rewrite format_url, Hstable, Hhttp, Hhttps.
        reflexivity.
      * exists ("https://" ++ clean)%string. split; [reflexivity |].
        intros Hstable.
        rewrite format_url, Hstable, startsWith_https, andb_false_r.
        reflexivity.
  - intros value formatted Hformat. rewrite format_json in Hformat.
    destruct (JSON_parse js (fixEncodingIssues value)) as [parsed |] eqn:Hp;
      simpl in Hformat; [| discriminate].
    injection Hformat as <-.
    split; [now exists parsed |].
    intros Hstable. rewrite format_json, Hstable.
    destruct (Hround _ _ Hp) as [reparsed [Hre Hsame]].
    rewrite Hre. simpl. now rewrite Hsame.
Qed.

Lemma host_round_trips : Spec.json_round_trip Examples.host.
Proof.
  intros text parsed Hparse. simpl in *. exists parsed.
  unfold Examples.parse_json_fragment in *.
  destruct (Regex.test Examples.re_json_string text
            || JS.mem text ["null"; "true"; "false"]) eqn:Hfrag;
    [| discriminate].
  injection Hparse as <-. rewrite Hfrag. now split.
Qed.

Lemma formatting_idempotent_when_repair_is_stable_witness :
  Spec.json_round_trip Examples.host
  /\ (exists formatted,
         formatMetafieldValue Examples.host "TRUE" "boolean" = Returns formatted
         /\ formatMetafieldValue Examples.host formatted "boolean"
            = Returns formatted)
  /\ (exists formatted,
         formatMetafieldValue Examples.host "example.com/a" "url"
         = Returns formatted
         /\ (fixEncodingIssues formatted = formatted ->
             formatMetafieldValue Examples.host formatted "url"
             = Returns formatted)).
Proof.
  split; [exact host_round_trips |].
  destruct (formatting_idempotent_when_repair_is_stable host_round_trips)
    as [Hbool [Hurl _]].
  split; [apply Hbool | apply Hurl].
Defined.

(** A value that validates as a URL and whose formatted text changes
    when it is formatted again. *)
Lemma url_formatting_is_not_idempotent :
  validateMetafieldValue Examples.host Examples.mojibake_url "url" = true
  /\ formatMetafieldValue Examples.host Examples.mojibake_url "url"
     = Returns "http://a.b/?g"
  /\ formatMetafieldValue Examples.host "http://a.b/?g" "url"
     = Returns ("http://a.b/" ++ mu_g)%string
  /\ ("http://a.b/" ++ mu_g)%string <> "http://a.b/?g".
Proof.
  repeat split; try reflexivity.
  vm_compute. discriminate.
Qed.

End Formatting.

(* ================================================================== *)
(** * The two property-update paths *)
(* ================================================================== *)

Module UpdatePaths.

Import CsvProcessor Remote.

(** The background path differs from the synchronous one in the
    description only. *)
Lemma background_differs_in_description_only
      (js : Platform) (product : Product) (productData : ProductRecord) :
  Background.buildUpdateInput js product productData
  = let sync := Executor.buildUpdateInput js product productData in
    mkUpdateInput (u_id sync) (u_title sync)
      (if nonempty (p_bodyHtml productData)
       then Some (p_title productData) else None)
      (u_vendor sync) (u_productType sync) (u_tags sync) (u_status sync)
      (u_metafields sync).
Proof. reflexivity. Qed.

(** The two paths agree on a record without a description and on one
    whose description equals its title. *)
Lemma paths_agree_without_description
      (js : Platform) (product : Product) (productData : ProductRecord) :
  p_bodyHtml productData = EmptyString
  \/ p_bodyHtml productData = p_title productData ->
  Background.buildUpdateInput js product productData
  = Executor.buildUpdateInput js product productData.
Proof.
  intros [Hb | Hb]; unfold Background.buildUpdateInput,
                           Executor.buildUpdateInput; rewrite Hb.
  - reflexivity.
  - destruct (nonempty (p_title productData)); reflexivity.
Qed.

(** C5 at the first product row of the repository's test script: the
    synchronous path sets the description of the update from the
    record's description, the background path sets it from the record's
    title, so the two update inputs differ. *)
Theorem background_update_takes_description_from_title :
  u_descriptionHtml
    (Executor.buildUpdateInput Examples.host Examples.red_board
                               Examples.red_snowboard)
  = Some "<p>A red snowboard</p>"
  /\ u_descriptionHtml
       (Background.buildUpdateInput Examples.host Examples.red_board
                                    Examples.red_snowboard)
     = Some "Red Snowboard"
  /\ Background.buildUpdateInput Examples.host Examples.red_board
                                 Examples.red_snowboard
     <> Executor.buildUpdateInput Examples.host Examples.red_board
                                  Examples.red_snowboard.
Proof.
  repeat split. intros Heq.
  apply (f_equal u_descriptionHtml) in Heq. vm_compute in Heq.
  discriminate Heq.
Qed.

End UpdatePaths.

(* ================================================================== *)
(** * End-to-end scenarios *)
(* ================================================================== *)

Module Scenarios.

Import CsvProcessor Remote.

Lemma scenario_A_text_is_clean :
  limitPreview true (cleanCSV Examples.scenario_A) = Examples.scenario_A.
Proof. vm_compute. reflexivity. Qed.

(** C1, as the code has it.  A dry run on the table of scenario A, on
    any host whose parser yields the single row and any store that
    knows the handle: validation yields one record, grouping one key
    with one field update; the only remote call is the lookup, and the
    summary holds one success entry whose field count is stored under
    [metafieldsToUpdate] with value 1. *)
Theorem scenario_A_dry_run :
  forall (js : Platform) (admin : Admin) (product : Product),
    Papa_parse js PapaStandard Examples.scenario_A
    = Returns (mkPapaResult [Examples.scenario_A_row] []) ->
    productByHandle admin [] "red-board" Executor.tries
    = Returns (Some product) ->
    validateCSVData [Examples.scenario_A_row] true
    = Returns (ValidMetafields [Examples.scenario_A_record])
    /\ groupDataByHandle (ValidMetafields [Examples.scenario_A_record])
       = Returns Examples.scenario_A_grouped
    /\ Executor.action js admin (Some Examples.scenario_A) true
       = Some (Executor.Completed
                 {| processed := 1;
                    errors := [];
                    success :=
                      [[ ("handle", VStr "red-board");
                         ("metafieldsToUpdate", VNum 1);
                         ("productTitle", VStr (product_title product));
                         ("dryRun", VBool true) ]];
                    total := 1;
                    format := metafields |}
                 true,
               [Call (GET_PRODUCT_BY_HANDLE "red-board") 3])
    /\ existsb is_mutation [Call (GET_PRODUCT_BY_HANDLE "red-board") 3]
       = false.
Proof.
  intros js admin product Hpapa Hfind.
  split; [reflexivity |]. split; [reflexivity |]. split; [| reflexivity].
  unfold Executor.action, parseCSV.
  rewrite scenario_A_text_is_clean, Hpapa.
  cbv in Hfind. cbv. rewrite Hfind. reflexivity.
Qed.

Lemma scenario_A_dry_run_witness :
  Papa_parse Examples.host PapaStandard Examples.scenario_A
  = Returns (mkPapaResult [Examples.scenario_A_row] [])
  /\ productByHandle (Examples.store Examples.catalog) [] "red-board"
                     Executor.tries
     = Returns (Some Examples.red_board)
  /\ Executor.action Examples.host (Examples.store Examples.catalog)
                     (Some Examples.scenario_A) true
     = Some (Executor.Completed
               {| processed := 1;
                  errors := [];
                  success :=
                    [[ ("handle", VStr "red-board");
                       ("metafieldsToUpdate", VNum 1);
                       ("productTitle", VStr "Red Board");
                       ("dryRun", VBool true) ]];
                  total := 1;
                  format := metafields |}
               true,
             [Call (GET_PRODUCT_BY_HANDLE "red-board") 3]).
Proof.
  split; [vm_compute; reflexivity |].
  split; [vm_compute; reflexivity |].
  apply (@scenario_A_dry_run Examples.host (Examples.store Examples.catalog)
                             Examples.red_board).
  - vm_compute. reflexivity.
  - vm_compute. reflexivity.
Defined.

(** The success entry of scenario A has no [fieldsToUpdate] key. *)
Lemma scenario_A_entry_has_no_fieldsToUpdate :
  exists results trace entry,
    Executor.action Examples.host (Examples.store Examples.catalog)
                    (Some Examples.scenario_A) true
    = Some (Executor.Completed results true, trace)
    /\ success results = [entry]
    /\ Obj.get entry "fieldsToUpdate" = None
    /\ Obj.get entry "metafieldsToUpdate" = Some (VNum 1).
Proof.
  do 3 eexists. split; [vm_compute; reflexivity |].
  repeat split.
Qed.

End Scenarios.

(* ================================================================== *)
(** * Failures of the per-key operation *)
(* ================================================================== *)

Module RetryPolicy.

Import CsvProcessor Remote.

(** What the [catch] block of the per-key operation does with a lookup
    rejected with an [Error]: a rate-limit message costs one
    [RETRY_DELAY] pause, then every failure is recorded; the lookup,
    issued with [MAX_RETRIES] tries for the client, is not issued
    again. *)
Lemma failed_lookup_is_recorded
      (js : Platform) (admin : Admin) (groupedData : Grouped)
      (dryRun : bool) (handle message : string) (w : World) :
  productByHandle admin (trace w) handle Executor.tries
  = Throws (Error message) ->
  Executor.processHandle js admin groupedData dryRun handle w
  = (Returns tt,
     mkWorld
       (mkResults (processed (results w))
                  (errors (results w)
                   ++ [mkError handle ("Processing error: " ++ message)])
                  (success (results w)) (total (results w))
                  (format (results w)))
       (trace w
        ++ [Call (GET_PRODUCT_BY_HANDLE handle) Executor.tries]
        ++ (if Executor.is_rate_limit message
            then [Sleep (RETRY_DELAY RATE_LIMIT_CONFIG)]
            else []))).
Proof.
  intros Hthrow.
  unfold Executor.processHandle, try_catch, bindM, graphql_product.
  rewrite Hthrow.
  destruct (Executor.is_rate_limit message); simpl.
  - now rewrite <- app_assoc.
  - reflexivity.
Qed.

(** A lookup rejected with an object that has no [message]: the
    [catch] block itself throws on [error.message.includes], so the
    operation is rejected and has recorded nothing. *)
Lemma lookup_rejected_without_message
      (js : Platform) (admin : Admin) (groupedData : Grouped)
      (dryRun : bool) (handle : string) (w : World) :
  productByHandle admin (trace w) handle Executor.tries = Throws NoMessage ->
  Executor.processHandle js admin groupedData dryRun handle w
  = (Throws
       (Error "Cannot read properties of undefined (reading 'includes')"),
     mkWorld (results w)
             (trace w
              ++ [Call (GET_PRODUCT_BY_HANDLE handle) Executor.tries])).
Proof.
  intros Hthrow.
  unfold Executor.processHandle, try_catch, bindM, graphql_product.
  now rewrite Hthrow.
Qed.

(** The submission of scenario A at a store that stays rate-limited:
    the lookup is issued once, with [MAX_RETRIES] tries for the client,
    and its rejection is recorded after one [RETRY_DELAY] pause. *)
Example rate_limited_lookup_is_recorded_after_one_pause :
  Executor.action Examples.host Examples.rate_limited
                  (Some Examples.scenario_A) false
  = Some (Executor.Completed
            {| processed := 0;
               errors :=
                 [mkError "red-board"
                    "Processing error: HTTP 429 Too Many Requests"];
               success := [];
               total := 1;
               format := metafields |}
            false,
          [Call (GET_PRODUCT_BY_HANDLE "red-board") 3; Sleep 1000]).
Proof.
  vm_compute; reflexivity.
Qed.

(** C3 at a store whose lookup is rejected with an object that has no
    [message]: the submission of scenario A records no error under
    the key [red-board]; the only entry is the one of the batch-level
    handler, under [batch_error], with the [TypeError] of the per-key
    handler. *)
Theorem rejection_without_message_is_not_recorded_for_its_key :
  Executor.action Examples.host Examples.rejecting_without_message
                  (Some Examples.scenario_A) false
  = Some (Executor.Completed
            {| processed := 0;
               errors :=
                 [mkError "batch_error"
                    ("Batch 1 processing failed: Cannot read properties "
                     ++ "of undefined (reading 'includes')")];
               success := [];
               total := 1;
               format := metafields |}
            false,
          [Call (GET_PRODUCT_BY_HANDLE "red-board") 3])
  /\ productByHandle Examples.rejecting_without_message [] "red-board"
                     (MAX_RETRIES RATE_LIMIT_CONFIG)
     = Throws NoMessage
  /\ MAX_RETRIES RATE_LIMIT_CONFIG = 3.
Proof.
  repeat split; vm_compute; reflexivity.
Qed.

End RetryPolicy.

(* ================================================================== *)
(** * Plain objects and grouping *)
(* ================================================================== *)

Module ObjFacts.

Lemma get_set {V} (o : Obj.t V) (k k' : string) (v : V) :
  Obj.get (Obj.set o k v) k'
  = if String.eqb k k' then Some v else Obj.get o k'.
Proof.
  induction o as [|[k0 v0] o IH]; simpl.
  - reflexivity.
  - destruct (String.eqb k0 k) eqn:E0; simpl.
    + apply String.eqb_eq in E0. subst k0.
      now destruct (String.eqb k k').
    + destruct (String.eqb k0 k') eqn:E1.
      * apply String.eqb_eq in E1. subst k0.
        rewrite String.eqb_sym in E0. now rewrite E0.
      * exact IH.
Qed.

Lemma mem_cons (x y : string) (xs : list string) :
  JS.mem x (y :: xs) = String.eqb x y || JS.mem x xs.
Proof. reflexivity. Qed.

Lemma mem_app (x : string) (xs ys : list string) :
  JS.mem x (xs ++ ys) = JS.mem x xs || JS.mem x ys.
Proof. unfold JS.mem. apply existsb_app. Qed.

Lemma mem_snoc (x y : string) (xs : list string) :
  JS.mem x (xs ++ [y]) = JS.mem x xs || String.eqb x y.
Proof.
  rewrite mem_app, mem_cons. unfold JS.mem at 2. cbn [existsb].
  now rewrite orb_false_r.
Qed.

Lemma map_snoc {A B} (f : A -> B) (xs : list A) (x : A) :
  map f (xs ++ [x]) = map f xs ++ [f x].
Proof. now rewrite map_app. Qed.

Lemma mem_In (x : string) (xs : list string) :
  JS.mem x xs = true <-> In x xs.
Proof.
  unfold JS.mem. rewrite existsb_exists. split.
  - intros [y [Hin Heq]]. apply String.eqb_eq in Heq. now subst.
  - intros Hin. exists x. split; [exact Hin | apply String.eqb_refl].
Qed.

Lemma get_none_iff {V} (o : Obj.t V) (k : string) :
  Obj.get o k = None <-> JS.mem k (map fst o) = false.
Proof.
  induction o as [|[k0 v0] o IH]; cbn [Obj.get map fst].
  - now split.
  - rewrite mem_cons, (String.eqb_sym k k0).
    destruct (String.eqb k0 k); cbn [orb];
      [split; discriminate | exact IH].
Qed.

Lemma keys_set {V} (o : Obj.t V) (k : string) (v : V) :
  map fst (Obj.set o k v)
  = if JS.mem k (map fst o) then map fst o else map fst o ++ [k].
Proof.
  induction o as [|[k0 v0] o IH]; cbn [Obj.set map fst].
  - reflexivity.
  - rewrite mem_cons, (String.eqb_sym k k0).
    destruct (String.eqb k0 k) eqn:E0; cbn [orb map fst].
    + reflexivity.
    + rewrite IH. now destruct (JS.mem k (map fst o)).
Qed.

Lemma mem_filter_other (x y : string) (xs : list string) :
  String.eqb x y = false ->
  JS.mem x (filter (fun z => negb (String.eqb z y)) xs) = JS.mem x xs.
Proof.
  intros Hxy. unfold JS.mem.
  induction xs as [|z xs IH]; simpl; [reflexivity |].
  destruct (String.eqb z y) eqn:Ezy; simpl.
  - apply String.eqb_eq in Ezy. subst z. now rewrite Hxy.
  - now rewrite IH.
Qed.

Lemma mem_filter_same (y : string) (xs : list string) :
  JS.mem y (filter (fun z => negb (String.eqb z y)) xs) = false.
Proof.
  unfold JS.mem.
  induction xs as [|z xs IH]; simpl; [reflexivity |].
  destruct (String.eqb z y) eqn:Ezy; simpl; [exact IH |].
  now rewrite String.eqb_sym, Ezy.
Qed.

Lemma mem_first_seen (x : string) (xs : list string) :
  JS.mem x (Props.first_seen xs) = JS.mem x xs.
Proof.
  induction xs as [|y xs IH]; [reflexivity |].
  cbn [Props.first_seen]. rewrite !mem_cons.
  destruct (String.eqb x y) eqn:Exy; [reflexivity |].
  now rewrite mem_filter_other.
Qed.

Lemma first_seen_snoc (xs : list string) (x : string) :
  Props.first_seen (xs ++ [x])
  = if JS.mem x xs then Props.first_seen xs else Props.first_seen xs ++ [x].
Proof.
  induction xs as [|y xs IH]; [reflexivity |].
  cbn [Datatypes.app Props.first_seen]. rewrite IH, mem_cons.
  destruct (String.eqb x y) eqn:Exy; cbn [orb].
  - apply String.eqb_eq in Exy. subst y.
    destruct (JS.mem x xs); [reflexivity |].
    rewrite filter_app. cbn [filter]. rewrite String.eqb_refl. cbn [negb].
    now rewrite app_nil_r.
  - destruct (JS.mem x xs); [reflexivity |].
    rewrite filter_app. cbn [filter]. now rewrite Exy.
Qed.

Lemma first_seen_NoDup (xs : list string) : NoDup (Props.first_seen xs).
Proof.
  induction xs as [|y xs IH]; simpl; constructor.
  - intros Hin. apply mem_In in Hin.
    now rewrite mem_filter_same in Hin.
  - now apply NoDup_filter.
Qed.

End ObjFacts.

Module Grouping.

Import CsvProcessor ObjFacts.

Lemma fields_of_snoc (handle : string) (records : list MetafieldRecord)
      (record : MetafieldRecord) :
  Props.fields_of handle (records ++ [record])
  = Props.fields_of handle records
    ++ (if String.eqb (m_handle record) handle
        then [Props.field_of record] else []).
Proof.
  unfold Props.fields_of. rewrite filter_app, map_app. simpl.
  now destruct (String.eqb (m_handle record) handle).
Qed.

Lemma fields_of_unseen (handle : string) (records : list MetafieldRecord) :
  JS.mem handle (map m_handle records) = false ->
  Props.fields_of handle records = [].
Proof.
  unfold Props.fields_of.
  induction records as [|r records IH]; [reflexivity |].
  cbn [map filter]. rewrite mem_cons, String.eqb_sym.
  destruct (String.eqb (m_handle r) handle); cbn [orb]; [discriminate |].
  exact IH.
Qed.

Lemma group_step_invariant (records : list MetafieldRecord)
      (record : MetafieldRecord) (grouped : Obj.t (list Metafield)) :
  Props.grouped_as records grouped ->
  Obj.inherited (m_handle record) = false ->
  exists grouped',
    groupMetafield_step (Returns grouped) record = Returns grouped'
    /\ Props.grouped_as (records ++ [record]) grouped'.
Proof.
  intros [Hkeys Hget] Hown. unfold groupMetafield_step. cbn [bind].
  rewrite Hget.
  assert (Hrest : forall fields,
             Props.grouped_as records grouped ->
             fields = Props.fields_of (m_handle record) (records ++ [record]) ->
             Props.grouped_as (records ++ [record])
               (Obj.set grouped (m_handle record) fields)).
  { intros fields _ ->. split.
    - rewrite keys_set, Hkeys, mem_first_seen, map_snoc, first_seen_snoc.
      reflexivity.
    - intros handle. rewrite get_set, Hget, map_snoc, mem_snoc.
      destruct (String.eqb (m_handle record) handle) eqn:Eh.
      + apply String.eqb_eq in Eh. subst handle.
        now rewrite String.eqb_refl, orb_true_r.
      + rewrite (String.eqb_sym handle), Eh, orb_false_r, fields_of_snoc, Eh.
        now rewrite app_nil_r. }
  destruct (JS.mem (m_handle record) (map m_handle records)) eqn:Hseen.
  - eexists. split; [reflexivity |]. apply Hrest; [now split |].
    now rewrite fields_of_snoc, String.eqb_refl.
  - rewrite Hown. eexists. split; [reflexivity |].
    apply Hrest; [now split |].
    now rewrite fields_of_snoc, String.eqb_refl, (fields_of_unseen _ _ Hseen).
Qed.

Lemma group_step_inherited (records : list MetafieldRecord)
      (record : MetafieldRecord) (grouped : Obj.t (list Metafield)) :
  Props.grouped_as records grouped ->
  existsb (fun r => Obj.inherited (m_handle r)) records = false ->
  Obj.inherited (m_handle record) = true ->
  groupMetafield_step (Returns grouped) record
  = Throws "grouped[metafield.handle].push is not a function".
Proof.
  intros [Hkeys Hget] Hnone Hinh. unfold groupMetafield_step. cbn [bind].
  rewrite Hget.
  destruct (JS.mem (m_handle record) (map m_handle records)) eqn:Hseen.
  - exfalso. apply mem_In, in_map_iff in Hseen as [r [Hr Hin]].
    assert (Hex : existsb (fun r => Obj.inherited (m_handle r)) records
                  = true).
    { apply existsb_exists. exists r. split; [exact Hin |].
      now rewrite Hr. }
    congruence.
  - now rewrite Hinh.
Qed.

Lemma groupMetafieldsByHandle_cases (records : list MetafieldRecord) :
  (existsb (fun r => Obj.inherited (m_handle r)) records = true
   /\ groupMetafieldsByHandle records
      = Throws "grouped[metafield.handle].push is not a function")
  \/ (existsb (fun r => Obj.inherited (m_handle r)) records = false
      /\ exists grouped,
           groupMetafieldsByHandle records = Returns grouped
           /\ Props.grouped_as records grouped).
Proof.
  unfold groupMetafieldsByHandle.
  induction records as [|record records IH] using rev_ind.
  - right. split; [reflexivity |]. exists []. split; [reflexivity |].
    now split.
  - rewrite existsb_app, fold_left_app. cbn [existsb fold_left].
    rewrite orb_false_r.
    destruct IH as [[-> ->] | [Hnone (grouped & -> & Hgrouped)]];
      [now left |].
    rewrite Hnone. cbn [orb].
    destruct (Obj.inherited (m_handle record)) eqn:Hinh.
    + left. split; [reflexivity |].
      now apply (group_step_inherited record Hgrouped).
    + right. split; [reflexivity |]. now apply group_step_invariant.
Qed.

(** X1.  [groupMetafieldsByHandle] throws exactly when some handle is
    the name of a property every object inherits (such as
    [constructor]); otherwise it returns one group per distinct handle,
    in the order the handles are first seen, and the group of a handle
    holds the field updates of all its records in input order. *)
Theorem groupMetafieldsByHandle_groups_by_first_seen_handle :
  forall records : list MetafieldRecord,
    if existsb (fun r => Obj.inherited (m_handle r)) records
    then groupMetafieldsByHandle records
         = Throws "grouped[metafield.handle].push is not a function"
    else exists grouped,
        groupMetafieldsByHandle records = Returns grouped
        /\ Props.grouped_as records grouped.
Proof.
  intros records.
  destruct (groupMetafieldsByHandle_cases records)
    as [[Hsome Hthrows] | [Hnone Hreturns]].
  - rewrite Hsome. exact Hthrows.
  - rewrite Hnone. exact Hreturns.
Qed.

Lemma last_with_snoc (handle : string) (records : list ProductRecord)
      (record : ProductRecord) :
  Props.last_with handle (records ++ [record])
  = if String.eqb (p_handle record) handle then Some record
    else Props.last_with handle records.
Proof.
  unfold Props.last_with. rewrite filter_app, map_app. simpl.
  destruct (String.eqb (p_handle record) handle); simpl.
  - apply last_last.
  - now rewrite app_nil_r.
Qed.

(** X2.  [groupProductsByHandle] keeps, for every handle other than
    [__proto__], the last record with that handle (a later row
    overwrites an earlier one); its keys are the distinct handles in
    first-seen order; rows whose handle is [__proto__] leave no entry. *)
Theorem groupProductsByHandle_last_write_wins :
  forall records : list ProductRecord,
    map fst (groupProductsByHandle records)
    = Props.first_seen
        (filter (fun h => negb (String.eqb h "__proto__"))
                (map p_handle records))
    /\ forall handle,
         Obj.get (groupProductsByHandle records) handle
         = if String.eqb handle "__proto__" then None
           else Props.last_with handle records.
Proof.
  unfold groupProductsByHandle.
  induction records as [|record records [IHkeys IHget]] using rev_ind.
  - split; [reflexivity |]. intros handle. simpl.
    now destruct (String.eqb handle "__proto__").
  - rewrite fold_left_app, map_app, filter_app. simpl.
    destruct (String.eqb (p_handle record) "__proto__") eqn:Hproto; simpl.
    + rewrite app_nil_r. split; [exact IHkeys |].
      intros handle. rewrite IHget, last_with_snoc.
      destruct (String.eqb handle "__proto__") eqn:Eh; [reflexivity |].
      destruct (String.eqb (p_handle record) handle) eqn:Er;
        [| reflexivity].
      apply String.eqb_eq in Er. subst handle.
      apply String.eqb_eq in Hproto. rewrite Hproto in Eh.
      discriminate.
    + split.
      * rewrite keys_set, IHkeys, mem_first_seen, first_seen_snoc.
        reflexivity.
      * intros handle. rewrite get_set, IHget, last_with_snoc.
        destruct (String.eqb (p_handle record) handle) eqn:Er;
          [| reflexivity].
        apply String.eqb_eq in Er. subst handle. now rewrite Hproto.
Qed.

End Grouping.

(* ================================================================== *)
(** * What a validated record guarantees *)
(* ================================================================== *)

Module RowInvariants.

Import Regex CsvProcessor RowValidation.

Ltac split_nil H :=
  repeat match type of H with
         | (_ ++ _) = [] =>
             let H1 := fresh "Hnil" in
             apply app_eq_nil in H as [H1 H]
         end.

Lemma if_nil {A} (c : bool) (x : A) :
  (if c then [x] else []) = [] -> c = false.
Proof. destruct c; [discriminate | reflexivity]. Qed.

Lemma not_blank_truthy (v : option string) :
  blank v = false -> JS.truthy v = true.
Proof.
  unfold blank. destruct (JS.truthy v); [reflexivity | discriminate].
Qed.

Lemma guarded_test (v : option string) (r : regex) :
  JS.truthy v && negb (test r (JS.trim (JS.or_empty v))) = false ->
  JS.truthy v = true ->
  test r (JS.trim (JS.or_empty v)) = true.
Proof.
  intros H Ht. rewrite Ht in H. simpl in H.
  now destruct (test r (JS.trim (JS.or_empty v))).
Qed.

Lemma valid_metafield_row (row : RawRow) (index : nat) :
  metafieldRowErrors row index = [] ->
  test re_handle (m_handle (validatedMetafieldRow row)) = true
  /\ test re_name (m_namespace (validatedMetafieldRow row)) = true
  /\ test re_name (m_key (validatedMetafieldRow row)) = true
  /\ JS.mem (m_type (validatedMetafieldRow row)) validTypes = true.
Proof.
  unfold metafieldRowErrors, requiredFields. cbn [flat_map].
  intros H. rewrite <- !app_assoc in H. split_nil H.
  repeat match goal with
         | Hn : (if _ then [_] else []) = [] |- _ => apply if_nil in Hn
         end.
  cbn [validatedMetafieldRow m_handle m_namespace m_key m_type].
  repeat split.
  - apply guarded_test; [assumption | now apply not_blank_truthy].
  - apply guarded_test; [assumption | now apply not_blank_truthy].
  - apply guarded_test; [assumption | now apply not_blank_truthy].
  - match goal with
    | Hn : negb (JS.mem (metafield_type row) validTypes) = false |- _ =>
        now apply negb_false_iff in Hn
    end.
Qed.

Lemma rows_without_errors {Row} (rowErrors : Row -> nat -> list string)
      (rows : list Row) (row : Row) :
  Spec.collect_errors rowErrors rows 0 = [] ->
  In row rows -> exists index, rowErrors row index = [].
Proof.
  intros Hnil Hin. apply In_nth_error in Hin as [k Hk].
  exists k.
  exact (proj1 (collect_errors_nil_iff rowErrors rows 0) Hnil k row Hk).
Qed.

(** X3.  Every record that [validateMetafieldCSVData] returns has a
    handle matching the handle pattern, a namespace and a key matching
    the name pattern, and a type from the list of valid types; there is
    one record for every row. *)
Theorem validated_metafields_are_well_formed :
  forall (data : list RawRow) (records : list MetafieldRecord),
    validateMetafieldCSVData data = Returns (ValidMetafields records) ->
    length records = length data
    /\ Forall (fun r =>
                 test re_handle (m_handle r) = true
                 /\ test re_name (m_namespace r) = true
                 /\ test re_name (m_key r) = true
                 /\ JS.mem (m_type r) validTypes = true)
              records.
Proof.
  intros data records H. rewrite validateMetafieldCSVData_eq in H.
  destruct (Spec.collect_errors metafieldRowErrors data 0) eqn:Hnil;
    [| discriminate].
  injection H as <-. rewrite collect_valid_all by exact Hnil.
  split; [apply length_map |].
  apply Forall_forall. intros r Hr.
  apply in_map_iff in Hr as [row [<- Hrow]].
  destruct (rows_without_errors metafieldRowErrors data row Hnil Hrow)
    as [index Hok].
  exact (valid_metafield_row row index Hok).
Qed.

Lemma validated_metafields_are_well_formed_witness :
  validateMetafieldCSVData [Examples.scenario_A_row]
  = Returns (ValidMetafields [Examples.scenario_A_record])
  /\ length [Examples.scenario_A_record] = length [Examples.scenario_A_row]
  /\ Forall (fun r =>
               test re_handle (m_handle r) = true
               /\ test re_name (m_namespace r) = true
               /\ test re_name (m_key r) = true
               /\ JS.mem (m_type r) validTypes = true)
            [Examples.scenario_A_record].
Proof.
  split; [vm_compute; reflexivity |].
  apply (@validated_metafields_are_well_formed
           [Examples.scenario_A_row] [Examples.scenario_A_record]).
  vm_compute. reflexivity.
Defined.

Lemma valid_product_row (row : RawRow) (index : nat) :
  productRowErrors row index = [] ->
  test re_handle (p_handle (validatedProductRow row)) = true
  /\ (p_expirationMonths (validatedProductRow row) = EmptyString
      \/ test re_digits (JS.trim (p_expirationMonths (validatedProductRow row)))
         = true).
Proof.
  unfold productRowErrors. intros H. split_nil H.
  repeat match goal with
         | Hn : (if _ then [_] else []) = [] |- _ => apply if_nil in Hn
         end.
  cbn [validatedProductRow p_handle p_expirationMonths].
  assert (Hhandle : JS.truthy (JS.or_else (Obj.get row "Handle")
                                          (Obj.get row "handle")) = true).
  { unfold JS.or_else.
    destruct (JS.truthy (Obj.get row "Handle")) eqn:H1;
      [first [exact H1 | reflexivity] |].
    destruct (JS.truthy (Obj.get row "handle")) eqn:H2;
      [first [exact H2 | reflexivity] |].
    match goal with
    | Hn : negb false && negb false = false |- _ => discriminate Hn
    end. }
  split.
  - rewrite Hhandle. now apply guarded_test.
  - destruct (expiration_of row) as [[|c s]|]; cbn [JS.or_empty].
    + now left.
    + right. cbn [JS.truthy JS.or_empty andb] in H.
      now apply negb_false_iff in H.
    + now left.
Qed.

(** X4.  Every record that [validateProductCSVData] returns has a
    handle matching the handle pattern, and its expiration period is
    either absent or, once trimmed, a string of digits; there is one
    record for every row. *)
Theorem validated_products_are_well_formed :
  forall (data : list RawRow) (records : list ProductRecord),
    validateProductCSVData data = Returns (ValidProducts records) ->
    length records = length data
    /\ Forall (fun r =>
                 test re_handle (p_handle r) = true
                 /\ (p_expirationMonths r = EmptyString
                     \/ test re_digits (JS.trim (p_expirationMonths r))
                        = true))
              records.
Proof.
  intros data records H. rewrite validateProductCSVData_eq in H.
  destruct (Spec.collect_errors productRowErrors data 0) eqn:Hnil;
    [| discriminate].
  injection H as <-. rewrite collect_valid_all by exact Hnil.
  split; [apply length_map |].
  apply Forall_forall. intros r Hr.
  apply in_map_iff in Hr as [row [<- Hrow]].
  destruct (rows_without_errors productRowErrors data row Hnil Hrow)
    as [index Hok].
  exact (valid_product_row row index Hok).
Qed.

Lemma validated_products_are_well_formed_witness :
  exists records,
    validateProductCSVData
      [[("Handle", "red-snowboard"); ("Title", "Red Snowboard");
        ("expiration months", " 12 ")]]
    = Returns (ValidProducts records)
    /\ length records = 1
    /\ Forall (fun r =>
                 test re_handle (p_handle r) = true
                 /\ (p_expirationMonths r = EmptyString
                     \/ test re_digits (JS.trim (p_expirationMonths r))
                        = true))
              records.
Proof.
  eexists. split; [vm_compute; reflexivity |].
  eapply (@validated_products_are_well_formed
            [[("Handle", "red-snowboard"); ("Title", "Red Snowboard");
              ("expiration months", " 12 ")]]).
  vm_compute. reflexivity.
Defined.

End RowInvariants.

(* ================================================================== *)
(** * The synchronous executor: outcomes, counters and the trace *)
(* ================================================================== *)

Module ExecutorFacts.

Import CsvProcessor Remote.

Lemma advances_refl (quiet : bool) (w : World) :
  Props.advances quiet [] [] 0 w w.
Proof.
  unfold Props.advances. rewrite !app_nil_r, Nat.add_0_r.
  repeat split.
  exists []. now rewrite app_nil_r.
Qed.

Lemma advances_trans (quiet : bool) (f1 f2 s1 s2 : list string) (c d : nat)
      (w1 w2 w3 : World) :
  Props.advances quiet f1 s1 c w1 w2 -> Props.advances quiet f2 s2 d w2 w3 ->
  Props.advances quiet (f1 ++ f2) (s1 ++ s2) (c + d) w1 w3.
Proof.
  intros (He1 & Hs1 & Hp1 & Ht1 & Hf1 & a1 & Ha1 & Hq1)
         (He2 & Hs2 & Hp2 & Ht2 & Hf2 & a2 & Ha2 & Hq2).
  unfold Props.advances. repeat split; try lia; try congruence.
  - now rewrite He2, He1, app_assoc.
  - now rewrite Hs2, Hs1, app_assoc.
  - exists (a1 ++ a2). split.
    + now rewrite Ha2, Ha1, app_assoc.
    + intros Hq. rewrite existsb_app, Hq1, Hq2 by assumption. reflexivity.
Qed.

(** An appended event that is no mutation, with the summary left as it
    is. *)
Lemma advances_event (quiet : bool) (w : World) (e : Event) :
  is_mutation e = false ->
  Props.advances quiet [] [] 0 w (mkWorld (results w) (trace w ++ [e])).
Proof.
  intros He. unfold Props.advances. cbn [results trace].
  rewrite !app_nil_r, Nat.add_0_r. repeat split.
  exists [e]. split; [reflexivity |]. intros _. simpl. now rewrite He.
Qed.

Lemma advances_mutation (w : World) (e : Event) :
  Props.advances false [] [] 0 w (mkWorld (results w) (trace w ++ [e])).
Proof.
  unfold Props.advances. cbn [results trace].
  rewrite !app_nil_r, Nat.add_0_r. repeat split.
  exists [e]. split; [reflexivity | discriminate].
Qed.

Lemma push_error_advances (quiet : bool) (handle error : string) (w : World) :
  exists w', push_error handle error w = (Returns tt, w')
             /\ Props.advances quiet [handle] [] 0 w w'.
Proof.
  eexists. split; [reflexivity |].
  unfold Props.advances.
  cbn [results trace errors success processed total format].
  rewrite map_app, app_nil_r, Nat.add_0_r. repeat split.
  exists []. now rewrite app_nil_r.
Qed.

Lemma push_success_advances (quiet : bool) (entry : Obj.t JsVal) (w : World) :
  exists w', push_success entry w = (Returns tt, w')
             /\ Props.advances quiet [] [Props.success_handle entry] 0 w w'.
Proof.
  eexists. split; [reflexivity |].
  unfold Props.advances.
  cbn [results trace errors success processed total format].
  rewrite map_app, app_nil_r, Nat.add_0_r. repeat split.
  exists []. now rewrite app_nil_r.
Qed.

Lemma incr_processed_advances (quiet : bool) (w : World) :
  exists w', incr_processed w = (Returns tt, w')
             /\ Props.advances quiet [] [] 1 w w'.
Proof.
  eexists. split; [reflexivity |].
  unfold Props.advances.
  cbn [results trace errors success processed total format].
  rewrite !app_nil_r. repeat split; try lia.
  exists []. now rewrite app_nil_r.
Qed.

(** The best-effort tag-add never fails and adds no entry. *)
Lemma add_import_tag_advances (admin : Admin) (product : Product) (w : World) :
  exists w', Executor.add_import_tag admin product w = (Returns tt, w')
             /\ Props.advances false [] [] 0 w w'.
Proof.
  unfold Executor.add_import_tag, try_catch, bindM, graphql_productUpdate, ret.
  destruct (negb (JS.mem Executor.csvImportTag (product_tags product))).
  - destruct (productUpdate admin (trace w) _ Executor.tries);
      eexists; (split; [reflexivity | apply advances_mutation]).
  - eexists. split; [reflexivity | apply advances_refl].
Qed.

Lemma processMetafields_settles
      (js : Platform) (admin : Admin) (product : Product)
      (metafieldsToSet : list Metafield) (handle : string) (dryRun : bool) :
  Props.settles dryRun admin handle
    (Executor.processMetafields js admin product metafieldsToSet handle dryRun).
Proof.
  intros w. unfold Executor.processMetafields, bindM, lift.
  destruct (Executor.check_metafields js product metafieldsToSet [] [])
    as [[validationErrors validMetafields] | message];
    [| split; [apply advances_refl | discriminate]].
  destruct (0 <? length validationErrors).
  { destruct (push_error_advances dryRun handle
                ("Validation errors: " ++ JS.join ", " validationErrors) w)
      as [w' [-> Hadv]]. now left. }
  destruct dryRun; cbn [negb andb].
  { destruct (push_success_advances true
                [("handle", VStr handle);
                 ("metafieldsToUpdate", VNum (length validMetafields));
                 ("productTitle", VStr (product_title product));
                 ("dryRun", VBool true)] w) as [w' [-> Hadv]].
    right. exact Hadv. }
  destruct (0 <? length validMetafields).
  - unfold graphql_metafieldsSet.
    destruct (metafieldsSet admin (trace w) validMetafields Executor.tries)
      as [userErrors | error] eqn:Hset.
    2:{ split; [apply advances_mutation |].
        intros (_ & Hloud & _) ->. exact (Hloud _ _ _ Hset). }
    set (w1 := mkWorld (results w)
                 (trace w ++ [Call (SET_METAFIELDS validMetafields)
                                   Executor.tries])).
    assert (H1 : Props.advances false [] [] 0 w w1) by apply advances_mutation.
    destruct (0 <? length userErrors).
    + destruct (push_error_advances false handle
                  ("Metafield update errors: " ++ JS.join ", " userErrors) w1)
        as [w' [-> Hadv]].
      left. exact (advances_trans H1 Hadv).
    + destruct (add_import_tag_advances admin product w1) as [w2 [-> H2]].
      match goal with
      | |- context [push_success ?entry w2] =>
          destruct (push_success_advances false entry w2) as [w' [-> Hadv]]
      end.
      right. exact (advances_trans (advances_trans H1 H2) Hadv).
  - match goal with
    | |- context [push_success ?entry w] =>
        destruct (push_success_advances false entry w) as [w' [-> Hadv]]
    end.
    right. exact Hadv.
Qed.

Lemma processProductProperties_settles
      (js : Platform) (admin : Admin) (product : Product)
      (productData : ProductRecord) (handle : string) (dryRun : bool) :
  Props.settles dryRun admin handle
    (Executor.processProductProperties js admin product productData handle
                                       dryRun).
Proof.
  intros w. unfold Executor.processProductProperties, bindM.
  destruct dryRun; cbn [negb].
  - match goal with
    | |- context [push_success ?entry w] =>
        destruct (push_success_advances true entry w) as [w' [-> Hadv]]
    end.
    right. exact Hadv.
  - unfold graphql_productUpdate.
    destruct (productUpdate admin (trace w) _ Executor.tries)
      as [payload | error] eqn:Hupdate.
    2:{ split; [apply advances_mutation |].
        intros (_ & _ & Hloud) ->. exact (Hloud _ _ _ Hupdate). }
    match goal with
    | |- context [mkWorld (results w) ?t] =>
        set (w1 := mkWorld (results w) t)
    end.
    assert (H1 : Props.advances false [] [] 0 w w1) by apply advances_mutation.
    destruct (0 <? length (pu_userErrors payload)).
    + match goal with
      | |- context [push_error ?h ?e w1] =>
          destruct (push_error_advances false h e w1) as [w' [-> Hadv]]
      end.
      left. exact (advances_trans H1 Hadv).
    + match goal with
      | |- context [push_success ?entry w1] =>
          destruct (push_success_advances false entry w1) as [w' [-> Hadv]]
      end.
      right. exact (advances_trans H1 Hadv).
Qed.

Lemma process_group_settles
      (js : Platform) (admin : Admin) (product : Product)
      (groupedData : Grouped) (handle : string) (dryRun : bool) :
  Props.settles dryRun admin handle
    (Executor.process_group js admin product groupedData handle dryRun).
Proof.
  unfold Executor.process_group.
  destruct groupedData as [grouped | grouped];
    destruct (Obj.get grouped handle).
  - apply processProductProperties_settles.
  - intros w. split; [apply advances_refl | discriminate].
  - apply processMetafields_settles.
  - intros w. split; [apply advances_refl | discriminate].
Qed.

(** The per-key operation adds at most one entry, under its key, and
    counts the key as processed at most once; it is rejected, with no
    entry, exactly when its handler throws, which takes a rejection
    without a message. *)
Lemma processHandle_settles_one
      (js : Platform) (admin : Admin) (groupedData : Grouped)
      (dryRun : bool) (handle : string) (w : World) :
  exists settled w' c fate,
    Executor.processHandle js admin groupedData dryRun handle w
    = (settled, w')
    /\ c <= 1
    /\ Props.advances dryRun (Props.keys_that Props.Failed [(handle, fate)])
                      (Props.keys_that Props.Succeeded [(handle, fate)])
                      c w w'
    /\ returned settled = negb (Props.fared Props.Rejected (handle, fate))
    /\ (Props.rejects_with_message admin -> fate <> Props.Rejected).
Proof.
  unfold Executor.processHandle, try_catch, bindM, graphql_product.
  set (w1 := mkWorld (results w)
               (trace w ++ [Call (GET_PRODUCT_BY_HANDLE handle)
                                 Executor.tries])).
  assert (H1 : Props.advances dryRun [] [] 0 w w1)
    by (apply advances_event; reflexivity).
  assert (Hcatch : forall error w2,
             Props.advances dryRun [] [] 0 w w2 ->
             (Props.rejects_with_message admin -> error <> NoMessage) ->
             exists settled w' c fate,
               match error with
               | Error message =>
                   ((if Executor.is_rate_limit message
                     then sleep (RETRY_DELAY RATE_LIMIT_CONFIG)
                     else ret tt) ;;;
                    push_error handle
                      ("Processing error: " ++ message))%exec
               | NoMessage =>
                   throw
                     "Cannot read properties of undefined (reading 'includes')"
               end w2
               = (settled, w')
               /\ c <= 1
               /\ Props.advances dryRun
                    (Props.keys_that Props.Failed [(handle, fate)])
                    (Props.keys_that Props.Succeeded [(handle, fate)])
                    c w w'
               /\ returned settled
                  = negb (Props.fared Props.Rejected (handle, fate))
               /\ (Props.rejects_with_message admin
                   -> fate <> Props.Rejected)).
  { intros [message |] w2 H2 Hloud.
    - unfold bindM.
      destruct (Executor.is_rate_limit message); cbn [sleep log ret].
      + match goal with
        | |- context [push_error ?h ?e ?w3] =>
            destruct (push_error_advances dryRun h e w3) as [w' [-> Hadv]];
            assert (H3 : Props.advances dryRun [] [] 0 w2 w3)
              by (apply advances_event; reflexivity)
        end.
        exists (Returns tt), w', 0, Props.Failed.
        split; [reflexivity |]. split; [lia |].
        split; [exact (advances_trans (advances_trans H2 H3) Hadv) |].
        split; [reflexivity | discriminate].
      + destruct (push_error_advances dryRun handle
                    ("Processing error: " ++ message) w2) as [w' [-> Hadv]].
        exists (Returns tt), w', 0, Props.Failed.
        split; [reflexivity |]. split; [lia |].
        split; [exact (advances_trans H2 Hadv) |].
        split; [reflexivity | discriminate].
    - eexists _, w2, 0, Props.Rejected.
      split; [reflexivity |]. split; [lia |].
      split; [exact H2 |].
      split; [reflexivity |].
      intros Hadmin. now destruct (Hloud Hadmin). }
  destruct (productByHandle admin (trace w) handle Executor.tries)
    as [[product |] | error] eqn:Hlookup.
  - pose proof (process_group_settles js admin product groupedData handle
                                      dryRun w1) as Hgroup.
    destruct (Executor.process_group js admin product groupedData handle
                                     dryRun w1) as [[[] | error] w2].
    + destruct (incr_processed_advances dryRun w2) as [w' [-> Hadv]].
      destruct Hgroup as [Hgroup | Hgroup].
      * exists (Returns tt), w', 1, Props.Failed.
        split; [reflexivity |]. split; [lia |].
        split; [exact (advances_trans (advances_trans H1 Hgroup) Hadv) |].
        split; [reflexivity | discriminate].
      * exists (Returns tt), w', 1, Props.Succeeded.
        split; [reflexivity |]. split; [lia |].
        split; [exact (advances_trans (advances_trans H1 Hgroup) Hadv) |].
        split; [reflexivity | discriminate].
    + destruct Hgroup as [Hgroup Hloud].
      apply Hcatch; [exact (advances_trans H1 Hgroup) | exact Hloud].
  - destruct (push_error_advances dryRun handle
                ("Product with handle '" ++ handle ++ "' not found") w1)
      as [w' [-> Hadv]].
    exists (Returns tt), w', 0, Props.Failed.
    split; [reflexivity |]. split; [lia |].
    split; [exact (advances_trans H1 Hadv) |].
    split; [reflexivity | discriminate].
  - apply Hcatch; [exact H1 |].
    intros (Hloud & _) ->. exact (Hloud _ _ _ Hlookup).
Qed.

Lemma keys_that_cons (fate : Props.Fate) (key : string * Props.Fate)
      (keys : list (string * Props.Fate)) :
  Props.keys_that fate (key :: keys)
  = Props.keys_that fate [key] ++ Props.keys_that fate keys.
Proof.
  unfold Props.keys_that. cbn [filter].
  now destruct (Props.fared fate key).
Qed.

Lemma keys_that_app (fate : Props.Fate) (xs ys : list (string * Props.Fate)) :
  Props.keys_that fate (xs ++ ys)
  = Props.keys_that fate xs ++ Props.keys_that fate ys.
Proof.
  unfold Props.keys_that. now rewrite filter_app, map_app.
Qed.

(** The operations of a batch: every key has its fate, and the batch
    is rejected exactly when one of its operations is. *)
Lemma runBatch_settles_batch
      (js : Platform) (admin : Admin) (groupedData : Grouped)
      (dryRun : bool) (batch : list string) :
  forall w,
    exists settled w' c fated,
      Executor.runBatch js admin groupedData dryRun batch w = (settled, w')
      /\ map fst fated = batch
      /\ c <= length batch
      /\ Props.advances dryRun (Props.keys_that Props.Failed fated)
                        (Props.keys_that Props.Succeeded fated) c w w'
      /\ returned settled = negb (existsb (Props.fared Props.Rejected) fated)
      /\ (Props.rejects_with_message admin
          -> existsb (Props.fared Props.Rejected) fated = false).
Proof.
  induction batch as [|handle batch IH]; intros w.
  - exists (Returns tt), w, 0, [].
    split; [reflexivity |]. split; [reflexivity |]. split; [lia |].
    split; [apply advances_refl |]. split; reflexivity.
  - cbn [Executor.runBatch].
    destruct (processHandle_settles_one js admin groupedData dryRun handle w)
      as (s1 & w1 & c1 & fate & -> & Hc1 & H1 & Hs1 & Hloud1).
    destruct (IH w1) as (s2 & w2 & c2 & fated & -> & Hkeys & Hc2 & H2
                         & Hs2 & Hloud2).
    exists (Executor.first_rejection s1 s2), w2, (c1 + c2),
           ((handle, fate) :: fated).
    split; [reflexivity |].
    split; [cbn [map fst]; now rewrite Hkeys |].
    split; [cbn [length]; lia |].
    split.
    { rewrite (keys_that_cons Props.Failed),
              (keys_that_cons Props.Succeeded).
      exact (advances_trans H1 H2). }
    split.
    { cbn [existsb].
      destruct s1 as [[] | error]; cbn [Executor.first_rejection returned] in *.
      - apply (f_equal negb) in Hs1. rewrite Bool.negb_involutive in Hs1.
        cbn [negb] in Hs1. rewrite <- Hs1. exact Hs2.
      - apply (f_equal negb) in Hs1. rewrite Bool.negb_involutive in Hs1.
        cbn [negb] in Hs1. now rewrite <- Hs1. }
    intros Hadmin. cbn [existsb]. rewrite (Hloud2 Hadmin).
    specialize (Hloud1 Hadmin). now destruct fate.
Qed.

(** A batch with its batch-level handler always settles. *)
Lemma awaitBatch_settles_batch
      (js : Platform) (admin : Admin) (groupedData : Grouped)
      (dryRun : bool) (batch : list string) (batchIndex : nat) (w : World) :
  exists w' c fated,
    Executor.awaitBatch js admin groupedData dryRun batch batchIndex w
    = (Returns tt, w')
    /\ map fst fated = batch
    /\ c <= length batch
    /\ Props.advances dryRun (Props.batch_error_handles fated)
                      (Props.keys_that Props.Succeeded fated) c w w'
    /\ (Props.rejects_with_message admin
        -> existsb (Props.fared Props.Rejected) fated = false).
Proof.
  unfold Executor.awaitBatch, try_catch, Props.batch_error_handles.
  destruct (runBatch_settles_batch js admin groupedData dryRun batch w)
    as (settled & w1 & c & fated & -> & Hkeys & Hc & H1 & Hs & Hloud).
  destruct settled as [[] | error]; cbn [returned] in Hs.
  - exists w1, c, fated. split; [reflexivity |].
    split; [exact Hkeys |]. split; [exact Hc |].
    split; [| exact Hloud].
    apply (f_equal negb) in Hs. rewrite Bool.negb_involutive in Hs.
    cbn [negb] in Hs. rewrite <- Hs, app_nil_r. exact H1.
  - match goal with
    | |- context [push_error ?h ?e w1] =>
        destruct (push_error_advances dryRun h e w1) as [w' [-> Hadv]]
    end.
    exists w', c, fated. split; [reflexivity |].
    split; [exact Hkeys |]. split; [exact Hc |].
    split; [| exact Hloud].
    apply (f_equal negb) in Hs. rewrite Bool.negb_involutive in Hs.
    cbn [negb] in Hs. rewrite <- Hs.
    pose proof (advances_trans H1 Hadv) as H.
    now rewrite app_nil_r, Nat.add_0_r in H.
Qed.

(** The batch loop always returns: no rejection of an operation leaves
    it. *)
Lemma runBatches_settles_all
      (js : Platform) (admin : Admin) (groupedData : Grouped)
      (dryRun : bool) (optimalBatchSize totalBatches : nat)
      (batches : list (list string)) :
  forall batchIndex w,
    exists w' c fated,
      Executor.runBatches js admin groupedData dryRun optimalBatchSize
                          batches batchIndex totalBatches w
      = (Returns tt, w')
      /\ map (map fst) fated = batches
      /\ c <= Props.keys_in batches
      /\ Props.advances dryRun
           (concat (map Props.batch_error_handles fated))
           (Props.keys_that Props.Succeeded (concat fated)) c w w'
      /\ (Props.rejects_with_message admin
          -> existsb (Props.fared Props.Rejected) (concat fated) = false).
Proof.
  unfold Props.keys_in.
  induction batches as [|batch batches IH]; intros batchIndex w.
  - exists w, 0, []. split; [reflexivity |]. split; [reflexivity |].
    split; [cbn; lia |]. split; [apply advances_refl | reflexivity].
  - cbn [Executor.runBatches]. unfold bindM.
    destruct (awaitBatch_settles_batch js admin groupedData dryRun batch
                                       batchIndex w)
      as (w1 & c1 & fated1 & -> & Hkeys1 & Hc1 & H1 & Hloud1).
    assert (Hpause : exists w2,
               (if batchIndex <? totalBatches - 1
                then sleep (calculateDelay batchIndex totalBatches
                                           optimalBatchSize)
                else ret tt) w1 = (Returns tt, w2)
               /\ Props.advances dryRun [] [] 0 w1 w2).
    { destruct (batchIndex <? totalBatches - 1).
      - eexists. split; [reflexivity |]. now apply advances_event.
      - eexists. split; [reflexivity |]. apply advances_refl. }
    destruct Hpause as (w2 & -> & H2).
    destruct (IH (S batchIndex) w2)
      as (w3 & c3 & fated & -> & Hkeys & Hc3 & H3 & Hloud).
    exists w3, (c1 + 0 + c3), (fated1 :: fated). split; [reflexivity |].
    split; [cbn [map]; now rewrite Hkeys1, Hkeys |].
    cbn [concat map]. rewrite length_app.
    split; [lia |].
    split.
    + pose proof (advances_trans (advances_trans H1 H2) H3) as H.
      now rewrite !app_nil_r, keys_that_app in *.
    + intros Hadmin. now rewrite existsb_app, Hloud1, Hloud.
Qed.

Lemma getOptimalBatchSize_positive (totalItems : nat) :
  0 < getOptimalBatchSize totalItems.
Proof.
  unfold getOptimalBatchSize, optimalBatchSize.
  destruct (totalItems <? _); [lia |].
  destruct (totalItems <? _); [lia |].
  destruct (totalItems <? _); lia.
Qed.

Lemma createBatches_covers {A} (items : list A) (batchSize : nat) :
  0 < batchSize ->
  exists batches,
    createBatches items batchSize = Some batches
    /\ concat batches = items.
Proof.
  intros Hpos.
  destruct (@Batching.loop_spec A items batchSize Hpos (length items) 0 [])
    as [rest [Hrun [Hcat _]]]; [lia |].
  exists rest. split; [exact Hrun | exact Hcat].
Qed.

(** What every run of [action] satisfies. *)
Lemma action_runs (js : Platform) (admin : Admin) (file : option string)
      (dryRun : bool) :
  exists response events,
    Executor.action js admin file dryRun = Some (response, events)
    /\ (dryRun = true -> existsb is_mutation events = false)
    /\ (forall details,
          response = Executor.ServerError details ->
          events = []
          /\ exists fileText,
               file = Some fileText
               /\ (parseCSV js fileText dryRun = Throws details
                   \/ exists csvData,
                        parseCSV js fileText dryRun = Returns csvData
                        /\ groupDataByHandle (csv_data csvData)
                           = Throws details))
    /\ (forall results flag,
          response = Executor.Completed results flag ->
          exists fileText csvData groupedData batches fated,
            file = Some fileText
            /\ parseCSV js fileText dryRun = Returns csvData
            /\ groupDataByHandle (csv_data csvData) = Returns groupedData
            /\ createBatches (grouped_keys groupedData)
                 (getOptimalBatchSize (length (grouped_keys groupedData)))
               = Some batches
            /\ map (map fst) fated = batches
            /\ map e_handle (errors results)
               = concat (map Props.batch_error_handles fated)
            /\ map Props.success_handle (success results)
               = Props.keys_that Props.Succeeded (concat fated)
            /\ (Props.rejects_with_message admin
                -> existsb (Props.fared Props.Rejected) (concat fated)
                   = false)
            /\ flag = dryRun
            /\ total results = length (grouped_keys groupedData)
            /\ processed results <= total results).
Proof.
  unfold Executor.action.
  destruct file as [fileText |];
    [| do 2 eexists; split; [reflexivity |]; split; [reflexivity |];
       split; intros; discriminate].
  destruct (parseCSV js fileText dryRun) as [csvData | message] eqn:Hparse.
  2:{ do 2 eexists. split; [reflexivity |]. split; [reflexivity |].
      split; [| intros; discriminate].
      intros details [= <-]. split; [reflexivity |].
      exists fileText. split; [reflexivity |]. now left. }
  destruct (0 <? length (csv_errors csvData));
    [do 2 eexists; split; [reflexivity |]; split; [reflexivity |];
     split; intros; discriminate |].
  destruct (groupDataByHandle (csv_data csvData))
    as [groupedData | message] eqn:Hgroup.
  2:{ do 2 eexists. split; [reflexivity |]. split; [reflexivity |].
      split; [| intros; discriminate].
      intros details [= <-]. split; [reflexivity |].
      exists fileText. split; [reflexivity |]. right.
      exists csvData. now split. }
  set (handles := grouped_keys groupedData).
  destruct (length handles =? 0);
    [do 2 eexists; split; [reflexivity |]; split; [reflexivity |];
     split; intros; discriminate |].
  destruct (negb dryRun && (50 <? length handles));
    [do 2 eexists; split; [reflexivity |]; split; [reflexivity |];
     split; intros; discriminate |].
  destruct (createBatches_covers handles
              (getOptimalBatchSize_positive (length handles)))
    as [batches [Hbatches Hcover]].
  rewrite Hbatches.
  match goal with
  | |- context [Executor.runBatches js admin groupedData dryRun ?size
                                    batches 0 ?n ?w0] =>
      destruct (runBatches_settles_all js admin groupedData dryRun size n
                                       batches 0 w0)
        as (w' & c & fated & -> & Hkeys & Hc & Hadv & Hloud)
  end.
  unfold Props.keys_in in *. rewrite Hcover in *.
  destruct Hadv as (He & Hs & Hp & Ht & Hf & added & Ha & Hq).
  cbn [results trace processed total errors success map Datatypes.app] in *.
  do 2 eexists. split; [reflexivity |]. split.
  { intros Hd. rewrite Ha. exact (Hq Hd). }
  split; [intros; discriminate |].
  intros results flag [= <- <-].
  exists fileText, csvData, groupedData, batches, fated.
  repeat (split; [first [reflexivity | assumption] |]).
  lia.
Qed.

(** X5.  [action] always answers, and nothing that happens in the batch
    loop turns the answer into a server error: the batch size is
    positive, so the batching loop terminates, and a rejected remote
    call or a per-key handler that throws is caught inside the loop.
    A status-500 answer therefore comes from parsing or grouping alone,
    before any remote call. *)
Theorem action_always_answers :
  forall (js : Platform) (admin : Admin) (file : option string)
         (dryRun : bool),
    exists response events,
      Executor.action js admin file dryRun = Some (response, events)
      /\ forall details,
           response = Executor.ServerError details ->
           events = []
           /\ exists fileText,
                file = Some fileText
                /\ (parseCSV js fileText dryRun = Throws details
                    \/ exists csvData,
                         parseCSV js fileText dryRun = Returns csvData
                         /\ groupDataByHandle (csv_data csvData)
                            = Throws details).
Proof.
  intros js admin file dryRun.
  destruct (action_runs js admin file dryRun) as (r & e & H & _ & Hfail & _).
  exists r, e. now split.
Qed.

(** X6.  A dry run never issues a mutation: whatever the input, the
    host and the remote store, the remote calls of [action] with the
    dry-run flag set are lookups only. *)
Theorem dry_run_never_mutates :
  forall (js : Platform) (admin : Admin) (file : option string)
         (response : Executor.Response) (events : list Event),
    Executor.action js admin file true = Some (response, events) ->
    existsb is_mutation events = false.
Proof.
  intros js admin file response events H.
  destruct (action_runs js admin file true) as (r & e & Hrun & Hquiet & _).
  rewrite Hrun in H. injection H as <- <-. now apply Hquiet.
Qed.

Lemma dry_run_never_mutates_witness :
  exists response events,
    Executor.action Examples.host (Examples.store Examples.catalog)
                    (Some Examples.long_table_a) true
    = Some (response, events)
    /\ existsb is_mutation events = false.
Proof.
  do 2 eexists. split; [vm_compute; reflexivity |].
  eapply (@dry_run_never_mutates Examples.host
            (Examples.store Examples.catalog) (Some Examples.long_table_a)).
  vm_compute. reflexivity.
Defined.



End ExecutorFacts.

(* ================================================================== *)
(** * processMetafields: invalid values and the best-effort tag-add *)
(* ================================================================== *)

Module MetafieldFacts.

Import CsvProcessor Remote.

(** The [forEach] of [processMetafields] adds one message per failing
    field, in group order, to the errors it starts with. *)
Lemma check_lists_invalid (js : Platform) (product : Product)
      (metafieldsToSet : list Metafield) :
  forall validationErrors validMetafields errors' valid',
    Executor.check_metafields js product metafieldsToSet
                              validationErrors validMetafields
    = Returns (errors', valid') ->
    errors'
    = validationErrors
      ++ map Props.invalid_value_message
             (Props.invalid_values js metafieldsToSet).
Proof.
  unfold Props.invalid_values.
  induction metafieldsToSet as [|m rest IH];
    intros validationErrors validMetafields errors' valid' H;
    cbn [Executor.check_metafields] in H.
  - injection H as <- _. cbn. now rewrite app_nil_r.
  - cbn [filter].
    destruct (negb (validateMetafieldValue js (mf_value m) (mf_type m))).
    + rewrite (IH _ _ _ _ H). cbn [map]. now rewrite <- app_assoc.
    + destruct (formatMetafieldValue js (mf_value m) (mf_type m));
        cbn [bind] in H; [| discriminate].
      exact (IH _ _ _ _ H).
Qed.

Lemma check_finds_invalid (js : Platform) (product : Product)
      (metafieldsToSet : list Metafield) (bad : Metafield) :
  In bad metafieldsToSet ->
  validateMetafieldValue js (mf_value bad) (mf_type bad) = false ->
  forall validationErrors validMetafields errors' valid',
    Executor.check_metafields js product metafieldsToSet
                              validationErrors validMetafields
    = Returns (errors', valid') ->
    errors' <> [].
Proof.
  intros Hin Hbad validationErrors validMetafields errors' valid' H.
  rewrite (check_lists_invalid _ _ _ _ _ H).
  assert (Hlisted : In bad (Props.invalid_values js metafieldsToSet)).
  { unfold Props.invalid_values. apply filter_In.
    split; [exact Hin | now rewrite Hbad]. }
  destruct (Props.invalid_values js metafieldsToSet); [contradiction |].
  cbn [map]. intros Hnil. now apply app_eq_nil in Hnil as [_ Hnil].
Qed.

(** It throws only what the formatting of a field that passed the
    validation throws. *)
Lemma check_throws_on_format (js : Platform) (product : Product)
      (metafieldsToSet : list Metafield) :
  forall validationErrors validMetafields message,
    Executor.check_metafields js product metafieldsToSet
                              validationErrors validMetafields
    = Throws message ->
    exists good,
      In good metafieldsToSet
      /\ validateMetafieldValue js (mf_value good) (mf_type good) = true
      /\ formatMetafieldValue js (mf_value good) (mf_type good)
         = Throws message.
Proof.
  induction metafieldsToSet as [|m rest IH];
    intros validationErrors validMetafields message H;
    cbn [Executor.check_metafields] in H; [discriminate |].
  destruct (validateMetafieldValue js (mf_value m) (mf_type m)) eqn:Hvalid;
    cbn [negb] in H.
  - destruct (formatMetafieldValue js (mf_value m) (mf_type m)) eqn:Hformat;
      cbn [bind] in H.
    + destruct (IH _ _ _ H) as (good & Hin & Hgood).
      exists good. split; [now right | exact Hgood].
    + injection H as <-. exists m. split; [now left | now split].
  - destruct (IH _ _ _ H) as (good & Hin & Hgood).
    exists good. split; [now right | exact Hgood].
Qed.

(** X8.  A group holding a value that fails the validation of its
    declared type is never sent: [processMetafields] makes no remote
    call and records no success.  Either the formatting of a field that
    passed the validation throws, and nothing is recorded; or the
    function records one error under the key whose text lists, in group
    order, exactly the fields of the group that fail the validation,
    each with its value and type. *)
Theorem invalid_value_blocks_the_group :
  forall (js : Platform) (admin : Admin) (product : Product)
         (metafieldsToSet : list Metafield) (handle : string)
         (dryRun : bool) (w : World) (bad : Metafield),
    In bad metafieldsToSet ->
    validateMetafieldValue js (mf_value bad) (mf_type bad) = false ->
    (exists message good,
        In good metafieldsToSet
        /\ validateMetafieldValue js (mf_value good) (mf_type good) = true
        /\ formatMetafieldValue js (mf_value good) (mf_type good)
           = Throws message
        /\ Executor.processMetafields js admin product metafieldsToSet handle
                                      dryRun w
           = (Throws (Error message), w))
    \/ (In bad (Props.invalid_values js metafieldsToSet)
        /\ Executor.processMetafields js admin product metafieldsToSet
                                     handle dryRun w
           = (Returns tt,
              mkWorld
                (mkResults (processed (results w))
                   (errors (results w)
                    ++ [mkError handle
                          ("Validation errors: "
                           ++ JS.join ", "
                                (map Props.invalid_value_message
                                     (Props.invalid_values
                                        js metafieldsToSet)))])
                   (success (results w)) (total (results w))
                   (format (results w)))
                (trace w))).
Proof.
  intros js admin product metafieldsToSet handle dryRun w bad Hin Hbad.
  assert (Hlisted : In bad (Props.invalid_values js metafieldsToSet)).
  { unfold Props.invalid_values. apply filter_In.
    split; [exact Hin | now rewrite Hbad]. }
  unfold Executor.processMetafields, bindM, lift.
  destruct (Executor.check_metafields js product metafieldsToSet [] [])
    as [[validationErrors validMetafields] | message] eqn:Hcheck.
  - right. split; [exact Hlisted |].
    apply check_lists_invalid in Hcheck. cbn [Datatypes.app] in Hcheck.
    subst validationErrors.
    destruct (Props.invalid_values js metafieldsToSet) as [|e es];
      [contradiction |].
    reflexivity.
  - left. destruct (check_throws_on_format _ _ _ _ _ Hcheck)
      as (good & Hgood & Hvalid & Hformat).
    exists message, good. repeat split; assumption.
Qed.

Lemma invalid_value_blocks_the_group_witness :
  Executor.processMetafields Examples.host
    (Examples.store Examples.catalog) Examples.red_board
    [mkMetafield "custom" "color" "red" "single_line_text_field";
     mkMetafield "custom" "size" "12.3" "number_integer"]
    "red-board" false (mkWorld (mkResults 0 [] [] 1 metafields) [])
  = (Returns tt,
     mkWorld
       (mkResults 0
          [mkError "red-board"
             "Validation errors: Invalid value '12.3' for type 'number_integer'"]
          [] 1 metafields)
       []).
Proof.
  destruct (@invalid_value_blocks_the_group Examples.host
              (Examples.store Examples.catalog) Examples.red_board
              [mkMetafield "custom" "color" "red" "single_line_text_field";
               mkMetafield "custom" "size" "12.3" "number_integer"]
              "red-board" false (mkWorld (mkResults 0 [] [] 1 metafields) [])
              (mkMetafield "custom" "size" "12.3" "number_integer"))
    as [(message & good & _ & _ & _ & Hthrow) | [_ Hreturn]].
  - right. now left.
  - reflexivity.
  - vm_compute in Hthrow. discriminate Hthrow.
  - rewrite Hreturn. vm_compute. reflexivity.
Defined.

(** X9.  Once the metafield update of a group has gone through, the
    key is recorded as a success whatever becomes of the tag-add that
    follows; and when the product already carries the import tag no
    further call is made at all. *)
Theorem tag_add_never_fails_the_key :
  forall (js : Platform) (admin : Admin) (product : Product)
         (metafieldsToSet : list Metafield) (handle : string) (w : World)
         (validMetafields : list MetafieldInput),
    Executor.check_metafields js product metafieldsToSet [] []
    = Returns ([], validMetafields) ->
    validMetafields <> [] ->
    metafieldsSet admin (trace w) validMetafields Executor.tries
    = Returns [] ->
    exists w',
      Executor.processMetafields js admin product metafieldsToSet handle
                                 false w
      = (Returns tt, w')
      /\ results w'
         = mkResults (processed (results w)) (errors (results w))
             (success (results w)
              ++ [[ ("handle", VStr handle);
                    ("metafieldsUpdated", VNum (length validMetafields));
                    ("productTitle", VStr (product_title product)) ]])
             (total (results w)) (format (results w))
      /\ (JS.mem Executor.csvImportTag (product_tags product) = true ->
          trace w'
          = trace w ++ [Call (SET_METAFIELDS validMetafields) Executor.tries]).
Proof.
  intros js admin product metafieldsToSet handle w validMetafields
         Hcheck Hne Hset.
  unfold Executor.processMetafields, bindM, lift. rewrite Hcheck.
  cbn [length Nat.ltb Nat.leb negb andb].
  destruct validMetafields as [|v vs]; [congruence |].
  cbn [length Nat.ltb Nat.leb].
  unfold graphql_metafieldsSet. rewrite Hset.
  cbn [length Nat.ltb Nat.leb].
  unfold Executor.add_import_tag, try_catch, bindM, graphql_productUpdate, ret.
  destruct (JS.mem Executor.csvImportTag (product_tags product)) eqn:Htag;
    cbn [negb].
  - eexists. split; [reflexivity |]. split; [reflexivity |].
    intros _. reflexivity.
  - destruct (productUpdate admin _ _ Executor.tries);
      (eexists; split; [reflexivity |]; split; [reflexivity |];
       intros [=]).
Qed.

Lemma tag_add_never_fails_the_key_witness :
  exists w',
    Executor.processMetafields Examples.host Props.tag_update_fails
      Examples.red_board
      [mkMetafield "custom" "color" "red" "single_line_text_field"]
      "red-board" false (mkWorld (mkResults 0 [] [] 1 metafields) [])
    = (Returns tt, w')
    /\ success (results w')
       = [[ ("handle", VStr "red-board");
            ("metafieldsUpdated", VNum 1);
            ("productTitle", VStr "Red Board") ]]
    /\ errors (results w') = [].
Proof.
  destruct (@tag_add_never_fails_the_key Examples.host Props.tag_update_fails
              Examples.red_board
              [mkMetafield "custom" "color" "red" "single_line_text_field"]
              "red-board" (mkWorld (mkResults 0 [] [] 1 metafields) [])
              [mkMetafieldInput "gid://shopify/Product/1" "custom" "color"
                                "red" "single_line_text_field"])
    as (w' & Hrun & Hres & _).
  - vm_compute. reflexivity.
  - discriminate.
  - reflexivity.
  - exists w'. split; [exact Hrun |]. rewrite Hres. split; reflexivity.
Defined.

End MetafieldFacts.

(* ================================================================== *)
(** * processProductProperties: the merged tag list *)
(* ================================================================== *)

Module TagFacts.

Import CsvProcessor Remote ObjFacts.




End TagFacts.

(* ================================================================== *)
(** * The parsing front end *)
(* ================================================================== *)

Module ParsingFacts.

Import CsvProcessor Remote.

Lemma prefix_app (a b : string) : String.prefix a (a ++ b) = true.
Proof.
  induction a as [|c a IH]; simpl; [now destruct b |].
  destruct (ascii_dec c c); [exact IH | congruence].
Qed.

Lemma parseCSV_cases (js : Platform) (fileText : string) (preview : bool) :
  match parseCSV js fileText preview with
  | Returns csvData => csv_errors csvData = []
  | Throws message => String.prefix "Failed to parse CSV: " message = true
  end.
Proof.
  unfold parseCSV.
  set (csvText := limitPreview preview (cleanCSV fileText)).
  destruct (match Papa_parse js PapaStandard csvText with
            | Returns results => Returns results
            | Throws _ => Papa_parse js PapaFallback csvText
            end) as [results | message]; cbn [bind];
    [| apply prefix_app].
  destruct (0 <? length (papa_errors results)) eqn:Herr;
    [apply prefix_app |].
  destruct (validateCSVData (papa_data results) preview); cbn [bind];
    [| apply prefix_app].
  cbn [csv_errors]. apply Nat.ltb_ge in Herr.
  destruct (papa_errors results); [reflexivity | cbn in Herr; lia].
Qed.

(** X11.  [parseCSV] returns only when the parser reported no error,
    so the error list of a returned result is empty, and every failure
    it throws, whatever its origin, is announced as a parsing failure;
    the answer [CSV parsing errors] of [action] is therefore never
    given. *)
Theorem parseCSV_returns_without_parser_errors :
  forall (js : Platform) (fileText : string) (preview : bool),
    match parseCSV js fileText preview with
    | Returns csvData => csv_errors csvData = []
    | Throws message => String.prefix "Failed to parse CSV: " message = true
    end
    /\ forall (admin : Admin) (events : list Event),
         Executor.action js admin (Some fileText) preview
         <> Some (Executor.BadRequest "CSV parsing errors", events).
Proof.
  intros js fileText preview.
  pose proof (parseCSV_cases js fileText preview) as Hparse.
  split; [exact Hparse |].
  intros admin events. unfold Executor.action.
  destruct (parseCSV js fileText preview) as [csvData | message];
    [| discriminate].
  rewrite Hparse. cbn [length Nat.ltb Nat.leb].
  destruct (groupDataByHandle (csv_data csvData)); [| discriminate].
  destruct (length (grouped_keys _) =? 0); [discriminate |].
  destruct (negb preview && _); [discriminate |].
  destruct (createBatches _ _); [| discriminate].
  destruct (Executor.runBatches _ _ _ _ _ _ _ _ _) as [[] ?]; discriminate.
Qed.

Section QuoteFree.

Lemma split_keeps_absent (a sep : ascii) (s : string) :
  JS.count_char a s = 0 ->
  Forall (fun piece => JS.count_char a piece = 0) (JS.split sep s).
Proof.
  induction s as [|c s IH]; intros H; cbn [JS.split].
  - repeat constructor.
  - cbn [JS.count_char] in H.
    assert (Hc : (if Ascii.eqb c a then 1 else 0) = 0) by lia.
    assert (Hs : JS.count_char a s = 0) by lia.
    specialize (IH Hs).
    destruct (Ascii.eqb c sep).
    + constructor; [reflexivity | exact IH].
    + destruct (JS.split sep s) as [|w ws].
      * repeat constructor. cbn [JS.count_char]. lia.
      * inversion IH as [| x xs Hw Hws]; subst.
        constructor; [cbn [JS.count_char]; lia | exact Hws].
Qed.

Lemma fix_steps_push (lines : list string) :
  Forall (fun line => JS.count_char dquote line = 0) lines ->
  forall fixedLines,
    fold_left fixMultiline_step lines
              (mkMultiline fixedLines EmptyString false 0)
    = mkMultiline (fixedLines ++ lines) EmptyString false 0.
Proof.
  induction 1 as [|line lines Hline Hlines IH]; intros fixedLines;
    cbn [fold_left].
  - now rewrite app_nil_r.
  - unfold fixMultiline_step at 2.
    cbn [quoteCount inQuotedField currentLine CsvProcessor.fixedLines].
    rewrite Hline. cbn [Nat.add Nat.odd Nat.even orb negb].
    rewrite IH, <- app_assoc. reflexivity.
Qed.

End QuoteFree.

(** X12.  [fixMultilineCSV] leaves a text without double quotes as it
    is. *)
Theorem fixMultilineCSV_keeps_quote_free_text :
  forall csvText : string,
    JS.count_char dquote csvText = 0 ->
    fixMultilineCSV csvText = csvText.
Proof.
  intros csvText Hfree. unfold fixMultilineCSV.
  rewrite (fix_steps_push (split_keeps_absent dquote nl csvText Hfree) []).
  cbn [currentLine nonempty CsvProcessor.fixedLines Datatypes.app].
  apply Preview.join_split.
Qed.

Lemma fixMultilineCSV_keeps_quote_free_text_witness :
  JS.count_char dquote Examples.scenario_A = 0
  /\ fixMultilineCSV Examples.scenario_A = Examples.scenario_A.
Proof.
  split; [reflexivity |].
  apply fixMultilineCSV_keeps_quote_free_text. reflexivity.
Defined.

Lemma replace_absent (pat rep s : string) :
  JS.includes s pat = false -> JS.replaceAll pat rep s = s.
Proof.
  unfold JS.replaceAll.
  induction s as [|c s IH]; intros H; [reflexivity |].
  cbn [JS.includes] in H. apply orb_false_iff in H as [Hpre Hrest].
  cbn [JS.replace_go]. rewrite Hpre, IH by exact Hrest. reflexivity.
Qed.

Lemma ascii_has_no_high_pattern (p : ascii) (pat s : string) :
  128 <= JS.code p ->
  Props.ascii_only s ->
  JS.includes s (String p pat) = false.
Proof.
  intros Hp. unfold Props.ascii_only.
  induction s as [|c s IH]; intros Hs; cbn [JS.includes].
  - reflexivity.
  - destruct Hs as [Hc Hs]. rewrite (IH Hs), orb_false_r.
    cbn [String.prefix].
    destruct (ascii_dec p c) as [-> | _]; [lia | reflexivity].
Qed.

(** X13.  [fixEncodingIssues] leaves every pure-ASCII text that does
    not contain a question mark followed by [g] as it is. *)
Theorem fixEncodingIssues_keeps_plain_ascii :
  forall text : string,
    Props.ascii_only text ->
    JS.includes text "?g" = false ->
    fixEncodingIssues text = text.
Proof.
  intros text Hascii Hq. unfold fixEncodingIssues.
  destruct (negb (nonempty text)); [reflexivity |].
  assert (Hhigh : forall n rest,
             128 <= n < 256 ->
             JS.includes text (String (ascii_of_nat n) rest) = false).
  { intros n rest Hn. apply ascii_has_no_high_pattern; [| exact Hascii].
    unfold JS.code. rewrite nat_ascii_embedding; lia. }
  cbv zeta.
  rewrite (replace_absent "?g" mu_g text Hq).
  rewrite (replace_absent replacement_g mu_g text)
    by (exact (Hhigh 239 (bytes [191; 189; 103]) ltac:(lia))).
  rewrite (replace_absent A_circumflex EmptyString text)
    by (exact (Hhigh 195 (bytes [130]) ltac:(lia))).
  rewrite (replace_absent a_euro_tm "'" text)
    by (exact (Hhigh 195 (bytes [162; 226; 130; 172; 226; 132; 162])
                     ltac:(lia))).
  rewrite (replace_absent a_euro_oe (chr dquote) text)
    by (exact (Hhigh 195 (bytes [162; 226; 130; 172; 197; 147]) ltac:(lia))).
  rewrite (replace_absent a_euro (chr dquote) text)
    by (exact (Hhigh 195 (bytes [162; 226; 130; 172]) ltac:(lia))).
  rewrite (replace_absent a_euro_quote en_dash text)
    by (exact (Hhigh 195 (bytes [162; 226; 130; 172; 34]) ltac:(lia))).
  apply replace_absent.
  exact (Hhigh 195 (bytes [162; 226; 130; 172; 34]) ltac:(lia)).
Qed.

Lemma fixEncodingIssues_keeps_plain_ascii_witness :
  Props.ascii_only "5 ug/mL in methanol?"
  /\ JS.includes "5 ug/mL in methanol?" "?g" = false
  /\ fixEncodingIssues "5 ug/mL in methanol?" = "5 ug/mL in methanol?".
Proof.
  assert (Hascii : Props.ascii_only "5 ug/mL in methanol?").
  { unfold Props.ascii_only. cbn [Spec.each_char].
    repeat split; vm_compute; repeat constructor. }
  split; [exact Hascii |]. split; [reflexivity |].
  apply fixEncodingIssues_keeps_plain_ascii; [exact Hascii | reflexivity].
Defined.

End ParsingFacts.

(* ================================================================== *)
(** * Value validation: decimals and colours *)
(* ================================================================== *)

Module ValueFacts.

Import Regex RegexFacts CsvProcessor ValueValidation.

Lemma digits_each (s : string) :
  Matches (Star digit) s <-> Spec.each_char Spec.decimal_digit s.
Proof.
  rewrite <- (each_char_iff (fun c => JS.is_digit c = true)
                            Spec.decimal_digit s is_digit_spec).
  split.
  - intros H. now apply (star_class_each H).
  - apply each_star_class.
Qed.

Lemma digits_plus (s : string) :
  Matches (Plus digit) s <-> Spec.digit_string s.
Proof.
  rewrite <- re_digits_spec. symmetry. apply test_spec.
Qed.

Lemma chr_spec (a : ascii) (s : string) :
  Matches (Chr a) s <-> s = String a EmptyString.
Proof.
  unfold Chr. split.
  - intros H. inversion H as [ | p c Hp | | | | | ]; subst.
    unfold JS.is_char in Hp. apply Ascii.eqb_eq in Hp. now subst.
  - intros ->. constructor. apply Ascii.eqb_refl.
Qed.

Lemma re_decimal_spec (s : string) :
  test re_decimal s = true <-> Props.decimal_string s.
Proof.
  rewrite test_spec. unfold re_decimal, Props.decimal_string. split.
  - intros H.
    inversion H as [ | | r1 r2 sign tail Hsign Htail | | | | ]; subst.
    inversion Htail as [ | | r1 r2 whole tail' Hwhole Htail' | | | | ]; subst.
    inversion Htail' as [ | | r1 r2 dot frac Hdot Hfrac | | | | ]; subst.
    apply opt_chr_spec in Hsign. apply opt_chr_spec in Hdot.
    apply digits_each in Hwhole. apply digits_plus in Hfrac.
    exists sign, whole, frac.
    split; [exact Hsign |]. split; [exact Hwhole |]. split; [exact Hfrac |].
    destruct Hdot as [-> | ->]; [left | right]; reflexivity.
  - intros (sign & whole & frac & Hsign & Hwhole & Hfrac & Hs).
    apply opt_chr_spec in Hsign.
    apply digits_each in Hwhole. apply digits_plus in Hfrac.
    destruct Hs as [-> | ->].
    + constructor; [exact Hsign |]. constructor; [exact Hwhole |].
      change frac with (EmptyString ++ frac)%string.
      constructor; [apply opt_chr_spec; now left | exact Hfrac].
    + constructor; [exact Hsign |]. constructor; [exact Hwhole |].
      change ("." ++ frac)%string
        with (String "." EmptyString ++ frac)%string.
      constructor; [apply opt_chr_spec; now right | exact Hfrac].
Qed.

(** X14.  Under the declared type [number_decimal] a value is accepted
    exactly when it is an optional minus, then digits, then either one
    more digit at least or a dot followed by one digit at least: a
    leading dot is accepted, a trailing dot is not.  Every value
    accepted as an integer is accepted as a decimal. *)
Theorem decimal_validation_accepts_digits_with_optional_fraction :
  forall (js : Platform) (value : string),
    (validateMetafieldValue js value "number_decimal" = true
     <-> Props.decimal_string value)
    /\ (validateMetafieldValue js value "number_integer" = true ->
        validateMetafieldValue js value "number_decimal" = true).
Proof.
  intros js value.
  assert (Hdec : validateMetafieldValue js value "number_decimal" = true
                 <-> Props.decimal_string value).
  { unfold validateMetafieldValue. cbn [String.eqb Ascii.eqb Bool.eqb].
    apply re_decimal_spec. }
  split; [exact Hdec |].
  intros Hint. apply Hdec.
  unfold validateMetafieldValue in Hint.
  cbn [String.eqb Ascii.eqb Bool.eqb] in Hint.
  apply re_integer_spec in Hint as [ds [Hds Hs]].
  destruct Hs as [-> | ->].
  - exists EmptyString, EmptyString, ds.
    split; [now left |]. split; [exact I |]. split; [exact Hds |]. now left.
  - exists "-", EmptyString, ds.
    split; [now right |]. split; [exact I |]. split; [exact Hds |]. now left.
Qed.

Lemma hex_char_spec (c : ascii) :
  hex_char c = true <-> Props.hex_digit_char c.
Proof.
  split.
  - destruct c as [[] [] [] [] [] [] [] []]; vm_compute; intros H;
      try discriminate H;
      repeat first [left; reflexivity | right].
  - unfold Props.hex_digit_char. simpl. intros H.
    repeat (destruct H as [<- | H]; [reflexivity |]). contradiction.
Qed.

Lemma times_class_spec (p : ascii -> bool) (n : nat) :
  forall s,
    Matches (Times n (Class p)) s
    <-> String.length s = n /\ Spec.each_char (fun c => p c = true) s.
Proof.
  induction n as [|n IH]; intros s; cbn [Times].
  - split.
    + intros H. inversion H. now split.
    + intros [Hlen _]. destruct s; [constructor | discriminate].
  - split.
    + intros H. inversion H as [ | | r1 r2 s1 s2 H1 H2 | | | | ]; subst.
      inversion H1; subst. apply IH in H2 as [Hlen Hall].
      cbn. split; [now rewrite Hlen | now split].
    + intros [Hlen Hall]. destruct s as [|c s]; [discriminate |].
      cbn in Hlen, Hall. destruct Hall as [Hc Hs].
      change (String c s) with (String c EmptyString ++ s)%string.
      constructor; [now constructor |].
      apply IH. split; [lia | exact Hs].
Qed.

(** X15.  Under the declared type [color] a value is accepted exactly
    when it is a [#] followed by three or by six hexadecimal digits. *)
Theorem color_validation_accepts_three_or_six_hex_digits :
  forall (js : Platform) (value : string),
    validateMetafieldValue js value "color" = true
    <-> exists digits,
          value = String "#" digits
          /\ (String.length digits = 3 \/ String.length digits = 6)
          /\ Spec.each_char Props.hex_digit_char digits.
Proof.
  intros js value. unfold validateMetafieldValue.
  cbn [String.eqb Ascii.eqb Bool.eqb].
  rewrite test_spec. unfold re_color. split.
  - intros H. inversion H as [ | | r1 r2 s1 s2 H1 H2 | | | | ]; subst.
    apply chr_spec in H1. subst s1. exists s2.
    split; [reflexivity |].
    inversion H2 as [ | | | ra rb s Hl | ra rb s Hr | | ]; subst.
    + apply (times_class_spec hex_char 6) in Hl as [Hlen Hall].
      split; [now right |].
      now apply (each_char_iff _ _ s2 hex_char_spec).
    + apply (times_class_spec hex_char 3) in Hr as [Hlen Hall].
      split; [now left |].
      now apply (each_char_iff _ _ s2 hex_char_spec).
  - intros (digits & -> & Hlen & Hall).
    apply (each_char_iff _ _ digits hex_char_spec) in Hall.
    change (String "#" digits)
      with (String "#" EmptyString ++ digits)%string.
    constructor; [now apply chr_spec |].
    destruct Hlen as [H3 | H6].
    + apply MAltR. apply (times_class_spec hex_char 3). now split.
    + apply MAltL. apply (times_class_spec hex_char 6). now split.
Qed.

End ValueFacts.

(* ================================================================== *)
(** * The number of batches *)
(* ================================================================== *)

Module BatchCount.

Import CsvProcessor.

Lemma well_formed_size {A} (batchSize : nat) (batches : list (list A)) :
  forall batch,
    Spec.well_formed batchSize (batch :: batches) ->
    exists r,
      1 <= r <= batchSize
      /\ length (concat (batch :: batches)) = length batches * batchSize + r.
Proof.
  induction batches as [|next batches IH]; intros batch [Hall Hfull].
  - inversion Hall as [| b bs [Hne Hle] _]; subst.
    exists (length batch). cbn. rewrite app_nil_r.
    split; [| lia]. destruct batch; [congruence | cbn in *; lia].
  - inversion Hall as [| b bs _ Hrest]; subst.
    cbn in Hfull. destruct Hfull as [Hlen Hfull].
    destruct (IH next (conj Hrest Hfull)) as (r & Hr & Hsum).
    exists r. split; [exact Hr |].
    change (concat (batch :: next :: batches))
      with (batch ++ concat (next :: batches)).
    rewrite length_app, Hsum, Hlen. cbn [length]. lia.
Qed.

Lemma diverges_on_zero {A} (items : list A) (fuel : nat) :
  forall i batches,
    i < length items ->
    createBatches_loop fuel items 0 i batches = None.
Proof.
  induction fuel as [|fuel IH]; intros i batches Hi;
    assert (Hlt : (i <? length items) = true) by now apply Nat.ltb_lt.
  - cbn [createBatches_loop]. now rewrite Hlt.
  - cbn [createBatches_loop]. rewrite Hlt, Nat.add_0_r. now apply IH.
Qed.

(** X16.  For a positive batch size [createBatches] makes the number
    of items divided by the size, rounded up, batches.  With size 0 its
    loop never ends on a non-empty input; on an empty input it makes no
    batch whatever the size. *)
Theorem createBatches_makes_ceiling_many_batches :
  forall (A : Type) (items : list A) (batchSize : nat),
    (0 < batchSize ->
     exists batches,
       createBatches items batchSize = Some batches
       /\ length batches = (length items + batchSize - 1) / batchSize)
    /\ (items <> [] -> createBatches items 0 = None)
    /\ createBatches (@nil A) batchSize = Some [].
Proof.
  intros A items batchSize. split; [| split].
  - intros Hpos.
    destruct (@Batching.loop_spec A items batchSize Hpos (length items) 0 [])
      as [rest [Hrun [Hcat Hwf]]]; [lia |].
    cbn in Hrun, Hcat. exists rest. split; [exact Hrun |].
    destruct rest as [|batch rest].
    + cbn in Hcat. subst items. cbn.
      symmetry. apply Nat.div_small. lia.
    + destruct (well_formed_size Hwf) as (r & Hr & Hsum).
      rewrite Hcat in Hsum. rewrite Hsum. cbn [length].
      apply (Nat.div_unique _ _ _ (r - 1)); [lia |].
      nia.
  - intros Hne. unfold createBatches. apply diverges_on_zero.
    destruct items; [congruence | cbn; lia].
  - reflexivity.
Qed.

End BatchCount.

(* ================================================================== *)
(** * The job queue *)
(* ================================================================== *)

Module JobFacts.

Import JobQueue.

Lemma map_get_set (m : list (nat * Job)) (k k' : nat) (v : Job) :
  map_get (map_set m k v) k'
  = if k =? k' then Some v else map_get m k'.
Proof.
  induction m as [|[k0 v0] m IH]; cbn [map_set map_get].
  - reflexivity.
  - destruct (k0 =? k) eqn:E0; cbn [map_get].
    + apply Nat.eqb_eq in E0. subst k0. now destruct (k =? k').
    + destruct (k0 =? k') eqn:E1.
      * apply Nat.eqb_eq in E1. subst k0.
        rewrite Nat.eqb_sym in E0. now rewrite E0.
      * exact IH.
Qed.

Lemma get_In (m : list (nat * Job)) (k : nat) (v : Job) :
  map_get m k = Some v -> In (k, v) m.
Proof.
  induction m as [|[k0 v0] m IH]; cbn [map_get]; [discriminate |].
  destruct (k0 =? k) eqn:E0.
  - apply Nat.eqb_eq in E0. subst k0. intros [= ->]. now left.
  - intros H. right. now apply IH.
Qed.

Lemma get_absent (m : list (nat * Job)) (k : nat) :
  ~ In k (map fst m) -> map_get m k = None.
Proof.
  induction m as [|[k0 v0] m IH]; cbn [map_get map fst]; [reflexivity |].
  intros Hnot. destruct (k0 =? k) eqn:E0.
  - apply Nat.eqb_eq in E0. subst k0. exfalso. apply Hnot. now left.
  - apply IH. intros Hin. apply Hnot. now right.
Qed.

Lemma map_keys_set (m : list (nat * Job)) (k : nat) (v : Job) :
  map fst (map_set m k v)
  = if existsb (Nat.eqb k) (map fst m) then map fst m else map fst m ++ [k].
Proof.
  induction m as [|[k0 v0] m IH]; cbn [map_set map fst existsb].
  - reflexivity.
  - rewrite (Nat.eqb_sym k k0).
    destruct (k0 =? k) eqn:E0; cbn [map fst orb].
    + reflexivity.
    + rewrite IH. now destruct (existsb (Nat.eqb k) (map fst m)).
Qed.

Lemma In_set (m : list (nat * Job)) (k : nat) (v : Job) (e : nat * Job) :
  In e (map_set m k v) -> In e m \/ e = (k, v).
Proof.
  induction m as [|[k0 v0] m IH]; cbn [map_set].
  - intros [<- | []]. now right.
  - destruct (k0 =? k) eqn:E0.
    + apply Nat.eqb_eq in E0. subst k0.
      intros [<- | H]; [now right | left; now right].
    + intros [<- | H]; [left; now left |].
      destruct (IH H) as [H' | H']; [left; now right | now right].
Qed.

Lemma updateJob_ok (q : Queue) (jobId : nat) (updates : Updates) :
  Props.queue_ok q ->
  Props.queue_ok (fst (updateJob q jobId updates))
  /\ currentJobId (fst (updateJob q jobId updates)) = currentJobId q.
Proof.
  intros [Hall Hnd]. unfold updateJob.
  destruct (map_get (jobs q) jobId) as [job |] eqn:Hget;
    cbn [fst]; [| now repeat split].
  split; [| reflexivity]. unfold Props.queue_ok. cbn [jobs currentJobId].
  pose proof (get_In _ _ Hget) as Hin.
  assert (Hkey : In jobId (map fst (jobs q))).
  { apply in_map_iff. now exists (jobId, job). }
  split.
  - apply Forall_forall. intros e He.
    rewrite Forall_forall in Hall.
    apply In_set in He as [He | ->]; [now apply Hall |].
    specialize (Hall _ Hin). cbn [fst] in *. exact Hall.
  - rewrite map_keys_set.
    assert (Hex : existsb (Nat.eqb jobId) (map fst (jobs q)) = true).
    { apply existsb_exists. exists jobId. split; [exact Hkey |].
      apply Nat.eqb_refl. }
    now rewrite Hex.
Qed.

Lemma createJob_ok (q : Queue) (now : Z) (type : string) (data : JobData) :
  Props.queue_ok q ->
  Props.queue_ok (fst (createJob q now type data))
  /\ currentJobId (fst (createJob q now type data)) = S (currentJobId q).
Proof.
  intros [Hall Hnd]. unfold createJob. cbn [fst].
  split; [| reflexivity]. unfold Props.queue_ok. cbn [jobs currentJobId].
  assert (Hfresh : ~ In (S (currentJobId q)) (map fst (jobs q))).
  { intros Hin. apply in_map_iff in Hin as [e [He Hin]].
    rewrite Forall_forall in Hall. specialize (Hall _ Hin). lia. }
  split.
  - apply Forall_forall. intros e He.
    rewrite Forall_forall in Hall.
    apply In_set in He as [He | ->].
    + specialize (Hall _ He). lia.
    + cbn. lia.
  - rewrite map_keys_set.
    assert (Hex : existsb (Nat.eqb (S (currentJobId q))) (map fst (jobs q))
                  = false).
    { destruct (existsb _ _) eqn:E; [| reflexivity].
      apply existsb_exists in E as [x [Hx Ex]].
      apply Nat.eqb_eq in Ex. subst x. contradiction. }
    rewrite Hex. apply NoDup_app; [exact Hnd | repeat constructor; auto |].
    intros x Hx [<- | []]. contradiction.
Qed.

Lemma NoDup_keys_filter (f : nat * Job -> bool) (m : list (nat * Job)) :
  NoDup (map fst m) -> NoDup (map fst (filter f m)).
Proof.
  induction m as [|e m IH]; cbn [map filter]; intros Hnd; [constructor |].
  inversion Hnd as [| x xs Hnot Hrest]; subst.
  destruct (f e); cbn [map]; [| now apply IH].
  constructor; [| now apply IH].
  intros Hin. apply Hnot.
  apply in_map_iff in Hin as [e' [He' Hin]].
  apply filter_In in Hin as [Hin _].
  apply in_map_iff. now exists e'.
Qed.

Lemma cleanup_ok (q : Queue) (now : Z) :
  Props.queue_ok q ->
  Props.queue_ok (cleanup q now)
  /\ currentJobId (cleanup q now) = currentJobId q.
Proof.
  intros [Hall Hnd]. split; [| reflexivity].
  unfold Props.queue_ok, cleanup. cbn [jobs currentJobId]. split.
  - apply Forall_forall. intros e He. apply filter_In in He as [He _].
    rewrite Forall_forall in Hall. now apply Hall.
  - now apply NoDup_keys_filter.
Qed.

Lemma run_ok (q : Queue) (op : Op) :
  Props.queue_ok q ->
  Props.queue_ok (run q op) /\ currentJobId q <= currentJobId (run q op).
Proof.
  intros Hok. destruct op; cbn [run].
  - destruct (createJob_ok now type data Hok) as [H1 H2]. split; [exact H1 | lia].
  - destruct (updateJob_ok jobId updates Hok) as [H1 H2].
    split; [exact H1 | lia].
  - unfold startJob.
    match goal with
    | |- context [updateJob q jobId ?u] =>
        destruct (updateJob_ok jobId u Hok) as [H1 H2]
    end. split; [exact H1 | lia].
  - unfold completeJob.
    match goal with
    | |- context [updateJob q jobId ?u] =>
        destruct (updateJob_ok jobId u Hok) as [H1 H2]
    end. split; [exact H1 | lia].
  - unfold failJob.
    match goal with
    | |- context [updateJob q jobId ?u] =>
        destruct (updateJob_ok jobId u Hok) as [H1 H2]
    end. split; [exact H1 | lia].
  - destruct (cleanup_ok now Hok) as [H1 H2]. split; [exact H1 | lia].
Qed.

Lemma empty_ok : Props.queue_ok empty.
Proof. split; constructor. Qed.

Lemma fold_ok (history : list Op) :
  forall q,
    Props.queue_ok q ->
    Props.queue_ok (fold_left run history q)
    /\ currentJobId q <= currentJobId (fold_left run history q).
Proof.
  induction history as [|op history IH]; intros q Hok; cbn [fold_left].
  - split; [exact Hok | lia].
  - destruct (run_ok op Hok) as [H1 H2].
    destruct (IH _ H1) as [H3 H4]. split; [exact H3 | lia].
Qed.

Lemma after_ok (history : list Op) : Props.queue_ok (after history).
Proof. apply fold_ok, empty_ok. Qed.

(** X17.  On the queue reached by any history of calls, [createJob]
    returns an id one above the counter, larger than the id of every
    job in the table and held by none; afterwards the id names a
    pending job with zeroed counters, created at the time of the call,
    and every other id names what it named before.  The counter never
    decreases, so an id is never handed out twice, not even after the
    job was swept. *)
Theorem createJob_hands_out_fresh_ids :
  forall (history later : list Op) (now : Z) (type : string) (data : JobData),
    let q := after history in
    let q' := fst (createJob q now type data) in
    let jobId := snd (createJob q now type data) in
    jobId = S (currentJobId q)
    /\ getJob q jobId = None
    /\ (forall id job, getJob q id = Some job -> id < jobId)
    /\ (exists job,
           getJob q' jobId = Some job
           /\ job_id job = jobId /\ job_status job = "pending"
           /\ job_processed job = 0 /\ job_total job = 0
           /\ job_errors job = [] /\ job_success job = []
           /\ createdAt job = now /\ job_data job = data)
    /\ (forall id, id <> jobId -> getJob q' id = getJob q id)
    /\ currentJobId q <= currentJobId (after (history ++ later)).
Proof.
  intros history later now type data q q' jobId.
  pose proof (after_ok history) as Hok. fold q in Hok.
  destruct Hok as [Hall Hnd].
  assert (Hbound : forall id job, getJob q id = Some job ->
                                  id <= currentJobId q).
  { intros id job Hget. apply get_In in Hget.
    rewrite Forall_forall in Hall. specialize (Hall _ Hget). cbn in Hall. lia. }
  subst q' jobId. unfold createJob. cbn [fst snd].
  split; [reflexivity |]. split; [| split; [| split; [| split]]].
  - unfold getJob. destruct (map_get (jobs q) (S (currentJobId q))) eqn:Hget;
      [| reflexivity].
    apply Hbound in Hget. lia.
  - intros id job Hget. apply Hbound in Hget. lia.
  - eexists. unfold getJob. cbn [jobs]. rewrite map_get_set, Nat.eqb_refl.
    split; [reflexivity |]. cbn. repeat split.
  - intros id Hid. unfold getJob. cbn [jobs]. rewrite map_get_set.
    destruct (S (currentJobId q) =? id) eqn:E; [| reflexivity].
    apply Nat.eqb_eq in E. congruence.
  - unfold after. rewrite fold_left_app.
    apply fold_ok. apply after_ok.
Qed.

Lemma get_filter (f : nat * Job -> bool) (m : list (nat * Job)) (k : nat) :
  NoDup (map fst m) ->
  map_get (filter f m) k
  = match map_get m k with
    | Some v => if f (k, v) then Some v else None
    | None => None
    end.
Proof.
  induction m as [|[k0 v0] m IH]; cbn [filter map_get map fst]; intros Hnd;
    [reflexivity |].
  inversion Hnd as [| x xs Hnot Hrest]; subst.
  destruct (k0 =? k) eqn:E0.
  - apply Nat.eqb_eq in E0. subst k0.
    destruct (f (k, v0)); cbn [map_get].
    + now rewrite Nat.eqb_refl.
    + apply get_absent. intros Hin. apply Hnot.
      apply in_map_iff in Hin as [e [He Hin]].
      apply filter_In in Hin as [Hin _].
      apply in_map_iff. now exists e.
  - destruct (f (k0, v0)); cbn [map_get]; [rewrite E0 |]; now apply IH.
Qed.

(** X18.  The retention sweep depends on the creation time alone: on
    the queue reached by any history of calls, a job is gone after
    [cleanup] exactly when it was created more than one hour before the
    sweep, whatever its status, and every other job is left as it
    was. *)
Theorem cleanup_removes_by_age_only :
  forall (history : list Op) (now : Z) (jobId : nat),
    getJob (cleanup (after history) now) jobId
    = match getJob (after history) jobId with
      | Some job =>
          if (createdAt job <? now - oneHour)%Z then None else Some job
      | None => None
      end.
Proof.
  intros history now jobId.
  destruct (after_ok history) as [_ Hnd].
  unfold getJob, cleanup. cbn [jobs].
  rewrite get_filter by exact Hnd.
  destruct (map_get (jobs (after history)) jobId) as [job |]; [| reflexivity].
  cbn [snd]. now destruct (createdAt job <? now - oneHour)%Z.
Qed.

(** X19.  [updateJob], and with it [startJob], [completeJob],
    [failJob] and [updateProgress], touches the addressed job only.
    An unknown id leaves the queue as it is and returns nothing.  A
    known id is given the job with the keys of the update object
    assigned, and that job is returned; a property the object has no
    key for stays as it was, and no other id is affected; the ids in
    the table, their order and the id counter stay as they were.  In
    particular [startJob] and [failJob], whose objects the class
    builds itself, keep the identity, the data and the creation time
    of the job, and so does [completeJob] unless its argument has such
    a key: none of them postpones the sweep. *)
Theorem updateJob_touches_one_job :
  forall (q : Queue) (jobId : nat) (updates : Updates),
    (getJob q jobId = None -> updateJob q jobId updates = (q, None))
    /\ (forall job,
          getJob q jobId = Some job ->
          snd (updateJob q jobId updates) = Some (assign job updates)
          /\ getJob (fst (updateJob q jobId updates)) jobId
             = Some (assign job updates)
          /\ (up_id updates = None ->
              job_id (assign job updates) = job_id job)
          /\ (up_type updates = None ->
              job_type (assign job updates) = job_type job)
          /\ (up_data updates = None ->
              job_data (assign job updates) = job_data job)
          /\ (up_createdAt updates = None ->
              createdAt (assign job updates) = createdAt job))
    /\ (forall other,
          other <> jobId ->
          getJob (fst (updateJob q jobId updates)) other = getJob q other)
    /\ map fst (jobs (fst (updateJob q jobId updates))) = map fst (jobs q)
    /\ currentJobId (fst (updateJob q jobId updates)) = currentJobId q
    /\ (forall now error,
          up_id (started now) = None /\ up_data (started now) = None
          /\ up_createdAt (started now) = None
          /\ up_id (failed now error) = None
          /\ up_data (failed now error) = None
          /\ up_createdAt (failed now error) = None)
    /\ (forall now results,
          up_id (completed now results) = up_id results
          /\ up_data (completed now results) = up_data results
          /\ up_createdAt (completed now results) = up_createdAt results).
Proof.
  intros q jobId updates. unfold getJob, updateJob.
  split; [| split; [| split; [| split; [| split; [| split]]]]].
  - intros ->. reflexivity.
  - intros job ->. cbn [fst snd jobs].
    rewrite map_get_set, Nat.eqb_refl.
    repeat split; intros H; cbn [assign job_id job_type job_data createdAt];
      now rewrite H.
  - intros other Hother.
    destruct (map_get (jobs q) jobId) as [job |]; cbn [fst jobs];
      [| reflexivity].
    rewrite map_get_set.
    destruct (jobId =? other) eqn:E; [| reflexivity].
    apply Nat.eqb_eq in E. congruence.
  - destruct (map_get (jobs q) jobId) as [job |] eqn:Hget; cbn [fst jobs];
      [| reflexivity].
    rewrite map_keys_set.
    assert (Hex : existsb (Nat.eqb jobId) (map fst (jobs q)) = true).
    { apply existsb_exists. exists jobId. split; [| apply Nat.eqb_refl].
      apply in_map_iff. exists (jobId, job). split; [reflexivity |].
      now apply get_In. }
    now rewrite Hex.
  - now destruct (map_get (jobs q) jobId).
  - intros now error. repeat split.
  - intros now results. unfold completed, spread.
    cbn [up_id up_data up_createdAt or_keep_opt].
    repeat split;
      [destruct (up_id results) | destruct (up_data results)
       | destruct (up_createdAt results)]; reflexivity.
Qed.

End JobFacts.

(* ================================================================== *)
(** * The order of the remote calls and the pauses *)
(* ================================================================== *)

Module TraceFacts.

Import CsvProcessor Remote.



















Lemma createBatches_count {A} (items : list A) (batchSize : nat) :
  0 < batchSize ->
  exists batches,
    createBatches items batchSize = Some batches
    /\ concat batches = items
    /\ length batches = (length items + batchSize - 1) / batchSize.
Proof.
  intros Hpos.
  destruct (@Batching.loop_spec A items batchSize Hpos (length items) 0 [])
    as [rest [Hrun [Hcat Hwf]]]; [lia |].
  cbn in Hrun, Hcat. exists rest. split; [exact Hrun |].
  split; [exact Hcat |].
  destruct rest as [|batch rest].
  - cbn in Hcat. subst items. cbn. symmetry. apply Nat.div_small. lia.
  - destruct (BatchCount.well_formed_size Hwf) as (r & Hr & Hsum).
    rewrite Hcat in Hsum. rewrite Hsum. cbn [length].
    apply (Nat.div_unique _ _ _ (r - 1)); [lia |]. nia.
Qed.



End TraceFacts.

(* ================================================================== *)
(** * Format detection and the format of the validated data *)
(* ================================================================== *)

Module DetectionFacts.

Import CsvProcessor.

Lemma products_iff (row : RawRow) (rest : list RawRow) :
  detectCSVFormat (row :: rest) = products <-> Spec.looks_like_products row.
Proof.
  unfold detectCSVFormat, Spec.looks_like_products.
  set (headers := map JS.toLowerCase (Obj.keys row)).
  destruct (forallb (fun header => existsb (fun h => JS.includes h header)
                                           headers) productHeaders) eqn:Hp.
  - split; [| reflexivity]. intros _ name Hin.
    apply Detection.some_lowered_includes_iff.
    rewrite forallb_forall in Hp. now apply Hp.
  - split.
    + destruct (forallb (fun header => JS.mem header headers)
                        metafieldHeaders); discriminate.
    + intros Hlooks. exfalso.
      assert (Hall : forallb (fun header =>
                                existsb (fun h => JS.includes h header)
                                        headers) productHeaders = true).
      { apply forallb_forall. intros name Hin.
        apply Detection.some_lowered_includes_iff. now apply Hlooks. }
      congruence.
Qed.

(** X21.  The product test comes first and needs less than the
    field-update test: a table is classified as [products] exactly when
    some header of its first row contains [handle] and some header
    contains [title], whatever else the row holds and whatever the
    other rows hold; and the data that [validateCSVData] returns is
    never empty and carries the detected format. *)
Theorem products_are_detected_first :
  forall (data : list RawRow) (preview : bool),
    (detectCSVFormat data = products
     <-> exists row rest,
           data = row :: rest /\ Spec.looks_like_products row)
    /\ (forall row rest,
          data = row :: rest -> detectCSVFormat data = detectCSVFormat [row])
    /\ (forall validated,
          validateCSVData data preview = Returns validated ->
          data <> [] /\ format_of validated = detectCSVFormat data).
Proof.
  intros data preview. split; [| split].
  - destruct data as [|row rest].
    + split; [discriminate |]. intros (row & rest & H & _). discriminate.
    + rewrite products_iff. split.
      * intros H. now exists row, rest.
      * intros (row' & rest' & [= <- <-] & H). exact H.
  - intros row rest ->. reflexivity.
  - intros validated. unfold validateCSVData.
    destruct data as [|row rest]; [discriminate |].
    destruct (detectCSVFormat (row :: rest)); [| | discriminate].
    + rewrite RowValidation.validateProductCSVData_eq.
      destruct (Spec.collect_errors productRowErrors (row :: rest) 0);
        [| discriminate].
      intros [= <-]. split; [discriminate | reflexivity].
    + rewrite RowValidation.validateMetafieldCSVData_eq.
      destruct (Spec.collect_errors metafieldRowErrors (row :: rest) 0);
        [| discriminate].
      intros [= <-]. split; [discriminate | reflexivity].
Qed.

End DetectionFacts.

(* ================================================================== *)
(** * fixEncodingIssues: the replacements that never apply *)
(* ================================================================== *)

Module EncodingFacts.

Import CsvProcessor.

Lemma prefix_of_replaced (pat : string) (r : ascii) (q s : string) :
  JS.count_char r q = 0 ->
  String.prefix q (JS.replace_go pat (chr r) 0 s) = true ->
  String.prefix q s = true.
Proof.
  revert q. induction s as [|c s IH]; intros q Hq H.
  - exact H.
  - destruct q as [|a q]; [reflexivity |].
    cbn [JS.count_char] in Hq.
    cbn [JS.replace_go] in H.
    destruct (String.prefix pat (String c s)).
    + exfalso. unfold chr in H. cbn [append String.prefix] in H.
      destruct (ascii_dec a r) as [-> | _]; [| discriminate].
      rewrite Ascii.eqb_refl in Hq. discriminate.
    + cbn [String.prefix] in *.
      destruct (ascii_dec a c) as [_ | _]; [| discriminate].
      apply IH; [| exact H].
      destruct (Ascii.eqb a r); [discriminate | exact Hq].
Qed.

(** After every occurrence of a pattern has been replaced by a
    character that the pattern does not contain, no occurrence is
    left. *)
Lemma replaced_has_no_pattern (p r : ascii) (pat : string) :
  JS.count_char r (String p pat) = 0 ->
  forall s skip,
    JS.includes (JS.replace_go (String p pat) (chr r) skip s) (String p pat)
    = false.
Proof.
  intros Hr. induction s as [|c s IH]; intros skip.
  - destruct skip; reflexivity.
  - destruct skip as [|k]; cbn [JS.replace_go]; [| apply IH].
    destruct (String.prefix (String p pat) (String c s)) eqn:Hpre.
    + unfold chr. cbn [append JS.includes]. rewrite IH, orb_false_r.
      cbn [String.prefix].
      destruct (ascii_dec p r) as [-> | _]; [| reflexivity].
      cbn [JS.count_char] in Hr. rewrite Ascii.eqb_refl in Hr. discriminate.
    + cbn [JS.includes]. rewrite IH, orb_false_r.
      destruct (String.prefix (String p pat)
                              (String c (JS.replace_go (String p pat) (chr r)
                                                       0 s))) eqn:Hout;
        [| reflexivity].
      assert (Hsame : String c (JS.replace_go (String p pat) (chr r) 0 s)
                      = JS.replace_go (String p pat) (chr r) 0 (String c s)).
      { cbn [JS.replace_go]. now rewrite Hpre. }
      rewrite Hsame in Hout.
      apply (prefix_of_replaced _ _ _ _ Hr) in Hout. congruence.
Qed.

Lemma prefix_app_l (a b s : string) :
  String.prefix (a ++ b) s = true -> String.prefix a s = true.
Proof.
  revert s. induction a as [|c a IH]; intros s H; [now destruct s |].
  destruct s as [|d s]; [discriminate |].
  cbn [append String.prefix] in *.
  destruct (ascii_dec c d); [now apply IH | discriminate].
Qed.

Lemma includes_app_l (a b s : string) :
  JS.includes s a = false -> JS.includes s (a ++ b) = false.
Proof.
  induction s as [|c s IH]; cbn [JS.includes]; intros H;
    apply orb_false_iff in H as [Hpre Hrest].
  - rewrite orb_false_r.
    destruct (String.prefix (a ++ b) EmptyString) eqn:E; [| reflexivity].
    apply prefix_app_l in E. congruence.
  - rewrite (IH Hrest), orb_false_r.
    destruct (String.prefix (a ++ b) (String c s)) eqn:E; [| reflexivity].
    apply prefix_app_l in E. congruence.
Qed.

(** X22.  The two dash repairs of [fixEncodingIssues] never apply:
    the replacement before them has already turned every occurrence of
    the two-character prefix they look for into a double quote.  The
    result is that of the first six replacements, it never contains
    that prefix, and a text that consists of the dash pattern comes out
    as two double quotes. *)
Theorem dash_repairs_never_apply :
  forall text : string,
    fixEncodingIssues text
    = JS.replaceAll a_euro (chr dquote)
        (JS.replaceAll a_euro_oe (chr dquote)
           (JS.replaceAll a_euro_tm "'"
              (JS.replaceAll A_circumflex EmptyString
                 (JS.replaceAll replacement_g mu_g
                    (JS.replaceAll "?g" mu_g text)))))
    /\ JS.includes (fixEncodingIssues text) a_euro = false
    /\ fixEncodingIssues a_euro_quote = String dquote (chr dquote).
Proof.
  intros text.
  assert (Hgone : forall s,
             JS.includes (JS.replaceAll a_euro (chr dquote) s) a_euro
             = false).
  { intros s. unfold JS.replaceAll.
    apply (@replaced_has_no_pattern (ascii_of_nat 195) dquote
             (bytes [162; 226; 130; 172])).
    reflexivity. }
  assert (Hsame : forall s rep,
             JS.replaceAll a_euro_quote rep
               (JS.replaceAll a_euro (chr dquote) s)
             = JS.replaceAll a_euro (chr dquote) s).
  { intros s rep. apply ParsingFacts.replace_absent.
    unfold a_euro_quote. apply includes_app_l, Hgone. }
  assert (Heq : fixEncodingIssues text
                = JS.replaceAll a_euro (chr dquote)
                    (JS.replaceAll a_euro_oe (chr dquote)
                       (JS.replaceAll a_euro_tm "'"
                          (JS.replaceAll A_circumflex EmptyString
                             (JS.replaceAll replacement_g mu_g
                                (JS.replaceAll "?g" mu_g text)))))).
  { unfold fixEncodingIssues.
    destruct text as [|c text]; [reflexivity |].
    cbn [nonempty negb]. cbv zeta.
    set (t5 := JS.replaceAll a_euro_oe _ _).
    rewrite !Hsame. reflexivity. }
  split; [exact Heq |]. split.
  - rewrite Heq. apply Hgone.
  - vm_compute. reflexivity.
Qed.

End EncodingFacts.

(* ================================================================== *)
(** * The keys the executors iterate *)
(* ================================================================== *)

Module KeysFacts.

Import CsvProcessor ObjFacts.

Lemma insert_index_perm (n : N) (k : string) (ks : list (N * string)) :
  Permutation (Obj.insert_index n k ks) ((n, k) :: ks).
Proof.
  induction ks as [|[m k'] ks IH]; cbn [Obj.insert_index].
  - apply Permutation_refl.
  - destruct (n <=? m)%N; [apply Permutation_refl |].
    apply perm_trans with ((m, k') :: (n, k) :: ks).
    + now apply perm_skip.
    + apply perm_swap.
Qed.

Lemma index_keys_perm (ks : list string) :
  Permutation (map snd (Obj.index_keys ks)) (filter Obj.is_index ks).
Proof.
  induction ks as [|k ks IH]; cbn [Obj.index_keys filter].
  - apply Permutation_refl.
  - unfold Obj.is_index at 1.
    destruct (Obj.array_index k) as [n |]; [| exact IH].
    apply perm_trans with (map snd ((n, k) :: Obj.index_keys ks)).
    + apply Permutation_map, insert_index_perm.
    + cbn [map snd]. now apply perm_skip.
Qed.

Lemma filter_split_perm {A} (p : A -> bool) (xs : list A) :
  Permutation (filter p xs ++ filter (fun x => negb (p x)) xs) xs.
Proof.
  induction xs as [|x xs IH]; cbn [filter]; [apply Permutation_refl |].
  destruct (p x); cbn [negb Datatypes.app].
  - now apply perm_skip.
  - apply Permutation_sym, Permutation_cons_app, Permutation_sym, IH.
Qed.

Lemma keys_perm {V} (o : Obj.t V) : Permutation (Obj.keys o) (map fst o).
Proof.
  unfold Obj.keys.
  apply perm_trans
    with (filter Obj.is_index (map fst o)
          ++ filter (fun k => negb (Obj.is_index k)) (map fst o)).
  - apply Permutation_app_tail, index_keys_perm.
  - apply filter_split_perm.
Qed.

Lemma index_keys_none (ks : list string) :
  Forall (fun k => Obj.is_index k = false) ks -> Obj.index_keys ks = [].
Proof.
  induction 1 as [|k ks Hk _ IH]; [reflexivity |].
  cbn [Obj.index_keys]. unfold Obj.is_index in Hk.
  destruct (Obj.array_index k); [discriminate | exact IH].
Qed.

Lemma filter_all {A} (p : A -> bool) (xs : list A) :
  Forall (fun x => p x = true) xs -> filter p xs = xs.
Proof.
  induction 1 as [|x xs Hx _ IH]; [reflexivity |].
  cbn [filter]. now rewrite Hx, IH.
Qed.

Lemma insert_index_sorted (n : N) (k : string) (ks : list (N * string)) :
  StronglySorted N.le (map fst ks) ->
  StronglySorted N.le (map fst (Obj.insert_index n k ks)).
Proof.
  induction ks as [|[m k'] ks IH]; cbn [Obj.insert_index map fst];
    intros Hs.
  - repeat constructor.
  - destruct (n <=? m)%N eqn:Hnm.
    + apply N.leb_le in Hnm. cbn [map fst]. constructor; [exact Hs |].
      inversion Hs as [| a l Hl Hall]; subst.
      constructor; [exact Hnm |].
      eapply Forall_impl; [| exact Hall]. intros x Hx. lia.
    + apply N.leb_gt in Hnm. cbn [map fst].
      inversion Hs as [| a l Hl Hall]; subst.
      constructor; [now apply IH |].
      assert (Hperm : Permutation (map fst (Obj.insert_index n k ks))
                                  (n :: map fst ks)).
      { change (n :: map fst ks) with (map fst ((n, k) :: ks)).
        apply Permutation_map, insert_index_perm. }
      apply Forall_forall. intros x Hx.
      apply (Permutation_in _ Hperm) in Hx. destruct Hx as [<- | Hx].
      * lia.
      * rewrite Forall_forall in Hall. now apply Hall.
Qed.

Lemma index_keys_sorted (ks : list string) :
  StronglySorted N.le (Props.index_values ks).
Proof.
  unfold Props.index_values.
  induction ks as [|k ks IH]; cbn [Obj.index_keys]; [constructor |].
  destruct (Obj.array_index k); [now apply insert_index_sorted | exact IH].
Qed.

Lemma metafields_grouped_as (records : list MetafieldRecord)
      (grouped : Obj.t (list Metafield)) :
  groupMetafieldsByHandle records = Returns grouped ->
  Props.grouped_as records grouped.
Proof.
  intros Hrun.
  destruct (Grouping.groupMetafieldsByHandle_cases records)
    as [[_ Hthrows] | [_ (grouped' & Hreturns & Hgrouped)]].
  - congruence.
  - rewrite Hrun in Hreturns. now injection Hreturns as <-.
Qed.

Lemma product_keys (records : list ProductRecord) :
  map fst (groupProductsByHandle records)
  = Props.first_seen (Props.handles_of (ValidProducts records)).
Proof.
  unfold groupProductsByHandle, Props.handles_of.
  induction records as [|record records IH] using rev_ind; [reflexivity |].
  rewrite fold_left_app, map_app, filter_app. cbn [fold_left map filter].
  destruct (String.eqb (p_handle record) "__proto__"); cbn [negb].
  - now rewrite app_nil_r.
  - now rewrite keys_set, IH, mem_first_seen, first_seen_snoc.
Qed.

Lemma grouped_entries (data : Validated) (grouped : Grouped) :
  groupDataByHandle data = Returns grouped ->
  exists ks,
    ks = Props.first_seen (Props.handles_of data)
    /\ grouped_keys grouped
       = map snd (Obj.index_keys ks)
         ++ filter (fun k => negb (Obj.is_index k)) ks
    /\ Permutation (grouped_keys grouped) ks.
Proof.
  intros Hrun. exists (Props.first_seen (Props.handles_of data)).
  split; [reflexivity |].
  destruct data as [records | records]; cbn [groupDataByHandle] in Hrun.
  - injection Hrun as <-. cbn [grouped_keys].
    rewrite <- product_keys. split; [reflexivity | apply keys_perm].
  - destruct (groupMetafieldsByHandle records) as [o | message] eqn:Hg;
      [| discriminate].
    injection Hrun as <-. cbn [grouped_keys].
    destruct (metafields_grouped_as records Hg) as [Hkeys _].
    cbn [Props.handles_of]. rewrite <- Hkeys.
    split; [reflexivity | apply keys_perm].
Qed.

(** X23.  The keys the executors iterate are the distinct handles of
    the validated rows, each once: the handles that are canonical array
    indices come first, in ascending numeric order, and the others
    follow in the order in which they are first seen.  When no handle
    is such a number the keys are the distinct handles in first-seen
    order, and so is the order of the lookups. *)
Theorem keys_are_the_distinct_handles :
  forall (data : Validated) (grouped : Grouped),
    groupDataByHandle data = Returns grouped ->
    let handles := Props.first_seen (Props.handles_of data) in
    Permutation (grouped_keys grouped) handles
    /\ NoDup (grouped_keys grouped)
    /\ grouped_keys grouped
       = map snd (Obj.index_keys handles)
         ++ filter (fun k => negb (Obj.is_index k)) handles
    /\ StronglySorted N.le (Props.index_values handles)
    /\ (Forall (fun k => Obj.is_index k = false) handles ->
        grouped_keys grouped = handles).
Proof.
  intros data grouped Hrun handles.
  destruct (grouped_entries data Hrun) as (ks & -> & Heq & Hperm).
  fold handles in Heq, Hperm.
  split; [exact Hperm |]. split; [| split; [exact Heq |]].
  - apply (Permutation_NoDup (Permutation_sym Hperm)).
    apply first_seen_NoDup.
  - split; [apply index_keys_sorted |].
    intros Hnone. rewrite Heq, (index_keys_none Hnone).
    cbn [map Datatypes.app]. apply filter_all.
    eapply Forall_impl; [| exact Hnone].
    intros k Hk. cbn beta in Hk. now rewrite Hk.
Qed.

Lemma keys_are_the_distinct_handles_witness :
  let data :=
    ValidProducts
      (map (fun h => mkProduct h "T" EmptyString EmptyString EmptyString
                               EmptyString None EmptyString EmptyString
                               EmptyString EmptyString EmptyString
                               EmptyString EmptyString EmptyString
                               EmptyString EmptyString EmptyString
                               EmptyString)
           ["b-2"; "10"; "a-1"; "9"; "b-2"; "007"]) in
  exists grouped,
    groupDataByHandle data = Returns grouped
    /\ grouped_keys grouped = ["9"; "10"; "b-2"; "a-1"; "007"].
Proof.
  intros data. eexists. split; [vm_compute; reflexivity |].
  match goal with
  | |- grouped_keys ?g = _ =>
      destruct (@keys_are_the_distinct_handles
                  data g ltac:(vm_compute; reflexivity))
        as (_ & _ & Heq & _)
  end.
  rewrite Heq. vm_compute. reflexivity.
Defined.

End KeysFacts.

(* ================================================================== *)
(** * preprocessCSVForComponents *)
(* ================================================================== *)

Module PreprocessFacts.

Import CsvProcessor.

Lemma keep_app (p : ascii -> bool) (a b : string) :
  Props.keep p (a ++ b) = (Props.keep p a ++ Props.keep p b)%string.
Proof.
  induction a as [|c a IH]; [reflexivity |].
  cbn [append Props.keep]. destruct (p c); cbn [append]; now rewrite IH.
Qed.

(** ** Text without white space outside ASCII *)

Lemma starts_wide_app (x y : string) :
  JS.starts_wide x = true -> JS.starts_wide (x ++ y) = true.
Proof.
  destruct x as [|a [|b [|c x]]]; cbn [JS.starts_wide append];
    try discriminate.
  - rewrite orb_false_r. now intros ->.
  - now intros ->.
Qed.

Lemma has_wide_app (a b : string) :
  JS.has_wide_space (a ++ b) = false ->
  JS.has_wide_space a = false /\ JS.has_wide_space b = false.
Proof.
  induction a as [|c a IH]; [now split |].
  change (String c a ++ b)%string with (String c (a ++ b)).
  cbn [JS.has_wide_space]. intros H.
  apply orb_false_iff in H as [Hstart Hrest].
  destruct (IH Hrest) as [Ha Hb]. split; [| exact Hb].
  rewrite Ha, orb_false_r.
  destruct (JS.starts_wide (String c a)) eqn:E; [| reflexivity].
  apply (starts_wide_app _ b) in E.
  change (String c a ++ b)%string with (String c (a ++ b)) in E. congruence.
Qed.

Lemma has_wide_tail (c : ascii) (s : string) :
  JS.has_wide_space (String c s) = false -> JS.has_wide_space s = false.
Proof.
  cbn [JS.has_wide_space]. intros H. now apply orb_false_iff in H as [_ H].
Qed.

(** Without such white space [trim] removes ASCII white space only. *)
Lemma keep_trimStart (p : ascii -> bool) (s : string) :
  (forall c, JS.is_space c = true -> p c = false) ->
  JS.has_wide_space s = false ->
  Props.keep p (JS.trimStart s) = Props.keep p s.
Proof.
  intros Hp. induction s as [|a s1 IH]; [reflexivity |].
  intros Hplain. pose proof (has_wide_tail _ _ Hplain) as Hrest.
  cbn [JS.has_wide_space] in Hplain.
  apply orb_false_iff in Hplain as [Hstart _].
  cbn [JS.trimStart]. destruct (JS.is_space a) eqn:Ha.
  - cbn [Props.keep]. rewrite (Hp a Ha). now apply IH.
  - destruct s1 as [|b s2]; [reflexivity |].
    cbn [JS.starts_wide] in Hstart.
    apply orb_false_iff in Hstart as [Hnbsp Hwide]. rewrite Hnbsp.
    destruct s2 as [|c s3]; [reflexivity |]. now rewrite Hwide.
Qed.

Lemma keep_trimEnd (p : ascii -> bool) (s : string) :
  (forall c, JS.is_space c = true -> p c = false) ->
  JS.has_wide_space s = false ->
  Props.keep p (JS.trimEnd s) = Props.keep p s.
Proof.
  intros Hp. induction s as [|c s IH]; [reflexivity |].
  intros Hplain. pose proof (has_wide_tail _ _ Hplain) as Hrest.
  pose proof (keep_trimStart p (String c s) Hp Hplain) as Hstart.
  cbn [JS.trimEnd].
  destruct (JS.trimStart (String c s)) as [|d r].
  - now rewrite <- Hstart.
  - cbn [Props.keep]. now rewrite (IH Hrest).
Qed.

Lemma trimStart_suffix (s : string) :
  exists removed, s = (removed ++ JS.trimStart s)%string.
Proof.
  assert (H : forall n s, String.length s <= n ->
                          exists removed, s = (removed ++ JS.trimStart s)%string).
  { clear s. induction n as [|n IH]; intros s Hlen.
    - destruct s; [now exists EmptyString | cbn in Hlen; lia].
    - destruct s as [|a s1]; [now exists EmptyString |].
      cbn [String.length] in Hlen. cbn [JS.trimStart].
      destruct (JS.is_space a).
      { destruct (IH s1) as [removed Hr]; [lia |].
        exists (String a removed). cbn [append]. now rewrite <- Hr. }
      destruct s1 as [|b s2]; [now exists EmptyString |].
      cbn [String.length] in Hlen.
      destruct (JS.is_nbsp a b).
      { destruct (IH s2) as [removed Hr]; [lia |].
        exists (String a (String b removed)). cbn [append].
        now rewrite <- Hr. }
      destruct s2 as [|c s3]; [now exists EmptyString |].
      cbn [String.length] in Hlen.
      destruct (JS.is_wide_space a b c); [| now exists EmptyString].
      destruct (IH s3) as [removed Hr]; [lia |].
      exists (String a (String b (String c removed))). cbn [append].
      now rewrite <- Hr. }
  now apply (H (String.length s)).
Qed.

Lemma has_wide_trim (s : string) :
  JS.has_wide_space s = false -> JS.has_wide_space (JS.trimStart s) = false.
Proof.
  intros H. destruct (trimStart_suffix s) as [removed Hs].
  rewrite Hs in H. now apply has_wide_app in H as [_ H].
Qed.

Lemma data_trim (s : string) :
  JS.has_wide_space s = false ->
  Props.data_chars (JS.trim s) = Props.data_chars s.
Proof.
  intros Hplain.
  assert (Hp : forall c, JS.is_space c = true -> Props.is_data_char c = false).
  { intros c Hc. unfold Props.is_data_char. now rewrite Hc. }
  unfold Props.data_chars, JS.trim.
  rewrite keep_trimEnd by (try exact Hp; now apply has_wide_trim).
  now apply keep_trimStart.
Qed.

Lemma data_app (a b : string) :
  Props.data_chars (a ++ b)
  = (Props.data_chars a ++ Props.data_chars b)%string.
Proof. apply keep_app. Qed.

(** ** Counting a character *)

Lemma count_app (a : ascii) (s t : string) :
  JS.count_char a (s ++ t) = JS.count_char a s + JS.count_char a t.
Proof.
  induction s as [|c s IH]; [reflexivity |].
  cbn [append JS.count_char]. rewrite IH. lia.
Qed.

Lemma count_trimStart (a : ascii) (s : string) :
  JS.count_char a (JS.trimStart s) <= JS.count_char a s.
Proof.
  destruct (trimStart_suffix s) as [removed Hs].
  rewrite Hs at 2. rewrite count_app. lia.
Qed.

Lemma count_trimEnd (a : ascii) (s : string) :
  JS.count_char a (JS.trimEnd s) <= JS.count_char a s.
Proof.
  induction s as [|c s IH]; [reflexivity |].
  cbn [JS.trimEnd]. destruct (JS.trimStart (String c s)) as [|d r].
  - cbn [JS.count_char]. lia.
  - cbn [JS.count_char] in *. lia.
Qed.

Lemma count_trim (a : ascii) (s : string) :
  JS.count_char a (JS.trim s) <= JS.count_char a s.
Proof.
  unfold JS.trim.
  pose proof (count_trimEnd a (JS.trimStart s)).
  pose proof (count_trimStart a s). lia.
Qed.

(** ** Joining with commas *)

(** Every field followed by a comma, and every field preceded by one. *)
Lemma join_cons (sep x y : string) (l : list string) :
  JS.join sep (x :: y :: l) = (x ++ sep ++ JS.join sep (y :: l))%string.
Proof. reflexivity. Qed.

Lemma join_middle (sep : string) (before : list string) (x : string)
      (after : list string) :
  JS.join sep (before ++ x :: after)
  = (String.concat EmptyString (map (fun f => (f ++ sep)%string) before)
     ++ x
     ++ String.concat EmptyString (map (fun f => (sep ++ f)%string) after))%string.
Proof.
  assert (Hconcat : forall (ys : list string) (y : string),
             String.concat EmptyString (y :: ys)
             = (y ++ String.concat EmptyString ys)%string).
  { intros [|z ys] y; cbn [String.concat].
    - now rewrite append_empty_r.
    - reflexivity. }
  assert (Htail : forall l y,
             JS.join sep (y :: l)
             = (y ++ String.concat EmptyString
                       (map (fun f => (sep ++ f)%string) l))%string).
  { induction l as [|z l IH]; intros y.
    - unfold JS.join. cbn [String.concat map].
      now rewrite append_empty_r.
    - rewrite join_cons, IH. cbn [map]. rewrite Hconcat.
      now rewrite !append_assoc. }
  induction before as [|b before IH].
  - cbn [Datatypes.app map String.concat append]. apply Htail.
  - cbn [Datatypes.app map]. rewrite Hconcat.
    destruct before as [|b' before'].
    + cbn [Datatypes.app] in *. rewrite join_cons, IH.
      cbn [map String.concat append].
      now rewrite !append_assoc.
    + cbn [Datatypes.app] in *. rewrite join_cons, IH.
      now rewrite !append_assoc.
Qed.

Lemma split_fields_not_nil (line currentField : string) (inQuotes : bool) :
  split_fields line currentField inQuotes <> [].
Proof.
  revert currentField inQuotes.
  induction line as [|c line IH]; intros currentField inQuotes;
    cbn [split_fields]; [discriminate |].
  destruct (Ascii.eqb c dquote); [apply IH |].
  destruct (Ascii.eqb c "," && negb inQuotes); [discriminate | apply IH].
Qed.

(** Joining the fields of a line with commas gives the line back. *)
Lemma join_split_fields (line : string) :
  forall currentField inQuotes,
    JS.join "," (split_fields line currentField inQuotes)
    = (currentField ++ line)%string.
Proof.
  induction line as [|c line IH]; intros currentField inQuotes;
    cbn [split_fields].
  - unfold JS.join. cbn [String.concat]. now rewrite append_empty_r.
  - destruct (Ascii.eqb c dquote).
    + rewrite IH, append_assoc. reflexivity.
    + destruct (Ascii.eqb c ",") eqn:Hc; cbn [andb].
      * destruct (negb inQuotes).
        -- apply Ascii.eqb_eq in Hc. subst c.
           pose proof (split_fields_not_nil line EmptyString inQuotes) as Hne.
           destruct (split_fields line EmptyString inQuotes) as [|y l] eqn:E;
             [congruence |].
           rewrite join_cons, <- E, IH. reflexivity.
        -- rewrite IH, append_assoc. reflexivity.
      * rewrite IH, append_assoc. reflexivity.
Qed.

(** The continuation loop appends the trimmed text of the fields it
    merges, each after a comma. *)
Lemma merge_fields_spec (remainingFields : list string) :
  forall reconstructedComponent fieldsToMerge reconstructed merged,
    merge_fields remainingFields reconstructedComponent fieldsToMerge
    = (reconstructed, merged) ->
    exists k,
      merged = fieldsToMerge + k
      /\ k <= length remainingFields
      /\ reconstructed
         = (reconstructedComponent
            ++ String.concat EmptyString
                 (map (fun f => ("," ++ JS.trim f)%string)
                      (firstn k remainingFields)))%string.
Proof.
  induction remainingFields as [|f rest IH];
    intros recon n recon' n'; cbn [merge_fields].
  - intros [= <- <-]. exists 0. cbn. rewrite append_empty_r.
    repeat split; lia.
  - cbv zeta.
    assert (Hstop : (recon, n) = (recon', n') ->
                    exists k,
                      n' = n + k /\ k <= length (f :: rest)
                      /\ recon'
                         = (recon
                            ++ String.concat EmptyString
                                 (map (fun f => ("," ++ JS.trim f)%string)
                                      (firstn k (f :: rest))))%string).
    { intros [= <- <-]. exists 0. cbn. rewrite append_empty_r.
      repeat split; lia. }
    assert (Hconcat : forall (ys : list string) (y : string),
               String.concat EmptyString (y :: ys)
               = (y ++ String.concat EmptyString ys)%string).
    { intros [|z ys] y; cbn [String.concat].
      - now rewrite append_empty_r.
      - reflexivity. }
    destruct (Regex.test re_digits (JS.trim f)).
    + intros Hrun. destruct (IH _ _ _ _ Hrun) as (k & -> & Hk & ->).
      exists (S k). split; [lia |]. split; [cbn [length]; lia |].
      cbn [firstn map]. rewrite Hconcat, !append_assoc. reflexivity.
    + destruct (Regex.test re_chem (JS.trim f)
                && (1 <? String.length (JS.trim f))).
      * intros [= <- <-]. exists 1. split; [lia |].
        split; [cbn [length]; lia |].
        cbn [firstn map String.concat]. reflexivity.
      * destruct (Regex.test re_vendor (JS.trim f)); exact Hstop.
Qed.

(** A line is either kept or rebuilt from its fields, with the
    component and the fields merged into it replaced by one quoted
    field. *)
Lemma preprocess_line_cases (componentColumnIndex : nat) (line : string) :
  preprocess_line componentColumnIndex line = line
  \/ exists before field merged after,
       split_fields line EmptyString false
       = before ++ field :: merged ++ after
       /\ preprocess_line componentColumnIndex line
          = JS.join ","
              (before
               ++ String dquote
                    ((JS.trim field
                      ++ String.concat EmptyString
                           (map (fun f => ("," ++ JS.trim f)%string) merged))
                     ++ chr dquote)
                  :: after).
Proof.
  unfold preprocess_line.
  destruct (negb (nonempty (JS.trim line))); [now left |].
  cbv zeta.
  destruct (nth_error (split_fields line EmptyString false)
                      componentColumnIndex) as [field |] eqn:Hnth;
    [| now left].
  destruct (Regex.test re_digits (JS.trim field)
            && (String.length (JS.trim field) <? 3)); [| now left].
  destruct (nth_error_split _ _ Hnth) as (before & rest & Hfields & Hlen).
  rewrite Hfields.
  assert (Hremaining :
            JS.slice (componentColumnIndex + 1)
                     (length (before ++ field :: rest))
                     (before ++ field :: rest) = rest).
  { unfold JS.slice. rewrite skipn_app, skipn_all2 by lia.
    replace (componentColumnIndex + 1 - length before) with 1 by lia.
    cbn [skipn Datatypes.app]. apply firstn_all2.
    rewrite length_app. cbn [length]. lia. }
  rewrite Hremaining.
  destruct (merge_fields rest (JS.trim field) 0) as [recon merged] eqn:Hm.
  destruct (0 <? merged); [| now left].
  right.
  destruct (merge_fields_spec _ _ _ Hm) as (k & -> & Hk & ->).
  exists before, field, (firstn k rest), (skipn k rest).
  split; [now rewrite firstn_skipn |].
  f_equal. f_equal.
  - unfold JS.slice. rewrite Nat.sub_0_r. cbn [skipn].
    rewrite firstn_app, firstn_all2 by lia.
    replace (componentColumnIndex - length before) with 0 by lia.
    cbn [firstn]. now rewrite app_nil_r.
  - cbn [Datatypes.app]. f_equal.
    unfold JS.slice. rewrite skipn_app, skipn_all2 by lia.
    replace (componentColumnIndex + 1 + (0 + k) - length before)
      with (S k) by lia.
    cbn [skipn Datatypes.app]. apply firstn_all2.
    rewrite length_skipn, length_app. cbn [length]. lia.
Qed.

(** The pieces joined into a text without white space outside ASCII
    hold none. *)
Lemma join_plain (sep : string) (xs : list string) :
  JS.has_wide_space (JS.join sep xs) = false ->
  Forall (fun x => JS.has_wide_space x = false) xs.
Proof.
  induction xs as [|x xs IH]; intros H; [constructor |].
  destruct xs as [|y l].
  - constructor; [exact H | constructor].
  - rewrite join_cons in H.
    apply has_wide_app in H as [Hx H].
    apply has_wide_app in H as [_ H].
    constructor; [exact Hx | now apply IH].
Qed.

Lemma data_concat_trimmed (merged : list string) :
  Forall (fun f => JS.has_wide_space f = false) merged ->
  Props.data_chars
    (String.concat EmptyString (map (fun f => ("," ++ JS.trim f)%string) merged))
  = Props.data_chars
      (String.concat EmptyString (map (fun f => ("," ++ f)%string) merged)).
Proof.
  assert (Hconcat : forall (ys : list string) (y : string),
             String.concat EmptyString (y :: ys)
             = (y ++ String.concat EmptyString ys)%string).
  { intros [|z ys] y; cbn [String.concat].
    - now rewrite append_empty_r.
    - reflexivity. }
  induction 1 as [|f merged Hf _ IH]; [reflexivity |].
  cbn [map]. rewrite !Hconcat, !data_app, IH, (data_trim _ Hf). reflexivity.
Qed.

Lemma concat_app (xs ys : list string) :
  String.concat EmptyString (xs ++ ys)
  = (String.concat EmptyString xs ++ String.concat EmptyString ys)%string.
Proof.
  assert (Hconcat : forall (l : list string) (y : string),
             String.concat EmptyString (y :: l)
             = (y ++ String.concat EmptyString l)%string).
  { intros [|z l] y; cbn [String.concat].
    - now rewrite append_empty_r.
    - reflexivity. }
  induction xs as [|x xs IH]; [reflexivity |].
  cbn [Datatypes.app]. now rewrite !Hconcat, IH, append_assoc.
Qed.

(** Rebuilding a line adds two double quotes and drops the white space
    around the merged fields, and nothing else. *)
Lemma preprocess_line_data (componentColumnIndex : nat) (line : string) :
  JS.has_wide_space line = false ->
  Props.data_chars (preprocess_line componentColumnIndex line)
  = Props.data_chars line.
Proof.
  intros Hplain.
  destruct (preprocess_line_cases componentColumnIndex line)
    as [-> | (before & field & merged & after & Hfields & ->)];
    [reflexivity |].
  pose proof (join_split_fields line EmptyString false) as Hline.
  cbn [append] in Hline.
  assert (Hpieces : JS.has_wide_space field = false
                    /\ Forall (fun f => JS.has_wide_space f = false) merged).
  { rewrite <- Hline, Hfields in Hplain. apply join_plain in Hplain.
    apply Forall_app in Hplain as [_ Hplain].
    inversion Hplain as [| x xs Hfield Hrest]; subst.
    apply Forall_app in Hrest as [Hmerged _]. now split. }
  destruct Hpieces as [Hfield Hmerged].
  rewrite <- Hline, Hfields, !join_middle.
  rewrite map_app, concat_app, !data_app.
  f_equal.
  change (String dquote ?x) with (chr dquote ++ x)%string.
  rewrite !data_app, (data_trim _ Hfield), (data_concat_trimmed Hmerged).
  cbn [Props.data_chars Props.keep chr append].
  change (Props.is_data_char dquote) with false.
  cbn [append]. now rewrite append_empty_r, append_assoc.
Qed.

Lemma count_concat_trimmed (a : ascii) (merged : list string) :
  JS.count_char a
    (String.concat EmptyString
       (map (fun f => ("," ++ JS.trim f)%string) merged))
  <= JS.count_char a
       (String.concat EmptyString
          (map (fun f => ("," ++ f)%string) merged)).
Proof.
  assert (Hconcat : forall (ys : list string) (y : string),
             String.concat EmptyString (y :: ys)
             = (y ++ String.concat EmptyString ys)%string).
  { intros [|z ys] y; cbn [String.concat].
    - now rewrite append_empty_r.
    - reflexivity. }
  induction merged as [|f merged IH]; [reflexivity |].
  cbn [map]. rewrite !Hconcat, !count_app.
  pose proof (count_trim a f). lia.
Qed.

(** A rebuilt line holds no line break when the line held none. *)
Lemma preprocess_line_free (componentColumnIndex : nat) (line : string) :
  JS.count_char nl line = 0 ->
  JS.count_char nl (preprocess_line componentColumnIndex line) = 0.
Proof.
  intros Hfree.
  destruct (preprocess_line_cases componentColumnIndex line)
    as [-> | (before & field & merged & after & Hfields & ->)];
    [exact Hfree |].
  pose proof (join_split_fields line EmptyString false) as Hline.
  cbn [append] in Hline. rewrite <- Hline, Hfields, join_middle in Hfree.
  rewrite map_app, concat_app, !count_app in Hfree.
  rewrite join_middle.
  change (String dquote ?x) with (chr dquote ++ x)%string.
  rewrite !count_app.
  pose proof (count_trim nl field).
  pose proof (count_concat_trimmed nl merged).
  change (JS.count_char nl (chr dquote)) with 0. lia.
Qed.

Lemma join_tail (sep x : string) (l : list string) :
  JS.join sep (x :: l)
  = (x ++ String.concat EmptyString
            (map (fun f => (sep ++ f)%string) l))%string.
Proof.
  pose proof (join_middle sep [] x l) as H.
  cbn [Datatypes.app map String.concat append] in H. exact H.
Qed.

Lemma preprocess_line_kept_or_merged (componentColumnIndex : nat)
      (line : string) :
  Props.kept_or_merged line (preprocess_line componentColumnIndex line).
Proof.
  destruct (preprocess_line_cases componentColumnIndex line)
    as [-> | (before & field & merged & after & Hfields & ->)];
    [now left |].
  right. exists before, field, merged, after. split; [exact Hfields |].
  do 2 f_equal. cbn [map]. rewrite join_tail, map_map.
  cbn [chr append]. now rewrite append_assoc.
Qed.

(** X24.  [preprocessCSVForComponents] keeps the rows apart and the
    data in them.  The result has the same number of lines as the text
    and the same header line; every line of it is the line of the text
    or that line with a run of consecutive fields replaced by one field
    that holds their trimmed texts, joined by commas, between double
    quotes.  So a line loses only what [trim] removes around these
    fields and gains two double quotes: in a text without white space
    outside ASCII every line holds the same characters as before, ASCII
    white space and double quotes apart. *)
Theorem preprocessing_keeps_lines_and_data :
  forall csvText : string,
    let before := JS.split nl csvText in
    let after := JS.split nl (preprocessCSVForComponents csvText) in
    length after = length before
    /\ hd EmptyString after = hd EmptyString before
    /\ Forall2 Props.kept_or_merged before after
    /\ (JS.has_wide_space csvText = false ->
        map Props.data_chars after = map Props.data_chars before).
Proof.
  intros csvText before after.
  assert (Hsame : forall lines : list string,
             Forall2 Props.kept_or_merged lines lines).
  { induction lines; constructor; [now left | assumption]. }
  assert (Hmap : hd EmptyString after = hd EmptyString before
                 /\ Forall2 Props.kept_or_merged before after
                 /\ (JS.has_wide_space csvText = false ->
                     map Props.data_chars after
                     = map Props.data_chars before)).
  { subst before after. unfold preprocessCSVForComponents.
    pose proof (Preview.split_pieces_free nl csvText) as Hfree.
    pose proof (Preview.join_split nl csvText) as Hjoin.
    destruct (JS.split nl csvText) as [|headerLine rows] eqn:Hlines.
    - rewrite Hlines. repeat split. constructor.
    - cbv zeta.
      destruct (findIndex _ _) as [componentColumnIndex |];
        [| rewrite Hlines; repeat split; apply Hsame].
      rewrite Preview.split_join.
      + cbn [hd map]. split; [reflexivity |]. split.
        * constructor; [now left |].
          clear. induction rows as [|row rows IH]; cbn [map]; constructor;
            [apply preprocess_line_kept_or_merged | exact IH].
        * intros Hplain. rewrite <- Hjoin in Hplain.
          apply join_plain in Hplain.
          inversion Hplain as [| x xs _ Hrows]; subst.
          f_equal. rewrite map_map. apply map_ext_in. intros line Hin.
          apply preprocess_line_data.
          rewrite Forall_forall in Hrows. now apply Hrows.
      + discriminate.
      + inversion Hfree as [| x xs Hheader Hrows]; subst.
        constructor; [exact Hheader |].
        apply Forall_forall. intros line' Hin.
        apply in_map_iff in Hin as (line & <- & Hin).
        apply preprocess_line_free.
        rewrite Forall_forall in Hrows. now apply Hrows. }
  destruct Hmap as (Hhd & Hlines & Hdata). split; [| now repeat split].
  symmetry. exact (Forall2_length Hlines).
Qed.

(** A component spread over three cells, with a no-break space before
    the second: the cells are merged into one quoted field, and the
    no-break space, which [trim] removes, is lost with the blanks. *)
Example merged_component_loses_a_no_break_space :
  preprocessCSVForComponents
    ("handle,components,note" ++ chr nl
     ++ "h1,1," ++ bytes [194; 160] ++ "2, ab,x")%string
  = ("handle,components,note" ++ chr nl
     ++ "h1," ++ chr dquote ++ "1,2,ab" ++ chr dquote ++ ",x")%string.
Proof. vm_compute. reflexivity. Qed.

End PreprocessFacts.

(* ================================================================== *)
(** * The background processor and its job *)
(* ================================================================== *)

Module BackgroundFacts.

Import CsvProcessor JobQueue BackgroundProcessor.

(** ** The queue under updates *)

Lemma getJob_updateJob (q : Queue) (jobId other : nat) (updates : Updates) :
  getJob (fst (updateJob q jobId updates)) other
  = if jobId =? other
    then option_map (fun job => assign job updates) (getJob q jobId)
    else getJob q other.
Proof.
  unfold updateJob, getJob.
  destruct (map_get (jobs q) jobId) as [job |] eqn:Hget; cbn [fst jobs].
  - rewrite JobFacts.map_get_set. reflexivity.
  - destruct (jobId =? other) eqn:E; [| reflexivity].
    apply Nat.eqb_eq in E. subst other. exact Hget.
Qed.

Lemma map_set_twice (m : list (nat * Job)) (k : nat) (v v' : Job) :
  map_set (map_set m k v) k v' = map_set m k v'.
Proof.
  induction m as [|[k0 v0] m IH]; cbn [map_set].
  - now rewrite Nat.eqb_refl.
  - destruct (k0 =? k) eqn:E; cbn [map_set]; rewrite E.
    + reflexivity.
    + now rewrite IH.
Qed.

(** A later progress report replaces an earlier one. *)
Lemma progress_twice (q : Queue) (jobId p p' : nat)
      (r r' : Remote.Results) :
  fst (updateProgress
         (fst (updateProgress q jobId (Props.progress_update p r)))
         jobId (Props.progress_update p' r'))
  = fst (updateProgress q jobId (Props.progress_update p' r')).
Proof.
  unfold updateProgress, updateJob.
  destruct (map_get (jobs q) jobId) as [job |] eqn:Hget; cbn [fst jobs].
  - rewrite JobFacts.map_get_set, Nat.eqb_refl. cbn [fst].
    now rewrite map_set_twice.
  - now rewrite Hget.
Qed.

Lemma updateJob_unknown (q : Queue) (jobId : nat) (updates : Updates) :
  getJob q jobId = None -> fst (updateJob q jobId updates) = q.
Proof. unfold updateJob, getJob. now intros ->. Qed.

(** ** The per-key operation *)

Ltac run_q :=
  intros ?;
  cbv beta iota zeta
      delta [push_error push_success modify_results incr_processed ret throw
             results trace queue];
  reflexivity.

Ltac step_done :=
  repeat match goal with
         | |- _ /\ _ => split
         | |- True => exact I
         | |- _ = _ => reflexivity
         | |- _ <= _ => unfold Props.outcomes; cbn; rewrite ?length_app; cbn; lia
         end.

Lemma processMetafields_step (admin : Admin) (product : Remote.Product)
      (metafieldsToSet : list Metafield) (handle : string) (dryRun : bool) :
  Props.bg_step 0 1 dryRun false
    (processMetafields admin product metafieldsToSet handle dryRun).
Proof.
  intros r t. unfold processMetafields.
  destruct (negb dryRun && (0 <? length metafieldsToSet)) eqn:Hgo.
  - assert (Hwet : dryRun = false).
    { destruct dryRun; [discriminate | reflexivity]. }
    unfold bindM, graphql_metafieldsSet. cbn [results trace queue].
    destruct (metafieldsSet admin t metafieldsToSet tries)
      as [userErrors | message].
    + destruct (0 <? length userErrors);
        (do 3 eexists; split; [run_q |]);
        step_done; intros Hdry; congruence.
    + do 3 eexists. split; [run_q |].
      step_done; intros Hdry; congruence.
  - exists (Returns tt), r, []. split; [intros q; now rewrite app_nil_r |].
    step_done. intros _. now split.
Qed.

Lemma processProductProperties_step (js : Platform) (admin : Admin)
      (product : Remote.Product) (productData : ProductRecord)
      (handle : string) (dryRun : bool) :
  Props.bg_step 0 1 dryRun false
    (processProductProperties js admin product productData handle dryRun).
Proof.
  intros r t. unfold processProductProperties. cbv zeta.
  destruct dryRun; cbn [negb].
  - exists (Returns tt), r, []. split; [intros q; now rewrite app_nil_r |].
    step_done. intros _. now split.
  - unfold bindM, graphql_productUpdate. cbn [results trace queue].
    destruct (productUpdate admin t _ tries) as [payload | message].
    + destruct (0 <? length (Remote.pu_userErrors payload));
        (do 3 eexists; split; [run_q |]);
        step_done; intros Hdry; congruence.
    + do 3 eexists. split; [run_q |].
      step_done; intros Hdry; congruence.
Qed.

Lemma process_group_step (js : Platform) (admin : Admin)
      (product : Remote.Product) (groupedData : Grouped) (handle : string)
      (dryRun : bool) :
  Props.bg_step 0 1 dryRun false
    (process_group js admin product groupedData handle dryRun).
Proof.
  unfold process_group.
  destruct groupedData as [grouped | grouped];
    destruct (Obj.get grouped handle).
  - apply processProductProperties_step.
  - intros r t.
    exists (Throws (Remote.Error
                      "Cannot read properties of undefined (reading 'title')")),
           r, [].
    split; [intros q; unfold throw; now rewrite app_nil_r |].
    step_done. intros _. now split.
  - apply processMetafields_step.
  - intros r t. destruct (negb dryRun).
    + exists (Throws (Remote.Error
                        "Cannot read properties of undefined (reading 'length')")),
             r, [].
      split; [intros q; unfold throw; now rewrite app_nil_r |].
      step_done. intros _. now split.
    + exists (Returns tt), r, [].
      split; [intros q; unfold ret; now rewrite app_nil_r |].
      step_done. intros _. now split.
Qed.

Lemma processHandle_step (js : Platform) (admin : Admin)
      (groupedData : Grouped) (dryRun : bool) (handle : string) :
  Props.bg_step 1 1 dryRun true
    (processHandle js admin groupedData dryRun handle).
Proof.
  intros r t. unfold processHandle, try_catch, bindM, graphql_product.
  cbn [results trace queue].
  destruct (productByHandle admin t handle tries)
    as [[product |] | message].
  - destruct (process_group_step js admin product groupedData handle dryRun
                r (t ++ [Call (GET_PRODUCT_BY_HANDLE handle) tries]))
      as (o & r1 & added & Hrun & Htotal & Hformat & Hp & Ho & Hdry & Hthrow).
    destruct o as [[] | message].
    + exists (Returns tt),
        (Remote.mkResults (S (Remote.processed r1)) (Remote.errors r1)
                          (Remote.success r1) (Remote.total r1)
                          (Remote.format r1)),
        (Call (GET_PRODUCT_BY_HANDLE handle) tries :: added).
      split.
      { intros q. rewrite Hrun. cbn. now rewrite <- app_assoc. }
      cbn [Remote.total Remote.format Remote.processed].
      unfold Props.outcomes in *.
      cbn [Remote.errors Remote.success].
      repeat split; try assumption; try lia.
      * cbn [existsb is_mutation orb]. now apply Hdry.
      * now apply Hdry.
    + destruct Hthrow as [_ ->].
      exists (Returns tt),
        (Remote.mkResults (Remote.processed r)
           (Remote.errors r
            ++ [Remote.mkError handle
                  ("Processing error: " ++ Remote.message_text message)])
           (Remote.success r) (Remote.total r) (Remote.format r)),
        (Call (GET_PRODUCT_BY_HANDLE handle) tries :: added).
      split.
      { intros q. rewrite Hrun. cbn. now rewrite <- app_assoc. }
      step_done. intros Hd. split; [| reflexivity].
      cbn [existsb is_mutation orb]. now apply Hdry.
  - do 3 eexists. split; [run_q |].
    step_done. intros _. now split.
  - do 3 eexists. split; [run_q |].
    step_done. intros _. now split.
Qed.

Lemma runBatch_step (js : Platform) (admin : Admin) (groupedData : Grouped)
      (dryRun : bool) (batch : list string) :
  Props.bg_step (length batch) (length batch) dryRun true
    (runBatch js admin groupedData dryRun batch).
Proof.
  induction batch as [|handle batch IH]; intros r t.
  - exists (Returns tt), r, []. split; [intros q; now rewrite app_nil_r |].
    step_done. intros _. now split.
  - cbn [runBatch]. unfold bindM.
    destruct (processHandle_step js admin groupedData dryRun handle r t)
      as (o & r1 & a1 & Hrun & Htotal & Hformat & Hp & Ho & Hdry & Hsafe).
    destruct o as [[] | message]; [| destruct Hsafe; discriminate].
    destruct (IH r1 (t ++ a1))
      as (o & r2 & a2 & Hrun2 & Htotal2 & Hformat2 & Hp2 & Ho2 & Hdry2
          & Hsafe2).
    exists o, r2, (a1 ++ a2). split.
    { intros q. rewrite Hrun, Hrun2. now rewrite app_assoc. }
    cbn [length]. repeat split; try congruence; try lia.
    + rewrite existsb_app.
      destruct (Hdry H) as [-> _]. now destruct (Hdry2 H) as [-> _].
    + destruct (Hdry H) as [_ <-]. now destruct (Hdry2 H) as [_ ->].
    + destruct o as [[] | message]; [exact I |].
      destruct Hsafe2; discriminate.
Qed.

(** ** The batch loop *)

Lemma runBatches_run (js : Platform) (host : Host) (admin : Admin)
      (groupedData : Grouped) (dryRun : bool) (jobId : nat)
      (optimalBatchSize totalBatches : nat) (batches : list (list string)) :
  forall batchIndex r t,
    exists r' added,
      (forall q,
          runBatches js host admin groupedData dryRun jobId optimalBatchSize
                     batches batchIndex totalBatches (mkWorld r t q)
          = (Returns tt,
             mkWorld r' (t ++ added)
               (match batches with
                | [] => q
                | _ :: _ =>
                    fst (updateProgress q jobId
                           (Props.progress_update
                              (round_percent host
                                 (batchIndex + length batches) totalBatches)
                              r'))
                end)))
      /\ Remote.total r' = Remote.total r
      /\ Remote.format r' = Remote.format r
      /\ Remote.processed r' <= Remote.processed r + Props.keys_in batches
      /\ Props.outcomes r' <= Props.outcomes r + Props.keys_in batches
      /\ (dryRun = true ->
          existsb is_mutation added = false
          /\ Remote.success r' = Remote.success r).
Proof.
  induction batches as [|batch rest IH]; intros batchIndex r t.
  - exists r, []. split; [intros q; now rewrite app_nil_r |].
    unfold Props.keys_in. cbn. repeat split; lia.
  - destruct (runBatch_step js admin groupedData dryRun batch r t)
      as (o & r1 & a1 & Hrun & Htotal & Hformat & Hp & Ho & Hdry & Hsafe).
    destruct o as [[] | message]; [| destruct Hsafe; discriminate].
    set (pause := if batchIndex <? totalBatches - 1
                  then [Sleep (calculateDelay batchIndex totalBatches
                                              optimalBatchSize)]
                  else []).
    assert (Hquiet : existsb is_mutation pause = false).
    { subst pause. now destruct (batchIndex <? totalBatches - 1). }
    assert (Hhead : forall q,
               runBatches js host admin groupedData dryRun jobId
                          optimalBatchSize (batch :: rest) batchIndex
                          totalBatches (mkWorld r t q)
               = runBatches js host admin groupedData dryRun jobId
                            optimalBatchSize rest (S batchIndex) totalBatches
                            (mkWorld r1 (t ++ a1 ++ pause)
                               (fst (updateProgress q jobId
                                       (Props.progress_update
                                          (round_percent host (batchIndex + 1)
                                                         totalBatches)
                                          r1))))).
    { intros q. cbn [runBatches]. unfold bindM at 1. rewrite Hrun.
      unfold bindM at 1, report_progress at 1. cbn [results trace queue].
      unfold bindM at 1. subst pause.
      destruct (batchIndex <? totalBatches - 1).
      - unfold sleep, log. cbn [results trace queue].
        now rewrite <- app_assoc.
      - unfold ret. now rewrite app_nil_r. }
    destruct rest as [|next rest'].
    + exists r1, (a1 ++ pause). split.
      { intros q. rewrite Hhead. cbn [runBatches length]. unfold ret.
        now rewrite app_assoc. }
      unfold Props.keys_in in *. cbn [concat] in *.
      rewrite app_nil_r. repeat split; try assumption.
      * rewrite existsb_app, Hquiet. now destruct (Hdry H) as [-> _].
      * now apply Hdry.
    + destruct (IH (S batchIndex) r1 (t ++ a1 ++ pause))
        as (r2 & a2 & Hrun2 & Htotal2 & Hformat2 & Hp2 & Ho2 & Hdry2).
      exists r2, (a1 ++ pause ++ a2). split.
      { intros q. rewrite Hhead, Hrun2, progress_twice.
        rewrite <- !app_assoc. cbn [length].
        now replace (S batchIndex + S (length rest'))
          with (batchIndex + S (S (length rest'))) by lia. }
      assert (Hsum : Props.keys_in (batch :: next :: rest')
                     = length batch + Props.keys_in (next :: rest')).
      { unfold Props.keys_in.
        change (concat (batch :: next :: rest'))
          with (batch ++ concat (next :: rest')).
        apply length_app. }
      rewrite Hsum. repeat split; try congruence; try lia.
      * rewrite !existsb_app, Hquiet.
        destruct (Hdry H) as [-> _]. now destruct (Hdry2 H) as [-> _].
      * destruct (Hdry H) as [_ <-]. now destruct (Hdry2 H) as [_ ->].
Qed.

(** ** The whole job *)

(** What the processor does to the queue in its three cases. *)
Lemma processCSVInBackground_cases (js : Platform) (host : Host)
      (admin : Admin) (file : string) (dryRun : bool) (jobId : nat) :
  let failed message q :=
    Some (fst (failJob (fst (startJob q (Date_now host []) jobId))
                       (Date_now host []) jobId (Remote.Error message)),
          @nil Event) in
  match parseCSV js file false with
  | Throws message =>
      forall q,
        processCSVInBackground js host admin file dryRun jobId q
        = failed message q
  | Returns csvData =>
      match groupDataByHandle (csv_data csvData) with
      | Throws message =>
          forall q,
            processCSVInBackground js host admin file dryRun jobId q
            = failed message q
      | Returns groupedData =>
          let handles := grouped_keys groupedData in
          let f := format_of (csv_data csvData) in
          exists r events b,
            Remote.total r = length handles
            /\ Remote.format r = f
            /\ Remote.processed r <= Remote.total r
            /\ Props.outcomes r <= Remote.total r
            /\ (dryRun = true ->
                existsb is_mutation events = false /\ Remote.success r = [])
            /\ (handles <> [] -> 0 < b)
            /\ forall q,
                 processCSVInBackground js host admin file dryRun jobId q
                 = Some
                     (fst (completeJob
                             (let q2 :=
                                fst (updateProgress
                                       (fst (startJob q (Date_now host [])
                                                      jobId))
                                       jobId
                                       (Props.total_update (length handles)
                                                           f)) in
                              match handles with
                              | [] => q2
                              | _ :: _ =>
                                  fst (updateProgress q2 jobId
                                         (Props.progress_update
                                            (round_percent host b b) r))
                              end)
                             (Date_now host events) jobId
                             (outcome_of r dryRun)),
                      events)
      end
  end.
Proof.
  intros failed.
  pose proof (ParsingFacts.parseCSV_cases js file false) as Hparse.
  unfold processCSVInBackground, job_body.
  destruct (parseCSV js file false) as [csvData | message];
    [| intros q; reflexivity].
  rewrite Hparse. cbn [length Nat.ltb Nat.leb].
  destruct (groupDataByHandle (csv_data csvData))
    as [groupedData | message]; [| intros q; reflexivity].
  cbv zeta.
  set (handles := grouped_keys groupedData).
  set (f := format_of (csv_data csvData)).
  destruct (TraceFacts.createBatches_count handles
              (ExecutorFacts.getOptimalBatchSize_positive (length handles)))
    as (batches & Hb & Hcat & Hcount).
  rewrite Hb.
  destruct (runBatches_run js host admin groupedData dryRun jobId
              (getOptimalBatchSize (length handles)) (length batches)
              batches 0 (Remote.mkResults 0 [] [] (length handles) f) [])
    as (r & events & Hrun & Htotal & Hformat & Hp & Ho & Hdry).
  cbn [Remote.total Remote.format Remote.processed] in *.
  assert (Hkeys : Props.keys_in batches = length handles).
  { unfold Props.keys_in. now rewrite Hcat. }
  rewrite Hkeys in *.
  unfold Props.outcomes in Ho at 2. cbn [Remote.errors Remote.success] in Ho.
  cbn [length] in Ho. cbn [Datatypes.app] in Hrun.
  exists r, events, (length batches).
  split; [exact Htotal |]. split; [exact Hformat |].
  split; [lia |]. split; [lia |]. split.
  { intros Hd. destruct (Hdry Hd) as [Hq Hs]. split; [exact Hq |].
    rewrite Hs. reflexivity. }
  split.
  { intros Hne. destruct batches as [|batch rest]; [| cbn; lia].
    cbn in Hcat. congruence. }
  intros q. rewrite Hrun. cbn [results trace queue].
  destruct batches as [|batch rest].
  - cbn in Hcat. rewrite <- Hcat. reflexivity.
  - destruct handles as [|handle others] eqn:Hh.
    + exfalso. cbn [length] in Hcount.
      rewrite Nat.add_0_l in Hcount.
      pose proof (ExecutorFacts.getOptimalBatchSize_positive 0) as Hpos.
      cbn [length] in *.
      rewrite Nat.div_small in Hcount by lia. discriminate.
    + reflexivity.
Qed.

Ltac read_job Hjob :=
  unfold completeJob, failJob, startJob, updateProgress;
  rewrite ?getJob_updateJob, ?Nat.eqb_refl, ?Hjob;
  cbn [option_map].

Ltac other_job Hother :=
  unfold completeJob, failJob, startJob, updateProgress;
  rewrite ?getJob_updateJob;
  repeat match goal with
         | |- context [?a =? ?b] =>
             replace (a =? b) with false
               by (symmetry; apply Nat.eqb_neq; congruence)
         end;
  reflexivity.

(** With the queue to itself the processor leaves a job that is in
    the queue either failed or completed, and touches no other job. *)
Lemma job_alone_ends_completed_or_failed :
  forall (js : Platform) (host : Host) (admin : Admin) (file : string)
         (dryRun : bool) (jobId : nat) (q : Queue) (job : Job),
    getJob q jobId = Some job ->
    exists q' events job',
      processCSVInBackground js host admin file dryRun jobId q
      = Some (q', events)
      /\ getJob q' jobId = Some job'
      /\ (forall other, other <> jobId -> getJob q' other = getJob q other)
      /\ job_id job' = job_id job
      /\ job_data job' = job_data job
      /\ createdAt job' = createdAt job
      /\ startedAt job' = Some (Date_now host [])
      /\ completedAt job' = Some (Date_now host events)
      /\ match parseCSV js file false with
         | Throws message => Props.failed_with message job job' events
         | Returns csvData =>
             match groupDataByHandle (csv_data csvData) with
             | Throws message => Props.failed_with message job job' events
             | Returns groupedData =>
                 Props.completed_with host (format_of (csv_data csvData))
                                      (grouped_keys groupedData) dryRun
                                      job job' events
             end
         end.
Proof.
  intros js host admin file dryRun jobId q job Hjob.
  pose proof (processCSVInBackground_cases js host admin file dryRun jobId)
    as Hcases.
  cbv zeta in Hcases.
  assert (Hfailed : forall message,
             (forall q,
                 processCSVInBackground js host admin file dryRun jobId q
                 = Some (fst (failJob (fst (startJob q (Date_now host [])
                                                     jobId))
                                      (Date_now host []) jobId
                                      (Remote.Error message)),
                         [])) ->
             exists q' events job',
               processCSVInBackground js host admin file dryRun jobId q
               = Some (q', events)
               /\ getJob q' jobId = Some job'
               /\ (forall other,
                      other <> jobId -> getJob q' other = getJob q other)
               /\ job_id job' = job_id job
               /\ job_data job' = job_data job
               /\ createdAt job' = createdAt job
               /\ startedAt job' = Some (Date_now host [])
               /\ completedAt job' = Some (Date_now host events)
               /\ Props.failed_with message job job' events).
  { intros message Hrun. do 3 eexists.
    split; [apply Hrun |]. split; [read_job Hjob; reflexivity |].
    split; [intros other Hother; other_job Hother |].
    unfold Props.failed_with. cbn. repeat split. }
  destruct (parseCSV js file false) as [csvData | message];
    [| now apply Hfailed].
  destruct (groupDataByHandle (csv_data csvData))
    as [groupedData | message]; [| now apply Hfailed].
  destruct Hcases
    as (r & events & b & Htotal & Hformat & Hp & Ho & Hdry & Hb & Hrun).
  destruct (grouped_keys groupedData) as [|handle others] eqn:Hkeys;
    (do 3 eexists; split; [apply Hrun |]).
  - split; [read_job Hjob; reflexivity |].
    split; [intros other Hother; other_job Hother |].
    unfold Props.completed_with. cbn.
    repeat split.
    exists r. cbn in Htotal.
    repeat split; try assumption; try congruence; now apply Hdry.
  - split; [read_job Hjob; reflexivity |].
    split; [intros other Hother; other_job Hother |].
    unfold Props.completed_with. cbn [length].
    cbn -[Nat.div Nat.mul].
    repeat split.
    exists r. repeat split; try assumption; try (now apply Hdry).
    intros Hround. apply Hround, Hb. discriminate.
Qed.

(** ** The processor among the others *)

Section SameBut.

Variable jobId : nat.

Let R (x y : nat * Job) : Prop :=
  fst x = fst y
  /\ createdAt (snd x) = createdAt (snd y)
  /\ (fst x <> jobId -> snd x = snd y).

Lemma same_get (m m2 : list (nat * Job)) (other : nat) :
  Forall2 R m m2 -> other <> jobId -> map_get m other = map_get m2 other.
Proof.
  intros H Hother.
  induction H as [|[k v] [k2 v2] m m2 (Hk & _ & Hv) _ IH]; [reflexivity |].
  cbn [fst snd] in *. subst k2. cbn [map_get].
  destruct (k =? other) eqn:E; [| exact IH].
  apply Nat.eqb_eq in E. subst k. now rewrite (Hv Hother).
Qed.

Lemma same_set_own (m m2 : list (nat * Job)) (v v' : Job) :
  Forall2 R m m2 ->
  map_get m jobId = Some v ->
  createdAt v' = createdAt v ->
  Forall2 R (map_set m jobId v') m2.
Proof.
  intros H Hget Hcreated.
  induction H as [|[k v0] [k2 v2] m m2 (Hk & Hc & Hv) Hrest IH];
    [discriminate |].
  cbn [fst snd] in *. subst k2. cbn [map_get map_set] in *.
  destruct (k =? jobId) eqn:E.
  - injection Hget as ->. apply Nat.eqb_eq in E. subst k.
    constructor; [| exact Hrest].
    split; [reflexivity |]. split; [cbn [snd]; congruence |].
    cbn [fst]. congruence.
  - constructor; [now repeat split | now apply IH].
Qed.

Lemma same_set_both (m m2 : list (nat * Job)) (k : nat) (v : Job) :
  Forall2 R m m2 -> Forall2 R (map_set m k v) (map_set m2 k v).
Proof.
  intros H.
  induction H as [|[k1 v1] [k2 v2] m m2 (Hk & Hc & Hv) Hrest IH];
    cbn [map_set].
  - constructor; [now repeat split | constructor].
  - cbn [fst snd] in *. subst k2.
    destruct (k1 =? k); constructor;
      try assumption; now repeat split.
Qed.

Lemma same_filter (m m2 : list (nat * Job)) (t : Z) :
  Forall2 R m m2 ->
  Forall2 R
    (filter (fun entry => negb (createdAt (snd entry) <? t)%Z) m)
    (filter (fun entry => negb (createdAt (snd entry) <? t)%Z) m2).
Proof.
  intros H.
  induction H as [|x y m m2 HR Hrest IH]; [constructor |].
  cbn [filter]. pose proof HR as (_ & Hc & _). rewrite Hc.
  destruct (negb (createdAt (snd y) <? t)%Z); [now constructor | exact IH].
Qed.

Lemma same_but_refl (q : Queue) : Props.same_but jobId q q.
Proof.
  split; [reflexivity |].
  induction (jobs q); constructor; [now repeat split | assumption].
Qed.

Lemma same_but_own (p e : Queue) (updates : Updates) :
  Props.same_but jobId p e ->
  up_createdAt updates = None ->
  Props.same_but jobId (fst (updateJob p jobId updates)) e.
Proof.
  intros [Hcount Hjobs] Hu. unfold updateJob.
  destruct (map_get (jobs p) jobId) as [job |] eqn:Hget; cbn [fst];
    [| now split].
  split; [exact Hcount |]. cbn [jobs].
  eapply same_set_own; [exact Hjobs | exact Hget |].
  cbn [assign createdAt]. now rewrite Hu.
Qed.

Lemma same_but_update (p e : Queue) (id : nat) (updates : Updates) :
  Props.same_but jobId p e ->
  id <> jobId ->
  Props.same_but jobId (fst (updateJob p id updates))
                 (fst (updateJob e id updates)).
Proof.
  intros [Hcount Hjobs] Hid. unfold updateJob.
  rewrite (same_get Hjobs Hid).
  destruct (map_get (jobs e) id) as [job |]; cbn [fst]; [| now split].
  split; [exact Hcount |]. cbn [jobs]. now apply same_set_both.
Qed.

Lemma same_but_other (p e : Queue) (op : Op) :
  Props.same_but jobId p e ->
  Props.foreign jobId op ->
  Props.same_but jobId (run p op) (run e op).
Proof.
  intros Hsame Hop.
  destruct op; cbn [run Props.foreign] in *;
    unfold startJob, completeJob, failJob;
    try now apply same_but_update.
  - destruct Hsame as [Hcount Hjobs]. unfold createJob. cbn [fst].
    rewrite Hcount. split; [reflexivity |]. cbn [jobs].
    now apply same_set_both.
  - destruct Hsame as [Hcount Hjobs]. unfold cleanup.
    split; [exact Hcount |]. cbn [jobs]. now apply same_filter.
Qed.

Lemma same_but_get (p e : Queue) (other : nat) :
  Props.same_but jobId p e ->
  other <> jobId ->
  getJob p other = getJob e other.
Proof. intros [_ Hjobs] Hother. now apply same_get. Qed.

End SameBut.

Lemma tracks_own (jobId : nat) (created : Z) (swept : bool) (a p e : Queue)
      (updates : Updates) :
  Props.tracks jobId created swept a p e ->
  up_createdAt updates = None ->
  Props.tracks jobId created swept (fst (updateJob a jobId updates))
               (fst (updateJob p jobId updates)) e.
Proof.
  intros (Hok & Hle & (job & Hjob & Hcreated) & Hp & Hsame) Hu.
  destruct (JobFacts.updateJob_ok jobId updates Hok) as [Hok' Hcount].
  split; [exact Hok' |]. split; [now rewrite Hcount |]. split; [| split].
  - exists (assign job updates).
    rewrite getJob_updateJob, Nat.eqb_refl, Hjob. split; [reflexivity |].
    cbn [assign createdAt]. now rewrite Hu.
  - rewrite !getJob_updateJob, Nat.eqb_refl, Hp. now destruct swept.
  - now apply same_but_own.
Qed.

Lemma tracks_other (jobId : nat) (created : Z) (swept : bool) (a p e : Queue)
      (op : Op) :
  Props.tracks jobId created swept a p e ->
  Props.foreign jobId op ->
  Props.tracks jobId created (swept || Props.sweeps_away created op) a
               (run p op) (run e op).
Proof.
  intros (Hok & Hle & (job & Hjob & Hcreated) & Hp & Hsame) Hop.
  destruct (JobFacts.run_ok op Hok) as [Hok' Hmono].
  split; [exact Hok' |]. split; [lia |].
  split; [now exists job |].
  split; [| now apply same_but_other].
  assert (Hupdate : forall id updates,
             id <> jobId ->
             getJob (fst (updateJob p id updates)) jobId
             = if swept || false then None else getJob a jobId).
  { intros id updates Hid. rewrite getJob_updateJob, orb_false_r.
    replace (id =? jobId) with false
      by (symmetry; now apply Nat.eqb_neq).
    exact Hp. }
  destruct op; cbn [run Props.sweeps_away Props.foreign] in *;
    unfold startJob, completeJob, failJob; try now apply Hupdate.
  - rewrite orb_false_r. unfold createJob, getJob. cbn [fst jobs].
    rewrite JobFacts.map_get_set.
    replace (S (currentJobId p) =? jobId) with false
      by (symmetry; apply Nat.eqb_neq; lia).
    exact Hp.
  - destruct Hok as [_ Hnodup]. unfold getJob, cleanup in *. cbn [jobs].
    rewrite JobFacts.get_filter by exact Hnodup. rewrite Hp.
    destruct swept; cbn [orb]; [reflexivity |].
    rewrite Hjob. cbn [snd]. rewrite Hcreated.
    now destruct (created <? now - oneHour)%Z.
Qed.

Lemma tracks_others (jobId : nat) (created : Z) (a : Queue) (ops : list Op) :
  Forall (Props.foreign jobId) ops ->
  forall swept p e,
    Props.tracks jobId created swept a p e ->
    Props.tracks jobId created
                 (swept || existsb (Props.sweeps_away created) ops) a
                 (fold_left run ops p) (fold_left run ops e).
Proof.
  induction 1 as [|op ops Hop _ IH]; intros swept p e Htracks;
    cbn [fold_left existsb].
  - now rewrite orb_false_r.
  - rewrite orb_assoc. apply IH. now apply tracks_other.
Qed.

Lemma calls_in_loop_cons (others : Others) (batchIndex count total : nat) :
  Props.calls_in_loop others batchIndex (S count) total
  = (during_batch others batchIndex
     ++ (if batchIndex <? total - 1 then during_pause others batchIndex
         else []))
    ++ Props.calls_in_loop others (S batchIndex) count total.
Proof. reflexivity. Qed.

(** The batch loop among the others makes the calls of the loop alone
    and builds the same summary; its queue tracks the queue of the
    loop alone and the queue of the others alone. *)
Lemma runBatches_among_tracks (others : Others) (js : Platform) (host : Host)
      (admin : Admin) (groupedData : Grouped) (dryRun : bool) (jobId : nat)
      (created : Z) (optimalBatchSize totalBatches : nat)
      (batches : list (list string)) :
  Props.others_leave jobId others ->
  forall batchIndex r t a p e swept,
    Props.tracks jobId created swept a p e ->
    exists r' added a' p',
      runBatches js host admin groupedData dryRun jobId optimalBatchSize
                 batches batchIndex totalBatches (mkWorld r t a)
      = (Returns tt, mkWorld r' (t ++ added) a')
      /\ runBatches_among others js host admin groupedData dryRun jobId
                          optimalBatchSize batches batchIndex totalBatches
                          (mkWorld r t p)
         = (Returns tt, mkWorld r' (t ++ added) p')
      /\ Props.tracks jobId created
                (swept
                 || existsb (Props.sweeps_away created)
                            (Props.calls_in_loop others batchIndex
                                                 (length batches)
                                                 totalBatches))
                a' p'
                (fold_left run
                   (Props.calls_in_loop others batchIndex (length batches)
                                        totalBatches)
                   e).
Proof.
  intros (_ & Hbatch & Hpause).
  induction batches as [|batch rest IH];
    intros batchIndex r t a p e swept Ht.
  - exists r, [], a, p. rewrite app_nil_r.
    split; [reflexivity |]. split; [reflexivity |].
    cbn. now rewrite orb_false_r.
  - destruct (runBatch_step js admin groupedData dryRun batch r t)
      as (o & r1 & a1 & Hrun & _ & _ & _ & _ & _ & Hsafe).
    destruct o as [[] | error]; [| destruct Hsafe; discriminate].
    set (report := progress_of (round_percent host (batchIndex + 1)
                                              totalBatches) r1).
    set (pause := if batchIndex <? totalBatches - 1
                  then [Sleep (calculateDelay batchIndex totalBatches
                                              optimalBatchSize)]
                  else []).
    set (waiting := if batchIndex <? totalBatches - 1
                    then during_pause others batchIndex else []).
    assert (Halone :
              runBatches js host admin groupedData dryRun jobId
                         optimalBatchSize (batch :: rest) batchIndex
                         totalBatches (mkWorld r t a)
              = runBatches js host admin groupedData dryRun jobId
                           optimalBatchSize rest (S batchIndex) totalBatches
                           (mkWorld r1 (t ++ a1 ++ pause)
                                    (fst (updateJob a jobId report)))).
    { cbn [runBatches]. unfold bindM at 1. rewrite Hrun.
      unfold bindM at 1, report_progress at 1, updateProgress.
      cbn [results trace queue]. unfold bindM at 1. subst pause.
      destruct (batchIndex <? totalBatches - 1).
      - unfold sleep, log. cbn [results trace queue].
        now rewrite <- app_assoc.
      - unfold ret. now rewrite app_nil_r. }
    assert (Hamong :
              runBatches_among others js host admin groupedData dryRun jobId
                               optimalBatchSize (batch :: rest) batchIndex
                               totalBatches (mkWorld r t p)
              = runBatches_among others js host admin groupedData dryRun
                                 jobId optimalBatchSize rest (S batchIndex)
                                 totalBatches
                                 (mkWorld r1 (t ++ a1 ++ pause)
                                    (fold_left run waiting
                                       (fst (updateJob
                                               (fold_left run
                                                  (during_batch others
                                                                batchIndex)
                                                  p)
                                               jobId report))))).
    { cbn [runBatches_among]. unfold bindM at 1. rewrite Hrun.
      unfold bindM at 1, meanwhile at 1. cbn [results trace queue].
      unfold bindM at 1, report_progress at 1, updateProgress.
      cbn [results trace queue]. unfold bindM at 1. subst pause waiting.
      destruct (batchIndex <? totalBatches - 1).
      - unfold bindM at 1, sleep, log, meanwhile. cbn [results trace queue].
        now rewrite <- app_assoc.
      - unfold ret. cbn [fold_left]. now rewrite app_nil_r. }
    pose proof (tracks_others (Hbatch batchIndex) Ht) as Ht1.
    pose proof (tracks_own report Ht1 eq_refl) as Ht2.
    assert (Hwaiting : Forall (Props.foreign jobId) waiting).
    { subst waiting. destruct (batchIndex <? totalBatches - 1);
        [apply Hpause | constructor]. }
    pose proof (tracks_others Hwaiting Ht2) as Ht3.
    destruct (IH (S batchIndex) r1 (t ++ a1 ++ pause) _ _ _ _ Ht3)
      as (r' & added & a' & p' & Ha & Hp & Ht').
    exists r', (a1 ++ pause ++ added), a', p'.
    rewrite Halone, Hamong, Ha, Hp, <- !app_assoc.
    split; [reflexivity |]. split; [reflexivity |].
    cbn [length]. rewrite calls_in_loop_cons, !existsb_app, !fold_left_app.
    fold waiting. now rewrite !orb_assoc in *.
Qed.

(** The processor among the others makes the calls it makes alone; it
    leaves the job as it leaves it alone unless the job was swept, and
    every other job as the others alone leave it. *)
Lemma among_tracks_alone (others : Others) (js : Platform) (host : Host)
      (admin : Admin) (file : string) (dryRun : bool) (jobId : nat)
      (q : Queue) (job : Job) :
  Props.queue_ok q ->
  getJob q jobId = Some job ->
  Props.others_leave jobId others ->
  exists a p events,
    processCSVInBackground js host admin file dryRun jobId q
    = Some (a, events)
    /\ processCSVInBackground_among others js host admin file dryRun jobId q
       = Some (p, events)
    /\ getJob p jobId
       = (if existsb (Props.sweeps_away (createdAt job))
                     (Props.calls_during others (Props.batches_run js file))
          then None else getJob a jobId)
    /\ forall other,
         other <> jobId ->
         getJob p other
         = getJob (fold_left run
                     (Props.calls_during others (Props.batches_run js file))
                     q)
                  other.
Proof.
  intros Hok Hjob Hothers.
  pose proof Hothers as (Hparsing & _ & _).
  assert (Hstart : Props.tracks jobId (createdAt job) false q q q).
  { split; [exact Hok |]. split.
    - destruct Hok as [Hall _]. rewrite Forall_forall in Hall.
      specialize (Hall _ (JobFacts.get_In _ _ Hjob)). cbn [fst] in Hall. lia.
    - split; [now exists job |]. split; [reflexivity |].
      apply same_but_refl. }
  pose proof (tracks_own (started (Date_now host [])) Hstart eq_refl) as H0.
  pose proof (tracks_others Hparsing H0) as H1. cbn [orb] in H1.
  assert (Hfail : forall error,
             exists a p events,
               Some (fst (failJob (fst (startJob q (Date_now host []) jobId))
                                  (Date_now host []) jobId error),
                     @nil Event)
               = Some (a, events)
               /\ Some (fst (failJob
                               (fold_left run (during_parse others)
                                  (fst (startJob q (Date_now host []) jobId)))
                               (Date_now host []) jobId error),
                        @nil Event)
                  = Some (p, events)
               /\ getJob p jobId
                  = (if existsb (Props.sweeps_away (createdAt job))
                                (Props.calls_during others 0)
                     then None else getJob a jobId)
               /\ forall other,
                    other <> jobId ->
                    getJob p other
                    = getJob (fold_left run (Props.calls_during others 0) q)
                             other).
  { intros error. do 3 eexists. split; [reflexivity |].
    split; [reflexivity |].
    destruct (tracks_own (failed (Date_now host []) error) H1 eq_refl)
      as (_ & _ & _ & Hp & Hsame).
    unfold Props.calls_during, Props.calls_in_loop. cbn [seq map concat].
    rewrite app_nil_r. split; [exact Hp |].
    intros other Hother. now apply (same_but_get Hsame). }
  pose proof (ParsingFacts.parseCSV_cases js file false) as Hparse.
  unfold processCSVInBackground, processCSVInBackground_among, job_body,
    job_body_among, Props.batches_run.
  destruct (parseCSV js file false) as [csvData | message];
    [| apply Hfail].
  rewrite Hparse. cbn [length Nat.ltb Nat.leb].
  destruct (groupDataByHandle (csv_data csvData))
    as [groupedData | message]; [| apply Hfail].
  cbv zeta.
  set (handles := grouped_keys groupedData).
  set (f := format_of (csv_data csvData)).
  destruct (TraceFacts.createBatches_count handles
              (ExecutorFacts.getOptimalBatchSize_positive (length handles)))
    as (batches & Hb & _ & _).
  rewrite Hb.
  pose proof (tracks_own (total_of (length handles) f) H1 eq_refl) as H2.
  destruct (runBatches_among_tracks js host admin groupedData dryRun
              (getOptimalBatchSize (length handles)) (length batches)
              batches Hothers 0
              (Remote.mkResults 0 [] [] (length handles) f) [] H2)
    as (r & events & a & p & Ha & Hp & H3).
  unfold startJob, updateProgress in *. cbn [Datatypes.app] in Ha, Hp.
  do 3 eexists.
  split; [rewrite Ha; cbn [results trace queue]; reflexivity |].
  split; [rewrite Hp; cbn [results trace queue]; reflexivity |].
  destruct (tracks_own
              (completed (Date_now host events) (outcome_of r dryRun))
              H3 eq_refl) as (_ & _ & _ & Hfinal & Hsame).
  unfold Props.calls_during. rewrite existsb_app, fold_left_app.
  split; [exact Hfinal |].
  intros other Hother. now apply (same_but_get Hsame).
Qed.

(** X25.  A job that is in the queue when the processor starts ends
    failed or completed unless it is swept during the run, whatever the
    file, the host, the remote store and the calls other users of the
    queue make while the processor waits, as long as these address
    other jobs, create jobs or sweep.  The processor makes the remote
    calls it makes with the queue to itself.  The job is gone exactly
    when one of the sweeps during the run comes more than an hour after
    the job was created; otherwise it is what the processor alone
    leaves: failed exactly when parsing or grouping throws, with the
    message of the error and before any remote call, and else
    completed with the summary, whose counts stay within the number of
    keys and, for a table with at least one key, agree with the
    progress fields of the job.  The processor touches no other job:
    every other job is what the calls of the others alone make of
    it. *)
Theorem background_job_ends_completed_or_failed :
  forall (js : Platform) (host : Host) (admin : Admin) (others : Others)
         (file : string) (dryRun : bool) (jobId : nat) (history : list Op)
         (job : Job),
    getJob (after history) jobId = Some job ->
    Props.others_leave jobId others ->
    exists q' events alone job',
      processCSVInBackground_among others js host admin file dryRun jobId
                                   (after history)
      = Some (q', events)
      /\ processCSVInBackground js host admin file dryRun jobId
                                (after history)
         = Some (alone, events)
      /\ getJob q' jobId
         = (if existsb (Props.sweeps_away (createdAt job))
                       (Props.calls_during others (Props.batches_run js file))
            then None else Some job')
      /\ getJob alone jobId = Some job'
      /\ (forall other,
             other <> jobId ->
             getJob q' other
             = getJob (fold_left run
                         (Props.calls_during others
                                             (Props.batches_run js file))
                         (after history))
                      other)
      /\ (forall other,
             other <> jobId ->
             getJob alone other = getJob (after history) other)
      /\ job_id job' = job_id job
      /\ job_data job' = job_data job
      /\ createdAt job' = createdAt job
      /\ startedAt job' = Some (Date_now host [])
      /\ completedAt job' = Some (Date_now host events)
      /\ match parseCSV js file false with
         | Throws message => Props.failed_with message job job' events
         | Returns csvData =>
             match groupDataByHandle (csv_data csvData) with
             | Throws message => Props.failed_with message job job' events
             | Returns groupedData =>
                 Props.completed_with host (format_of (csv_data csvData))
                                      (grouped_keys groupedData) dryRun
                                      job job' events
             end
         end.
Proof.
  intros js host admin others file dryRun jobId history job Hjob Hothers.
  destruct (job_alone_ends_completed_or_failed js host admin file dryRun
              jobId (after history) Hjob)
    as (alone & events & job' & Hrun & Hget & Hrest).
  destruct (among_tracks_alone js host admin file dryRun
              (JobFacts.after_ok history) Hjob Hothers)
    as (a & p & events' & Ha & Hp & Htracks & Hsame).
  rewrite Hrun in Ha. injection Ha as <- <-.
  exists p, events, alone, job'.
  split; [exact Hp |]. split; [exact Hrun |].
  split; [now rewrite Htracks, Hget |].
  split; [exact Hget |]. split; [exact Hsame | exact Hrest].
Qed.

Lemma background_job_ends_completed_or_failed_witness :
  exists q' events alone job',
    processCSVInBackground_among
      (Props.sweep_in_first_batch 3600001) Examples.host Props.counting_host
      Props.accepting_store Examples.scenario_A false 1
      (after [OpCreate 0 "csv-processing"
                (mkJobData Examples.scenario_A false metafields 1)])
    = Some (q', events)
    /\ processCSVInBackground
         Examples.host Props.counting_host Props.accepting_store
         Examples.scenario_A false 1
         (after [OpCreate 0 "csv-processing"
                   (mkJobData Examples.scenario_A false metafields 1)])
       = Some (alone, events)
    /\ getJob q' 1 = None
    /\ getJob alone 1 = Some job'
    /\ job_status job' = "completed".
Proof.
  assert (Hjob : exists job,
             getJob (after [OpCreate 0 "csv-processing"
                              (mkJobData Examples.scenario_A false
                                         metafields 1)]) 1
             = Some job)
    by (eexists; vm_compute; reflexivity).
  destruct Hjob as [job Hjob].
  assert (Hothers : Props.others_leave
                      1 (Props.sweep_in_first_batch 3600001)).
  { split; [constructor |]. split; intros i; [| constructor].
    cbn. destruct (i =? 0); repeat constructor. }
  destruct (@background_job_ends_completed_or_failed
              Examples.host Props.counting_host Props.accepting_store
              (Props.sweep_in_first_batch 3600001)
              Examples.scenario_A false 1 _ job Hjob Hothers)
    as (q' & events & alone & job' & Hamong & Halone & Hswept & Hget & _
        & _ & _ & _ & _ & _ & _ & Hcase).
  exists q', events, alone, job'.
  split; [exact Hamong |]. split; [exact Halone |].
  split; [| split; [exact Hget |]].
  - rewrite Hswept. revert Hjob. vm_compute. now intros [= <-].
  - remember (parseCSV Examples.host Examples.scenario_A false) as parsed
      eqn:Hparsed in Hcase.
    vm_compute in Hparsed. subst parsed. cbn [csv_data] in Hcase.
    remember (groupDataByHandle _) as grouped eqn:Hgrouped in Hcase.
    vm_compute in Hgrouped. subst grouped.
    now destruct Hcase as (Hstatus & _).
Defined.

Ltac collapse Hnone :=
  repeat match type of Hnone with
         | getJob ?q ?jobId = None =>
             match goal with
             | |- context [fst (updateJob q jobId ?u)] =>
                 rewrite (updateJob_unknown q jobId u Hnone)
             end
         end.

(** X26.  The remote calls of the processor do not depend on the
    queue: when the job id is unknown, for instance because the job was
    swept after an hour, the whole table is still processed, with the
    same calls, and the queue is left as it was, so nothing of the run
    is recorded. *)
Theorem background_work_ignores_the_queue :
  forall (js : Platform) (host : Host) (admin : Admin) (file : string)
         (dryRun : bool) (jobId : nat) (q1 q2 : Queue),
    option_map snd
      (processCSVInBackground js host admin file dryRun jobId q1)
    = option_map snd
        (processCSVInBackground js host admin file dryRun jobId q2)
    /\ (getJob q1 jobId = None ->
        option_map fst
          (processCSVInBackground js host admin file dryRun jobId q1)
        = Some q1).
Proof.
  intros js host admin file dryRun jobId q1 q2.
  pose proof (processCSVInBackground_cases js host admin file dryRun jobId)
    as Hcases.
  cbv zeta in Hcases.
  assert (Hfailed : forall message,
             (forall q,
                 processCSVInBackground js host admin file dryRun jobId q
                 = Some (fst (failJob (fst (startJob q (Date_now host [])
                                                     jobId))
                                      (Date_now host []) jobId
                                      (Remote.Error message)),
                         [])) ->
             option_map snd
               (processCSVInBackground js host admin file dryRun jobId q1)
             = option_map snd
                 (processCSVInBackground js host admin file dryRun jobId q2)
             /\ (getJob q1 jobId = None ->
                 option_map fst
                   (processCSVInBackground js host admin file dryRun jobId
                                           q1)
                 = Some q1)).
  { intros message Hrun. rewrite !Hrun. split; [reflexivity |].
    intros Hnone. cbn [option_map fst]. unfold failJob, startJob.
    now collapse Hnone. }
  destruct (parseCSV js file false) as [csvData | message];
    [| now apply (Hfailed message)].
  destruct (groupDataByHandle (csv_data csvData))
    as [groupedData | message]; [| now apply (Hfailed message)].
  destruct Hcases as (r & events & b & _ & _ & _ & _ & _ & _ & Hrun).
  rewrite !Hrun. split; [reflexivity |].
  intros Hnone. cbn [option_map fst].
  unfold completeJob, startJob, updateProgress.
  destruct (grouped_keys groupedData); now collapse Hnone.
Qed.

(** X27.  The two executors disagree on a group that holds a value
    failing the validation of its declared type: the synchronous
    executor makes no call for it, the background processor sends the
    whole group as it was read, the failing value included. *)
Theorem background_sends_values_unchecked :
  forall (js : Platform) (sync : Remote.Admin) (admin : Admin)
         (product : Remote.Product) (metafieldsToSet : list Metafield)
         (handle : string) (w : Remote.World) (bw : World)
         (bad : Metafield),
    In bad metafieldsToSet ->
    validateMetafieldValue js (mf_value bad) (mf_type bad) = false ->
    Remote.trace
      (snd (Executor.processMetafields js sync product metafieldsToSet
                                       handle false w))
    = Remote.trace w
    /\ trace (snd (processMetafields admin product metafieldsToSet handle
                                    false bw))
       = trace bw ++ [Call (SET_METAFIELDS metafieldsToSet) tries].
Proof.
  intros js sync admin product metafieldsToSet handle w bw bad Hin Hbad.
  split.
  - unfold Executor.processMetafields, Remote.bindM, Remote.lift.
    destruct (Executor.check_metafields js product metafieldsToSet [] [])
      as [[validationErrors validMetafields] | message] eqn:Hcheck;
      [| reflexivity].
    pose proof (MetafieldFacts.check_finds_invalid
                  js product metafieldsToSet bad Hin Hbad _ _ Hcheck) as Hne.
    destruct validationErrors; [congruence | reflexivity].
  - unfold processMetafields. destruct metafieldsToSet; [contradiction |].
    cbn [negb length Nat.ltb Nat.leb andb].
    unfold bindM, graphql_metafieldsSet.
    destruct (metafieldsSet admin (trace bw) _ tries) as [userErrors |];
      [| reflexivity].
    now destruct userErrors.
Qed.

Lemma background_sends_values_unchecked_witness :
  let group := [mkMetafield "custom" "size" "12.3" "number_integer"] in
  let w := Remote.mkWorld (Remote.mkResults 0 [] [] 1 metafields) [] in
  let bw := mkWorld (Remote.mkResults 0 [] [] 1 metafields) []
                    Props.one_job in
  Remote.trace
    (snd (Executor.processMetafields Examples.host
            (Examples.store Examples.catalog) Examples.red_board group
            "red-board" false w))
  = []
  /\ trace (snd (processMetafields Props.accepting_store Examples.red_board
                                  group "red-board" false bw))
     = [Call (SET_METAFIELDS group) 3].
Proof.
  intros group w bw.
  apply (@background_sends_values_unchecked
           Examples.host (Examples.store Examples.catalog)
           Props.accepting_store Examples.red_board group "red-board" w bw
           (mkMetafield "custom" "size" "12.3" "number_integer")).
  - now left.
  - vm_compute. reflexivity.
Defined.

End BackgroundFacts.

(* ================================================================== *)
(** * fixMultilineCSV: which lines are merged *)
(* ================================================================== *)

Module MultilineFacts.

Import CsvProcessor.

Lemma quotes_snoc (group : list string) (line : string) :
  Props.quotes (group ++ [line])
  = Props.quotes group + JS.count_char dquote line.
Proof.
  unfold Props.quotes. rewrite map_app, list_sum_app. cbn. lia.
Qed.

Lemma join_snoc (sep : string) (group : list string) (line : string) :
  group <> [] ->
  JS.join sep (group ++ [line]) = (JS.join sep group ++ sep ++ line)%string.
Proof.
  unfold JS.join. induction group as [|x group IH]; [congruence |].
  intros _. destruct group as [|y group].
  - reflexivity.
  - cbn [Datatypes.app String.concat] in *.
    rewrite IH by discriminate. now rewrite !append_assoc.
Qed.

Lemma odd_even (n : nat) : Nat.odd n = negb (Nat.even n).
Proof. now rewrite Nat.negb_even. Qed.

Lemma open_group_text (group : list string) :
  Props.open_group group -> nonempty (JS.join " " group) = true.
Proof.
  intros [Hne Hodd]. destruct group as [|line group]; [congruence |].
  assert (Hfirst : Nat.odd (JS.count_char dquote line) = true).
  { specialize (Hodd 1). cbn [firstn length] in Hodd.
    unfold Props.quotes in Hodd. cbn in Hodd. rewrite Nat.add_0_r in Hodd.
    apply Hodd. lia. }
  destruct line as [|c line]; [discriminate |].
  unfold JS.join. destruct group; reflexivity.
Qed.

(** The state of the loop after the lines [done]: the closed groups
    already pushed and, inside a quoted field, the open group. *)
Lemma fix_step_invariant (st : MultilineState) (done : list string)
      (line : string) :
  (exists closed rest,
      concat (closed ++ rest) = done
      /\ fixedLines st = map (JS.join " ") closed
      /\ Forall Props.closed_group closed
      /\ ((rest = [] /\ inQuotedField st = false
           /\ currentLine st = EmptyString /\ quoteCount st = 0)
          \/ (exists group,
                 rest = [group] /\ Props.open_group group
                 /\ inQuotedField st = true
                 /\ currentLine st = JS.join " " group
                 /\ quoteCount st = Props.quotes group))) ->
  let st' := fixMultiline_step st line in
  exists closed rest,
    concat (closed ++ rest) = done ++ [line]
    /\ fixedLines st' = map (JS.join " ") closed
    /\ Forall Props.closed_group closed
    /\ ((rest = [] /\ inQuotedField st' = false
         /\ currentLine st' = EmptyString /\ quoteCount st' = 0)
        \/ (exists group,
               rest = [group] /\ Props.open_group group
               /\ inQuotedField st' = true
               /\ currentLine st' = JS.join " " group
               /\ quoteCount st' = Props.quotes group)).
Proof.
  intros (closed & rest & Hcat & Hfixed & Hclosed & Hstate) st'.
  subst st'. unfold fixMultiline_step. cbv zeta.
  destruct Hstate
    as [(-> & Hq & Hcur & Hcount)
       | (group & -> & Hopen & Hq & Hcur & Hcount)];
    rewrite Hq, Hcount.
  - (* outside a quoted field *)
    rewrite app_nil_r in Hcat. cbn [orb Nat.add].
    destruct (Nat.odd (JS.count_char dquote line)) eqn:Hodd.
    + rewrite Hcur. cbn [nonempty].
      assert (Heven : Nat.even (JS.count_char dquote line) = false).
      { rewrite odd_even in Hodd. now destruct (Nat.even _). }
      rewrite Heven.
      exists closed, [[line]]. split.
      { rewrite concat_app, Hcat. cbn. now rewrite ?app_nil_r. }
      split; [exact Hfixed |]. split; [exact Hclosed |].
      right. exists [line]. split; [reflexivity |]. split.
      { split; [discriminate |]. intros j Hj. cbn [length] in Hj.
        assert (j = 1) as -> by lia. cbn [firstn].
        unfold Props.quotes. cbn. now rewrite Nat.add_0_r. }
      cbn [inQuotedField currentLine quoteCount].
      repeat split. unfold Props.quotes. cbn. lia.
    + exists (closed ++ [[line]]), []. split.
      { rewrite app_nil_r, concat_app, Hcat. cbn. now rewrite ?app_nil_r. }
      cbn [fixedLines inQuotedField currentLine quoteCount].
      split; [now rewrite map_app, Hfixed |]. split.
      { apply Forall_app. split; [exact Hclosed |].
        constructor; [| constructor].
        split; [discriminate |]. split.
        - unfold Props.quotes. cbn. rewrite Nat.add_0_r.
          rewrite odd_even in Hodd. now destruct (Nat.even _).
        - intros j Hj. cbn [length] in Hj. lia. }
      left. now repeat split.
  - (* inside a quoted field *)
    cbn [orb]. rewrite Hcur, (open_group_text Hopen).
    destruct Hopen as [Hne Hprefix].
    assert (Hjoin : (JS.join " " group ++ " " ++ line)%string
                    = JS.join " " (group ++ [line])).
    { now rewrite join_snoc. }
    rewrite Hjoin, <- quotes_snoc.
    assert (Hshort : forall j,
               0 < j <= length group ->
               Nat.odd (Props.quotes (firstn j (group ++ [line]))) = true).
    { intros j Hj. rewrite firstn_app.
      replace (j - length group) with 0 by lia.
      cbn [firstn]. rewrite app_nil_r. now apply Hprefix. }
    destruct (Nat.even (Props.quotes (group ++ [line]))) eqn:Heven.
    + exists (closed ++ [group ++ [line]]), []. split.
      { rewrite app_nil_r, concat_app, <- Hcat, concat_app. cbn.
        now rewrite ?app_nil_r, ?app_assoc. }
      cbn [fixedLines inQuotedField currentLine quoteCount].
      split; [now rewrite map_app, Hfixed |]. split.
      { apply Forall_app. split; [exact Hclosed |].
        constructor; [| constructor].
        split; [now destruct group |]. split; [exact Heven |].
        intros j Hj. rewrite length_app in Hj. cbn [length] in Hj.
        apply Hshort. lia. }
      left. now repeat split.
    + exists closed, [group ++ [line]]. split.
      { rewrite concat_app, <- Hcat, concat_app. cbn.
        now rewrite ?app_nil_r, ?app_assoc. }
      cbn [fixedLines inQuotedField currentLine quoteCount].
      split; [exact Hfixed |]. split; [exact Hclosed |].
      right. exists (group ++ [line]). split; [reflexivity |]. split.
      { split; [now destruct group |].
        intros j Hj. rewrite length_app in Hj. cbn [length] in Hj.
        destruct (Nat.eq_dec j (length group + 1)) as [-> | Hother].
        - rewrite firstn_all2 by (rewrite length_app; cbn; lia).
          rewrite odd_even, Heven. reflexivity.
        - apply Hshort. lia. }
      now repeat split.
Qed.

Lemma fix_steps_invariant (lines : list string) :
  forall (st : MultilineState) (done : list string),
    (exists closed rest,
        concat (closed ++ rest) = done
        /\ fixedLines st = map (JS.join " ") closed
        /\ Forall Props.closed_group closed
        /\ ((rest = [] /\ inQuotedField st = false
             /\ currentLine st = EmptyString /\ quoteCount st = 0)
            \/ (exists group,
                   rest = [group] /\ Props.open_group group
                   /\ inQuotedField st = true
                   /\ currentLine st = JS.join " " group
                   /\ quoteCount st = Props.quotes group))) ->
    let st' := fold_left fixMultiline_step lines st in
    exists closed rest,
      concat (closed ++ rest) = done ++ lines
      /\ fixedLines st' = map (JS.join " ") closed
      /\ Forall Props.closed_group closed
      /\ ((rest = [] /\ currentLine st' = EmptyString)
          \/ (exists group,
                 rest = [group] /\ Props.open_group group
                 /\ currentLine st' = JS.join " " group)).
Proof.
  induction lines as [|line lines IH]; intros st done Hinv; cbn [fold_left].
  - destruct Hinv as (closed & rest & Hcat & Hfixed & Hclosed & Hstate).
    exists closed, rest. rewrite app_nil_r.
    split; [exact Hcat |]. split; [exact Hfixed |]. split; [exact Hclosed |].
    destruct Hstate as [(-> & _ & Hcur & _) | (group & -> & Hopen & _ & Hcur & _)].
    + now left.
    + right. now exists group.
  - pose proof (fix_step_invariant st line Hinv) as Hstep.
    cbv zeta in Hstep.
    destruct (IH _ _ Hstep) as (closed & rest & Hcat & Hrest).
    exists closed, rest. split; [| exact Hrest].
    now rewrite Hcat, <- app_assoc.
Qed.

(** X28.  [fixMultilineCSV] groups the lines of the text, joins the
    lines of each group with a blank and the groups with line breaks,
    and changes nothing else.  A group ends at the first line at which
    its double quotes balance; only the last group may be left
    unbalanced, when the text ends inside a quoted field. *)
Theorem fixMultilineCSV_merges_lines_until_quotes_balance :
  forall csvText : string,
    exists closed rest,
      concat (closed ++ rest) = JS.split nl csvText
      /\ fixMultilineCSV csvText
         = JS.join (chr nl) (map (JS.join " ") (closed ++ rest))
      /\ Forall Props.closed_group closed
      /\ (rest = [] \/ exists group, rest = [group] /\ Props.open_group group).
Proof.
  intros csvText. unfold fixMultilineCSV. cbv zeta.
  destruct (@fix_steps_invariant (JS.split nl csvText)
              (mkMultiline [] EmptyString false 0) [])
    as (closed & rest & Hcat & Hfixed & Hclosed & Hstate).
  { exists [], []. split; [reflexivity |]. split; [reflexivity |].
    split; [constructor |]. left. now repeat split. }
  cbn [Datatypes.app] in Hcat.
  exists closed, rest. split; [exact Hcat |].
  destruct Hstate as [(-> & Hcur) | (group & -> & Hopen & Hcur)].
  - rewrite Hcur, Hfixed, app_nil_r. cbn [nonempty].
    split; [reflexivity |]. split; [exact Hclosed | now left].
  - rewrite Hcur, Hfixed, (open_group_text Hopen), map_app.
    split; [reflexivity |]. split; [exact Hclosed |].
    right. now exists group.
Qed.

End MultilineFacts.

(* ================================================================== *)
(** * How the Published cell is read *)
(* ================================================================== *)

Module PublishedFacts.

Import Regex CsvProcessor Remote.

(** Lower-casing leaves no capital letter at the front. *)
Lemma lowered_is_not_upper (s : string) (b : ascii) (t : string) :
  JS.toLowerCase s = String b t -> JS.is_upper b = false.
Proof.
  assert (Hchar : forall a, JS.is_upper (JS.lower_char a) = false).
  { intros a. unfold JS.lower_char.
    destruct (JS.is_upper a) eqn:Hup; [| exact Hup].
    unfold JS.is_upper, JS.between in *.
    apply andb_true_iff in Hup as [Hlo Hhi].
    apply Nat.leb_le in Hlo, Hhi. unfold JS.code in *.
    rewrite nat_ascii_embedding by lia.
    apply andb_false_iff. right. apply Nat.leb_gt. lia. }
  destruct s as [|a [|b' [|c s]]]; cbn [JS.toLowerCase]; [discriminate | | |].
  - intros [= <- _]. apply Hchar.
  - destruct (JS.is_dotted_I a b'); intros [= <- _];
      [reflexivity | apply Hchar].
  - destruct (JS.is_dotted_I a b'); [intros [= <- _]; reflexivity |].
    destruct (JS.is_kelvin a b' c); intros [= <- _];
      [reflexivity | apply Hchar].
Qed.

(** X29.  The Published cell is validated without regard to letter
    case but read with regard to it: for a row that passes validation
    with a non-empty Published cell, the cell reads [true], [false],
    [1] or [0] in some letter case, and both executors set the status
    to [ACTIVE] only when the cell is spelled [true], [1] or [TRUE];
    every other accepted spelling, such as [True], sets it to
    [DRAFT]. *)
Theorem published_is_read_case_sensitively :
  forall (js : Platform) (product : Product) (row : RawRow) (index : nat)
         (c : ascii) (cell : string),
    Obj.get row "Published" = Some (String c cell) ->
    productRowErrors row index = [] ->
    let status :=
      Some (if JS.mem (String c cell) ["true"; "1"; "TRUE"]
            then "ACTIVE" else "DRAFT") in
    JS.mem (JS.toLowerCase (String c cell)) ["true"; "false"; "1"; "0"]
    = true
    /\ u_status (Executor.buildUpdateInput js product (validatedProductRow row))
       = status
    /\ u_status (Background.buildUpdateInput js product
                                             (validatedProductRow row))
       = status.
Proof.
  intros js product row index c cell Hcell Hok status. split.
  - unfold productRowErrors in Hok. cbv zeta in Hok.
    apply app_eq_nil in Hok as [_ Hok].
    apply app_eq_nil in Hok as [_ Hok].
    apply app_eq_nil in Hok as [Hpublished _].
    rewrite Hcell in Hpublished.
    cbn [JS.truthy JS.or_empty andb] in Hpublished.
    destruct (JS.mem (JS.toLowerCase (String c cell))
                     ["true"; "false"; "1"; "0"; "TRUE"; "FALSE"]) eqn:Hmem;
      [| discriminate].
    unfold JS.mem in *. cbn [existsb] in *.
    rewrite !orb_true_iff in Hmem. rewrite !orb_true_iff.
    destruct Hmem as [H | [H | [H | [H | [H | [H | H]]]]]]; auto.
    + exfalso. apply String.eqb_eq in H.
      now pose proof (lowered_is_not_upper _ H).
    + exfalso. apply String.eqb_eq in H.
      now pose proof (lowered_is_not_upper _ H).
  - subst status.
    unfold Executor.buildUpdateInput, Background.buildUpdateInput.
    cbn [u_status validatedProductRow p_published].
    rewrite Hcell. cbn [JS.truthy JS.or_empty Executor.status_of].
    now destruct (JS.mem (String c cell) ["true"; "1"; "TRUE"]).
Qed.

Lemma published_is_read_case_sensitively_witness :
  let row : RawRow := [("Handle", "red-board"); ("Published", "True")] in
  productRowErrors row 0 = []
  /\ u_status (Executor.buildUpdateInput Examples.host Examples.red_board
                                         (validatedProductRow row))
     = Some "DRAFT".
Proof.
  intros row. split; [vm_compute; reflexivity |].
  refine (proj1 (proj2 (@published_is_read_case_sensitively
                          Examples.host Examples.red_board row 0
                          "T" "rue" _ _)));
    vm_compute; reflexivity.
Defined.

End PublishedFacts.

(* ================================================================== *)
(** * What the synchronous executor sends for a valid group *)
(* ================================================================== *)

Module SentFacts.

Import CsvProcessor Remote.

Lemma check_valid_group (js : Platform) (product : Product)
      (metafieldsToSet : list Metafield) :
  Forall (fun m => validateMetafieldValue js (mf_value m) (mf_type m) = true)
         metafieldsToSet ->
  forall validationErrors validMetafields,
    (exists message,
        Executor.check_metafields js product metafieldsToSet
                                  validationErrors validMetafields
        = Throws message)
    \/ (exists sent,
           Executor.check_metafields js product metafieldsToSet
                                     validationErrors validMetafields
           = Returns (validationErrors, validMetafields ++ sent)
           /\ Forall2 (Props.sent_as js product) metafieldsToSet sent).
Proof.
  induction 1 as [|m rest Hm _ IH]; intros validationErrors validMetafields;
    cbn [Executor.check_metafields].
  - right. exists []. rewrite app_nil_r. split; [reflexivity | constructor].
  - rewrite Hm. cbn [negb].
    destruct (formatMetafieldValue js (mf_value m) (mf_type m))
      as [value | message] eqn:Hformat; cbn [bind].
    + destruct (IH validationErrors
                   (validMetafields
                    ++ [mkMetafieldInput (product_id product)
                          (mf_namespace m) (mf_key m) value (mf_type m)]))
        as [[message Hthrows] | (sent & Hrun & Hsent)].
      * left. now exists message.
      * right. eexists (_ :: sent). split.
        -- rewrite Hrun, <- app_assoc. reflexivity.
        -- constructor; [| exact Hsent].
           unfold Props.sent_as. cbn. now repeat split.
    + left. now exists message.
Qed.

(** X30.  For a group all of whose values pass the validation of their
    declared types, the synchronous executor either fails while
    formatting, before any call, or sends the whole group in one call:
    one input per entry, in order, each owned by the product, with the
    entry's namespace, key and type and with the formatted value; the
    only call that may follow is the tag-add. *)
Theorem valid_group_is_sent_whole :
  forall (js : Platform) (admin : Admin) (product : Product)
         (metafieldsToSet : list Metafield) (handle : string) (w : World),
    metafieldsToSet <> [] ->
    Forall (fun m =>
              validateMetafieldValue js (mf_value m) (mf_type m) = true)
           metafieldsToSet ->
    (exists message,
        Executor.processMetafields js admin product metafieldsToSet handle
                                   false w
        = (Throws message, w))
    \/ (exists sent rest,
           Forall2 (Props.sent_as js product) metafieldsToSet sent
           /\ trace (snd (Executor.processMetafields js admin product
                                                     metafieldsToSet handle
                                                     false w))
              = trace w ++ Call (SET_METAFIELDS sent) Executor.tries :: rest
           /\ (rest = []
               \/ rest = [Call (UPDATE_PRODUCT_PROPERTIES
                                  (Executor.tag_only_input product
                                     (product_tags product
                                      ++ [Executor.csvImportTag])))
                               Executor.tries])).
Proof.
  intros js admin product metafieldsToSet handle w Hne Hvalid.
  unfold Executor.processMetafields, bindM, lift.
  destruct (check_valid_group js product Hvalid [] [])
    as [[message ->] | (sent & -> & Hsent)].
  - left. now exists (Error message).
  - right. cbn [Datatypes.app].
    change (0 <? @length string []) with false. cbn [negb andb].
    assert (Hlen : (0 <? length sent) = true).
    { apply Nat.ltb_lt. rewrite <- (Forall2_length Hsent).
      destruct metafieldsToSet; [congruence | cbn; lia]. }
    rewrite Hlen. unfold graphql_metafieldsSet.
    destruct (metafieldsSet admin (trace w) sent Executor.tries)
      as [userErrors | message].
    + destruct (0 <? length userErrors).
      * exists sent, []. split; [exact Hsent |]. split; [| now left].
        reflexivity.
      * unfold Executor.add_import_tag, try_catch, bindM,
          graphql_productUpdate, ret.
        destruct (negb (JS.mem Executor.csvImportTag (product_tags product))).
        -- exists sent. eexists. split; [exact Hsent |].
           destruct (productUpdate admin _ _ Executor.tries);
             cbn [snd trace results push_success modify_results];
             (split; [rewrite <- app_assoc; reflexivity | now right]).
        -- exists sent, []. split; [exact Hsent |]. split; [| now left].
           reflexivity.
    + exists sent, []. split; [exact Hsent |]. split; [| now left].
      reflexivity.
Qed.

Lemma valid_group_is_sent_whole_witness :
  let group := [mkMetafield "custom" "ready" "TRUE" "boolean";
                mkMetafield "custom" "site" "https://example.com" "url"] in
  let w := mkWorld (mkResults 0 [] [] 1 metafields) [] in
  exists rest,
    trace (snd (Executor.processMetafields Examples.host
                  (Examples.store Examples.catalog) Examples.red_board
                  group "red-board" false w))
    = Call (SET_METAFIELDS
              [mkMetafieldInput "gid://shopify/Product/1" "custom" "ready"
                                "true" "boolean";
               mkMetafieldInput "gid://shopify/Product/1" "custom" "site"
                                "https://example.com" "url"])
           3 :: rest.
Proof.
  intros group w.
  assert (Hne : group <> []) by discriminate.
  assert (Hvalid : Forall (fun m =>
                             validateMetafieldValue Examples.host
                               (mf_value m) (mf_type m) = true) group)
    by (repeat constructor; vm_compute; reflexivity).
  destruct (@valid_group_is_sent_whole
              Examples.host (Examples.store Examples.catalog)
              Examples.red_board group "red-board" w Hne Hvalid)
    as [[message Hthrows] | (sent & rest & _ & _ & _)].
  - exfalso. revert Hthrows. vm_compute. discriminate.
  - eexists. vm_compute. reflexivity.
Defined.

End SentFacts.
